(** * Per-variable chunk cache of the NCZarr dispatcher (libnczarr/zxcache.c)

    A shallow embedding of the chunk cache: the chunk-key codec
    ([NCZ_buildchunkkey], [NCZ_buildchunkpath]), the cache operations
    ([NCZ_read_cache_chunk], [NCZ_write_cache_chunk], [makeroom],
    [NCZ_flush_chunk_cache], [NCZ_adjust_var_cache]) and the two store
    adapters ([get_chunk], [put_chunk]).

    Conventions of the embedding.
    - [size64_t], [size_t] and [unsigned long] are 64 bits wide (LP64); they
      are carried as [Z] and the one explicit cast of the source,
      [(unsigned long)chunkindices[r]], is written out as a reduction
      modulo [2^64].
    - Cache entries live in a heap indexed by address: the recency list
      [mru] and the hash container [xcache] both hold addresses, so an update
      made through one is seen through the other.  The data buffer and the
      two key strings of an entry are owned by the entry block: every
      release site of the source frees the four blocks together.
    - Functions return an [outcome]: [Done] with the C return value and the
      new state, [Abort] for a failed [assert] or a dereference of a NULL or
      released pointer, [OutOfFuel] when a loop model is given too little
      fuel (never the case for the fuel the operations supply). *)

From Stdlib Require Import ZArith Ascii String.
From stdpp Require Import base list gmap strings.

Local Open Scope Z_scope.

(** ** Return codes

    The values are those of the public header netcdf.h, which is not part of
    the sources at hand; the development only uses that they differ and that
    [NC_NOERR] is zero, the value the tests [if((stat = ...))] take for
    success. *)

Definition NC_NOERR : Z := 0.
Definition NC_EINVAL : Z := -36.
Definition NC_ENOMEM : Z := -61.
Definition NC_ENOTFOUND : Z := -90.
Definition NC_EEMPTY : Z := -139.

(** ** Outcomes *)

Inductive outcome (A : Type) : Type :=
| Done (a : A)
| Abort
| OutOfFuel.
Arguments Done {A} a.
Arguments Abort {A}.
Arguments OutOfFuel {A}.

#[global] Instance outcome_ret : MRet outcome := λ A a, Done a.
#[global] Instance outcome_bind : MBind outcome := λ A B k m,
  match m with
  | Done a => k a
  | Abort => Abort
  | OutOfFuel => OutOfFuel
  end.

(** ** Chunk-key codec *)

Module Codec.

(** Width of [unsigned long] and the cast to it. *)
Definition ULONG_BITS : Z := 64.
Definition cast_ulong (x : Z) : Z := x mod 2 ^ ULONG_BITS.

(** [size64_t] values. *)
Definition is_size64 (x : Z) : Prop := 0 ≤ x < 2 ^ 64.

Definition digit_char (d : Z) : ascii := ascii_of_nat (48 + Z.to_nat d).

(** The digit loop of the [%lu] conversion: least significant digit first,
    each digit is put in front of the ones already produced. *)
Fixpoint utoa (fuel : nat) (n : Z) (acc : list ascii) : list ascii :=
  match fuel with
  | O => acc
  | S fuel' =>
      let acc' := digit_char (n mod 10) :: acc in
      if n / 10 =? 0 then acc' else utoa fuel' (n / 10) acc'
  end.

(** [snprintf(sindex, sizeof(sindex), "%lu", (unsigned long)x)]: at most
    twenty digits, which fit the 64 bytes of [sindex]. *)
Definition snprintf_lu (x : Z) : list ascii := utoa 20 (cast_ulong x) [].

(** Modelled from the spec: the macro [islegaldimsep] is declared in a header
    that is not part of the sources at hand; the legal set of separators
    is [.] and [/]. *)
Definition islegaldimsep (c : ascii) : bool :=
  bool_decide (c = "."%char) || bool_decide (c = "/"%char).

(** Body of [for(r=0;r<R;r++)]: [n] iterations remain, [key] is the
    [NCbytes] buffer.  Reading past the end of [chunkindices] aborts.  The
    counter [r] is an [int] in the source; ranks are bounded by
    [NC_MAX_VAR_DIMS] and stay far below [INT_MAX]. *)
Fixpoint buildchunkkey_loop (n r : nat) (chunkindices : list Z) (dimsep : ascii)
    (key : list ascii) : outcome (list ascii) :=
  match n with
  | O => Done key
  | S n' =>
      match chunkindices !! r with
      | None => Abort
      | Some x =>
          let key1 := if (0 <? r)%nat then key ++ [dimsep] else key in
          buildchunkkey_loop n' (S r) chunkindices dimsep (key1 ++ snprintf_lu x)
      end
  end.

(** [NCZ_buildchunkkey]: the status and the string stored through [keyp]. *)
Definition NCZ_buildchunkkey (R : nat) (chunkindices : list Z) (dimsep : ascii)
    : outcome (Z * string) :=
  if islegaldimsep dimsep then
    key ← buildchunkkey_loop R 0 chunkindices dimsep [];
    Done (NC_NOERR, string_of_list_ascii key)
  else Abort.

(** *** The key as the specification words it *)

Definition is_digit (c : ascii) : bool :=
  (48 <=? nat_of_ascii c)%nat && (nat_of_ascii c <=? 57)%nat.

Definition digit_value (c : ascii) : Z := Z.of_nat (nat_of_ascii c) - 48.

(** Value of a digit string read in base ten. *)
Definition decimal_value (s : list ascii) : Z :=
  fold_left (λ v c, 10 * v + digit_value c) s 0.

(** [s] is the base-ten numeral of [x]: digits only, at least one, and no
    leading zero (no padding) except for the numeral [0] itself. *)
Definition decimal_numeral (x : Z) (s : list ascii) : Prop :=
  forallb is_digit s = true ∧ s ≠ [] ∧ decimal_value s = x ∧
  (head s = Some "0"%char → s = ["0"%char]).

(** [i0<sep>i1<sep>...]: the numerals joined by the separator. *)
Fixpoint join_with (sep : ascii) (parts : list (list ascii)) : list ascii :=
  match parts with
  | [] => []
  | [p] => p
  | p :: rest => p ++ sep :: join_with sep rest
  end.

(** What the iterations starting at position [r] append to the buffer. *)
Fixpoint appended (r : nat) (xs : list Z) (sep : ascii) : list ascii :=
  match xs with
  | [] => []
  | x :: xs' =>
      (if (0 <? r)%nat then [sep] else []) ++ snprintf_lu x ++ appended (S r) xs' sep
  end.

End Codec.


(** ** The chunk cache *)

Module Cache.
Import Codec.

(** Addresses of heap blocks; [None] of an [option addr] is the NULL pointer. *)
Abbreviation addr := positive.
Abbreviation byte := Init.Byte.byte.

(** *** Data model (zcache.h) *)

Record ChunkKey : Type := mkChunkKey {
  varkey : option string;
  chunkkey : option string
}.

Record NCZCacheEntry : Type := mkEntry {
  modified : bool;
  indices : list Z;
  key : ChunkKey;
  hashkey : Z;
  data : option (list byte)
}.

(** The fields of [NC_VAR_INFO_T] and of the structures reached from it that
    the cache consults: [var->chunk_cache_size],
    [((NCZ_VAR_INFO_T* )var->format_var_info)->chunksize] and
    [var->container->nc4_info->no_write]. *)
Record NC_VAR_INFO_T : Type := mkVar {
  var_name : string;
  chunk_cache_size : Z;
  zvar_chunksize : Z;
  no_write : bool
}.

(** Modelled from the spec: ncxcache.c is not part of the sources at hand.
    The indexed LRU container maps a hash key to one entry and keeps the
    entries in recency order; here the most recently used binding comes
    first.  [insert] makes the new entry the most recent one, [lookup] does
    not promote, [touch] promotes, [remove] detaches and hands the entry
    back, [last] reports the least recently used entry, and the container
    enforces no capacity. *)
Abbreviation NCxcache := (list (Z * addr)).

(** Modelled from the spec: the entry filed under [hkey], if any. *)
Fixpoint xfind (xc : NCxcache) (hkey : Z) : option addr :=
  match xc with
  | [] => None
  | (k, p) :: xc' => if k =? hkey then Some p else xfind xc' hkey
  end.

(** Modelled from the spec: the container without the binding of [hkey]. *)
Fixpoint xdrop (xc : NCxcache) (hkey : Z) : NCxcache :=
  match xc with
  | [] => []
  | (k, p) :: xc' => if k =? hkey then xc' else (k, p) :: xdrop xc' hkey
  end.

(** Modelled from the spec: [lookup(hkey) -> entry?], non-promoting. *)
Definition ncxcachelookup (xc : NCxcache) (hkey : Z) : Z * option addr :=
  match xfind xc hkey with
  | Some p => (NC_NOERR, Some p)
  | None => (NC_ENOTFOUND, None)
  end.

(** Modelled from the spec: [touch(hkey)] promotes to most recently used. *)
Definition ncxcachetouch (xc : NCxcache) (hkey : Z) : Z * NCxcache :=
  match xfind xc hkey with
  | Some p => (NC_NOERR, (hkey, p) :: xdrop xc hkey)
  | None => (NC_ENOTFOUND, xc)
  end.

(** The outcome of the next allocation, taken from the list of the coming
    outcomes ([false]: the allocation fails; when the list is exhausted every
    allocation succeeds). *)
Definition next_alloc (al : list bool) : bool * list bool :=
  match al with
  | [] => (true, [])
  | b :: rest => (b, rest)
  end.

(** Modelled from the spec: [insert(hkey, entry)] allocates a node of the
    container, inserts, and the new entry becomes the most recently used; a
    key has one slot.  When the node cannot be allocated the container is
    left as it is and the status is [NC_ENOMEM]. *)
Definition ncxcacheinsert (xc : NCxcache) (hkey : Z) (o : addr) (al : list bool)
    : Z * NCxcache * list bool :=
  let '(ok, al) := next_alloc al in
  if ok then (NC_NOERR, (hkey, o) :: xdrop xc hkey, al)
  else (NC_ENOMEM, xc, al).

(** Modelled from the spec: [remove(hkey) -> entry?] detaches the entry and
    hands it back. *)
Definition ncxcacheremove (xc : NCxcache) (hkey : Z) : Z * option addr * NCxcache :=
  match xfind xc hkey with
  | Some p => (NC_NOERR, Some p, xdrop xc hkey)
  | None => (NC_ENOTFOUND, None, xc)
  end.

(** Modelled from the spec: [peek_lru() -> entry?] reports the least recently
    used entry without removing it. *)
Definition ncxcachelast (xc : NCxcache) : option addr := snd <$> last xc.

(** Modelled from the spec: nclist.c is not part of the sources at hand.
    The recency list is the sequence of the entries' addresses; [nclistpush]
    appends at its end. *)
Definition nclistpush (l : list addr) (p : addr) : list addr := l ++ [p].

(** Modelled from the spec: nclist.c is not part of the sources at hand;
    [nclistremove] takes out the element at a position. *)
Definition nclistremove (l : list addr) (i : nat) : list addr := delete i l.

(** The scan [for(i=0;i<nclistlength(cache->mru);i++)] of [makeroom]: the
    first position that holds [ptr]. *)
Fixpoint mru_index (l : list addr) (ptr : addr) : option nat :=
  match l with
  | [] => None
  | q :: l' => if decide (q = ptr) then Some O else S <$> mru_index l' ptr
  end.

Record NCZChunkCache : Type := mkCache {
  var : NC_VAR_INFO_T;
  ndims : nat;
  chunksize : Z;
  dimension_separator : ascii;
  maxentries : Z;
  fillchunk : option (list byte);
  mru : list addr;
  xcache : NCxcache
}.

(** The object store the cache talks to ([zfile->map]): the status of a read
    and the bytes left in the caller's buffer, the status of a write and the
    store after it. *)
Class NCZMAP (M : Type) : Type := {
  nczmap_read : M → string → Z → Z → list byte → Z * list byte;
  nczmap_write : M → string → Z → Z → list byte → Z * M
}.

(** The state the cache functions run in: the cache structure, the heap of
    entry blocks, the object store, and the outcomes of the coming
    allocations, those of [calloc] and those of the container's nodes
    ([false]: the allocation fails; when the list is exhausted every
    allocation succeeds). *)
Record state (M : Type) : Type := mkState {
  cache : NCZChunkCache;
  heap : gmap addr NCZCacheEntry;
  zmap : M;
  allocs : list bool
}.
Arguments mkState {M}.
Arguments cache {M}.
Arguments heap {M}.
Arguments zmap {M}.
Arguments allocs {M}.

(** [#undef FILLONREAD] *)
Definition FILLONREAD : bool := false.

Definition zeroes (n : Z) : list byte := replicate (Z.to_nat n) Init.Byte.x00.

Section operations.
Context {M : Type} `{!NCZMAP M}.

(** [ncxcachekey]: the 64-bit digest of the index tuple; its definition is
    not part of the sources at hand. *)
Variable ncxcachekey : list Z → Z.

(** [NCZ_varkey]: the status and the object-store key of the variable; its
    definition is not part of the sources at hand. *)
Variable NCZ_varkey : NC_VAR_INFO_T → Z * string.

Definition set_cache (c : NCZChunkCache) (st : state M) : state M :=
  mkState c (heap st) (zmap st) (allocs st).
Definition set_heap (h : gmap addr NCZCacheEntry) (st : state M) : state M :=
  mkState (cache st) h (zmap st) (allocs st).
Definition set_zmap (m : M) (st : state M) : state M :=
  mkState (cache st) (heap st) m (allocs st).

Definition set_mru (l : list addr) (c : NCZChunkCache) : NCZChunkCache :=
  mkCache (var c) (ndims c) (chunksize c) (dimension_separator c)
          (maxentries c) (fillchunk c) l (xcache c).
Definition set_xcache (xc : NCxcache) (c : NCZChunkCache) : NCZChunkCache :=
  mkCache (var c) (ndims c) (chunksize c) (dimension_separator c)
          (maxentries c) (fillchunk c) (mru c) xc.
Definition set_maxentries (n : Z) (c : NCZChunkCache) : NCZChunkCache :=
  mkCache (var c) (ndims c) (chunksize c) (dimension_separator c)
          n (fillchunk c) (mru c) (xcache c).

Definition set_modified (b : bool) (e : NCZCacheEntry) : NCZCacheEntry :=
  mkEntry b (indices e) (key e) (hashkey e) (data e).
Definition set_data (d : option (list byte)) (e : NCZCacheEntry) : NCZCacheEntry :=
  mkEntry (modified e) (indices e) (key e) (hashkey e) d.

(** [calloc]: whether the call succeeds. *)
Definition calloc (st : state M) : bool * state M :=
  match allocs st with
  | [] => (true, st)
  | b :: rest => (b, mkState (cache st) (heap st) (zmap st) rest)
  end.

(** The release sequence
    [nullfree(e->data); nullfree(e->key.varkey); nullfree(e->key.chunkkey); nullfree(e)]. *)
Definition release (p : addr) (st : state M) : state M :=
  set_heap (delete p (heap st)) st.

(** Modelled from the spec: [NCZ_chunkpath] is not part of the sources at
    hand; a chunk is stored at [<varkey><sep><chunkkey>]. *)
Definition NCZ_chunkpath (k : ChunkKey) (dimsep : ascii) : string :=
  (default "" (varkey k) +:+ String dimsep (default "" (chunkkey k)))%string.

(** [put_chunk]: the entry is handed over by value, as the source reads it
    through a pointer to const. *)
Definition put_chunk (st : state M) (entry : NCZCacheEntry) : outcome (Z * state M) :=
  let path := NCZ_chunkpath (key entry) (dimension_separator (cache st)) in
  match data entry with
  | None => Abort
  | Some d =>
      let '(stat, m) := nczmap_write (zmap st) path 0 (chunksize (cache st)) d in
      Done (stat, set_zmap m st)
  end.

(** [get_chunk]: reads into the buffer of the entry at [p]. *)
Definition get_chunk (st : state M) (p : addr) : outcome (Z * state M) :=
  match heap st !! p with
  | None => Abort
  | Some entry =>
      match data entry with
      | None => Abort
      | Some d =>
          let path := NCZ_chunkpath (key entry) (dimension_separator (cache st)) in
          let '(stat, d') := nczmap_read (zmap st) path 0 (chunksize (cache st)) d in
          Done (stat, set_heap (<[p := set_data (Some d') entry]> (heap st)) st)
      end
  end.

(** [NCZ_buildchunkpath]: the status and the key structure after the call. *)
Definition NCZ_buildchunkpath (c : NCZChunkCache) (chunkindices : list Z)
    (k : ChunkKey) : outcome (Z * ChunkKey) :=
  '(stat, chunkname) ← NCZ_buildchunkkey (ndims c) chunkindices (dimension_separator c);
  if negb (stat =? NC_NOERR) then Done (stat, k)
  else
    let '(stat, vk) := NCZ_varkey (var c) in
    if negb (stat =? NC_NOERR) then Done (stat, k)
    else Done (stat, mkChunkKey (Some vk) (Some chunkname)).

(** One iteration of the loop of [makeroom].  The boolean tells whether the
    iteration left through [goto done]. *)
Definition makeroom_body (st : state M) : outcome (Z * state M * bool) :=
  let c := cache st in
  match ncxcachelast (xcache c) with
  | None => Abort
  | Some e =>
      match heap st !! e with
      | None => Abort
      | Some ee =>
          let '(stat, ptr, xc) := ncxcacheremove (xcache c) (hashkey ee) in
          if negb (stat =? NC_NOERR) then Done (stat, st, true)
          else if negb (bool_decide (ptr = Some e)) then Abort
          else
            match mru_index (mru c) e with
            | None => Abort
            | Some i =>
                let st1 := set_cache (set_mru (nclistremove (mru c) i) (set_xcache xc c)) st in
                '(stat, st2) ← (if modified ee then put_chunk st1 ee
                                else Done (stat, st1));
                Done (stat, release e st2, false)
            end
      end
  end.

(** The loop of [makeroom]; [stat] is the value of the local variable when
    the condition is tested. *)
Fixpoint makeroom_loop (fuel : nat) (stat : Z) (st : state M) : outcome (Z * state M) :=
  if Z.of_nat (length (mru (cache st))) >? maxentries (cache st) then
    match fuel with
    | O => OutOfFuel
    | S fuel' =>
        '(stat', st', leave) ← makeroom_body st;
        if leave : bool then Done (stat', st') else makeroom_loop fuel' stat' st'
    end
  else Done (stat, st).

Definition makeroom (st : state M) : outcome (Z * state M) :=
  makeroom_loop (length (mru (cache st))) NC_NOERR st.

(** The block [done:] shared by the read and the write: a pending [entry]
    is released, and a created chunk turns a success into [NC_EEMPTY]. *)
Definition finish (st : state M) (entry : option addr) (created : bool) (stat : Z)
    (datap : option addr) : outcome (Z * option addr * state M) :=
  let stat := if created && (stat =? NC_NOERR) then NC_EEMPTY else stat in
  Done (stat, datap, from_option (λ p, release p st) st entry).

(** The allocation sequence that the read (lines 264-272) and the write
    (lines 320-327) both contain: the status, the entry pointer as it stands
    when the sequence ends, and the state. *)
Definition new_entry (st : state M) (chunkindices : list Z) (hkey : Z)
    : outcome (Z * option addr * state M) :=
  let c := cache st in
  let '(ok, st) := calloc st in
  if negb ok then Done (NC_ENOMEM, None, st)
  else
    let p := fresh (dom (heap st)) in
    let e := mkEntry false (take (ndims c) chunkindices) (mkChunkKey None None) 0 None in
    let st := set_heap (<[p := e]> (heap st)) st in
    let '(ok, st) := calloc st in
    if negb ok then Done (NC_ENOMEM, Some p, st)
    else
      let e := set_data (Some (zeroes (chunksize c))) e in
      let st := set_heap (<[p := e]> (heap st)) st in
      '(stat, k) ← NCZ_buildchunkpath c chunkindices (key e);
      let e := mkEntry (modified e) (indices e) k (hashkey e) (data e) in
      let st := set_heap (<[p := e]> (heap st)) st in
      if negb (stat =? NC_NOERR) then Done (stat, Some p, st)
      else
        let e := mkEntry (modified e) (indices e) (key e) hkey (data e) in
        Done (NC_NOERR, Some p, set_heap (<[p := e]> (heap st)) st).

(** The case [NC_EEMPTY] of the read: the entry at [p] is marked and its
    buffer filled. *)
Definition fabricate (st : state M) (p : addr) : outcome (state M) :=
  match heap st !! p with
  | None => Abort
  | Some e =>
      let e := set_modified (negb (no_write (var (cache st)))) e in
      if FILLONREAD then
        match fillchunk (cache st) with
        | None => Abort
        | Some f =>
            if (Z.of_nat (length f) <? chunksize (cache st)) then Abort
            else
              let d := take (Z.to_nat (chunksize (cache st))) f in
              Done (set_heap (<[p := set_data (Some d) e]> (heap st)) st)
        end
      else Done (set_heap (<[p := set_data (Some (zeroes (chunksize (cache st)))) e]> (heap st)) st)
  end.

(** [NCZ_read_cache_chunk]: the status, the pointer stored through [datap]
    (the buffer of an entry is named by the address of the entry; [None]
    when nothing is stored), and the state.  The function reads
    [cache->ndims] elements of [indices]; an array with fewer is read out of
    bounds. *)
Definition NCZ_read_cache_chunk (st : state M) (chunkindices : list Z)
    : outcome (Z * option addr * state M) :=
  let c := cache st in
  if (length chunkindices <? ndims c)%nat then Abort else
  let hkey := ncxcachekey (take (ndims c) chunkindices) in
  let '(stat, entry) := ncxcachelookup (xcache c) hkey in
  if stat =? NC_NOERR then
    let '(_, xc) := ncxcachetouch (xcache c) hkey in
    let st := set_cache (set_xcache xc c) st in
    match entry with
    | None => Abort
    | Some p =>
        match heap st !! p with
        | None => Abort
        | Some e => finish st None false stat (if data e is Some _ then Some p else None)
        end
    end
  else if stat =? NC_ENOTFOUND then
    '(stat, st) ← makeroom st;
    if negb (stat =? NC_NOERR) then finish st None false stat None
    else
      '(stat, entry, st) ← new_entry st chunkindices hkey;
      if negb (stat =? NC_NOERR) then finish st entry false stat None
      else
        match entry with
        | None => Abort
        | Some p =>
            '(stat, st) ← get_chunk st p;
            '(go_on, created, st) ←
              (if stat =? NC_NOERR then Done (true, false, st)
               else if stat =? NC_EEMPTY then
                 st ← fabricate st p; Done (true, true, st)
               else Done (false, false, st));
            if negb go_on then finish st entry created stat None
            else
              let st := set_cache (set_mru (nclistpush (mru (cache st)) p) (cache st)) st in
              let '(stat, xc, al) := ncxcacheinsert (xcache (cache st)) hkey p (allocs st) in
              let st := mkState (set_xcache xc (cache st)) (heap st) (zmap st) al in
              if negb (stat =? NC_NOERR) then finish st entry created stat None
              else
                match heap st !! p with
                | None => Abort
                | Some e => finish st None created stat (if data e is Some _ then Some p else None)
                end
        end
  else finish st None false stat None.

(** [NCZ_write_cache_chunk]: the local [entry] is NULL when it is tested,
    and nothing is ever stored through [datap]. *)
Definition NCZ_write_cache_chunk (st : state M) (chunkindices : list Z)
    : outcome (Z * option addr * state M) :=
  let c := cache st in
  if (length chunkindices <? ndims c)%nat then Abort else
  let hkey := ncxcachekey (take (ndims c) chunkindices) in
  '(stat, st) ← makeroom st;
  if negb (stat =? NC_NOERR) then finish st None false stat None
  else
    '(stat, entry, st) ← new_entry st chunkindices hkey;
    if negb (stat =? NC_NOERR) then finish st entry false stat None
    else
      match entry with
      | None => Abort
      | Some p =>
          match heap st !! p with
          | None => Abort
          | Some e =>
              let st := set_heap (<[p := set_modified true e]> (heap st)) st in
              let st := set_cache (set_mru (nclistpush (mru (cache st)) p) (cache st)) st in
              finish st None false stat None
          end
      end.

(** The loop of [NCZ_flush_chunk_cache] over the positions of the recency
    list, which the loop does not change. *)
Fixpoint flush_loop (l : list addr) (st : state M) : outcome (Z * state M) :=
  match l with
  | [] => Done (NC_NOERR, st)
  | p :: l' =>
      match heap st !! p with
      | None => Abort
      | Some entry =>
          '(stat, st) ← (if modified entry then put_chunk st entry
                          else Done (NC_NOERR, st));
          if negb (stat =? NC_NOERR) then Done (stat, st)
          else
            flush_loop l' (set_heap (<[p := set_modified false entry]> (heap st)) st)
      end
  end.

Definition NCZ_cache_size (c : NCZChunkCache) : Z := Z.of_nat (length (mru c)).

Definition NCZ_flush_chunk_cache (st : state M) : outcome (Z * state M) :=
  if NCZ_cache_size (cache st) =? 0 then Done (NC_NOERR, st)
  else flush_loop (mru (cache st)) st.

(** Modelled from the spec: the macro [floordiv] is declared in a header
    that is not part of the sources at hand; it is the floor of the quotient
    of its two unsigned arguments. *)
Definition floordiv (x y : Z) : Z := x / y.

(** [NCZ_adjust_var_cache]; the variable is the one the cache refers to.
    The result of [makeroom] is not looked at; a chunk size of zero makes
    the division undefined. *)
Definition NCZ_adjust_var_cache (st : state M) : outcome (Z * state M) :=
  let v := var (cache st) in
  let st := set_cache (set_maxentries 0 (cache st)) st in
  '(_, st) ← makeroom st;
  let cachesize := chunk_cache_size v in
  if zvar_chunksize v =? 0 then Abort
  else
    let nelems := floordiv cachesize (zvar_chunksize v) in
    let nelems := if nelems =? 0 then 1 else nelems in
    let c := cache st in
    let c := mkCache (var c) (ndims c) (zvar_chunksize v) (dimension_separator c)
                     nelems None (mru c) (xcache c) in
    Done (NC_NOERR, set_cache c st).

(** What the caller does with a buffer handed out by the cache: the bytes
    [buf] are stored into the buffer of the entry at [p]. *)
Definition fill_buffer (p : addr) (buf : list byte) (st : state M) : outcome (state M) :=
  match heap st !! p with
  | None => Abort
  | Some e => Done (set_heap (<[p := set_data (Some buf) e]> (heap st)) st)
  end.

(** *** Sequences of public operations *)

Inductive op : Type :=
| OpRead (chunkindices : list Z)
| OpFlush.

(** Runs the operations one after the other; the values they return are
    dropped, the state is handed on whatever the status. *)
Fixpoint run_ops (ops : list op) (st : state M) : outcome (state M) :=
  match ops with
  | [] => Done st
  | OpRead chunkindices :: ops' =>
      '(_, _, st') ← NCZ_read_cache_chunk st chunkindices; run_ops ops' st'
  | OpFlush :: ops' =>
      '(_, st') ← NCZ_flush_chunk_cache st; run_ops ops' st'
  end.

(** *** Predicates used to state the properties *)

(** The hash container and the recency list hold the same entries, each
    once, every one of them a live block that carries the hash key it is
    filed under and a buffer. *)
Definition consistent (st : state M) : Prop :=
  NoDup (xcache (cache st)).*1 ∧
  NoDup (xcache (cache st)).*2 ∧
  mru (cache st) ≡ₚ (xcache (cache st)).*2 ∧
  (∀ k p, (k, p) ∈ xcache (cache st) →
     ∃ e, heap st !! p = Some e ∧ hashkey e = k ∧ is_Some (data e)) ∧
  0 ≤ maxentries (cache st).

(** The ways a read that missed can fail once [makeroom] has returned and
    before the entry is pushed on the recency list, with the status each one
    yields: no block for the entry, no block for its buffer, no key for the
    variable, or a store that answers the fetch with anything but success or
    absence.  [st1] is the state [makeroom] left. *)
Inductive miss_failure (st1 : state M) (chunkindices : list Z) : Z → Prop :=
| fail_entry_alloc rest :
    allocs st1 = false :: rest →
    miss_failure st1 chunkindices NC_ENOMEM
| fail_data_alloc rest :
    allocs st1 = true :: false :: rest →
    miss_failure st1 chunkindices NC_ENOMEM
| fail_key ck stat vk :
    Forall (λ b, b = true) (take 2 (allocs st1)) →
    NCZ_buildchunkkey (ndims (cache st1)) chunkindices
      (dimension_separator (cache st1)) = Done (NC_NOERR, ck) →
    NCZ_varkey (var (cache st1)) = (stat, vk) →
    stat ≠ NC_NOERR →
    miss_failure st1 chunkindices stat
| fail_fetch ck vk stat buf :
    Forall (λ b, b = true) (take 2 (allocs st1)) →
    NCZ_buildchunkkey (ndims (cache st1)) chunkindices
      (dimension_separator (cache st1)) = Done (NC_NOERR, ck) →
    NCZ_varkey (var (cache st1)) = (NC_NOERR, vk) →
    nczmap_read (zmap st1)
      (NCZ_chunkpath (mkChunkKey (Some vk) (Some ck)) (dimension_separator (cache st1)))
      0 (chunksize (cache st1)) (zeroes (chunksize (cache st1))) = (stat, buf) →
    stat ≠ NC_NOERR → stat ≠ NC_EEMPTY →
    miss_failure st1 chunkindices stat.

(** The store after the modified entries among [es] have been written in
    order, each write succeeding; [None] when one of them is refused. *)
Fixpoint writes_applied (c : NCZChunkCache) (es : list NCZCacheEntry) (m : M) : option M :=
  match es with
  | [] => Some m
  | e :: es' =>
      if modified e then
        match data e with
        | None => None
        | Some d =>
            let '(stat, m') :=
              nczmap_write m (NCZ_chunkpath (key e) (dimension_separator c)) 0 (chunksize c) d in
            if stat =? NC_NOERR then writes_applied c es' m' else None
        end
      else writes_applied c es' m
  end.

(** The settings of a cache, which neither [makeroom] nor the flush
    changes. *)
Definition settings (c : NCZChunkCache) :=
  (var c, ndims c, chunksize c, dimension_separator c, maxentries c, fillchunk c).

(** An operation whose index tuple has the rank of the cache. *)
Definition valid_op (c : NCZChunkCache) (o : op) : Prop :=
  match o with
  | OpRead chunkindices => length chunkindices = ndims c
  | OpFlush => True
  end.

(** The status and the store after the entries [es] have been evicted in
    order: a modified entry is handed to the store, and the status is that of
    the eviction that came last. *)
Definition evictions (c : NCZChunkCache) (es : list NCZCacheEntry) (sm : Z * M) : Z * M :=
  fold_left
    (λ sm e,
       if modified e then
         nczmap_write sm.2 (NCZ_chunkpath (key e) (dimension_separator c)) 0
           (chunksize c) (default [] (data e))
       else (NC_NOERR, sm.2))
    es sm.

End operations.

End Cache.

(** ** A small object store for the examples *)

Module Scenario.
Import Cache.

(** Generic I/O error (netcdf.h). *)
Definition NC_EIO : Z := -68.

(** Objects by path, and the paths on which a read or a write is refused. *)
Record memstore : Type := mkStore {
  objects : list (string * list byte);
  read_refused : list string;
  write_refused : list string
}.

Fixpoint find_object (os : list (string * list byte)) (path : string) : option (list byte) :=
  match os with
  | [] => None
  | (k, d) :: os' => if String.eqb k path then Some d else find_object os' path
  end.

#[global] Instance memstore_map : NCZMAP memstore := {
  nczmap_read m path start count buf :=
    if bool_decide (path ∈ read_refused m) then (NC_EIO, buf)
    else match find_object (objects m) path with
         | Some d => (NC_NOERR, d)
         | None => (NC_EEMPTY, buf)
         end;
  nczmap_write m path start count buf :=
    if bool_decide (path ∈ write_refused m) then (NC_EIO, m)
    else (NC_NOERR, mkStore ((path, buf) :: objects m) (read_refused m) (write_refused m))
}.

Definition hash (chunkindices : list Z) : Z :=
  fold_left (λ h x, (h * 31 + x) mod 2 ^ 64) chunkindices 7.

Definition varkey_of (v : NC_VAR_INFO_T) : Z * string :=
  (NC_NOERR, ("/" +:+ var_name v)%string).

Definition no_varkey (v : NC_VAR_INFO_T) : Z * string := (NC_ENOMEM, ""%string).

Definition the_var (budget chunk : Z) (ro : bool) : NC_VAR_INFO_T :=
  mkVar "v" budget chunk ro.

(** An empty cache of rank one for chunks of two bytes. *)
Definition empty_cache (v : NC_VAR_INFO_T) (capacity : Z) (fill : option (list byte))
    : NCZChunkCache :=
  mkCache v 1 2 "." capacity fill [] [].

Definition empty_store : memstore := mkStore [] [] [].

Definition start (v : NC_VAR_INFO_T) (capacity : Z) (fill : option (list byte))
    (m : memstore) (plan : list bool) : state memstore :=
  mkState (empty_cache v capacity fill) ∅ m plan.

Definition read := NCZ_read_cache_chunk (M:=memstore) hash varkey_of.
Definition write := NCZ_write_cache_chunk (M:=memstore) hash varkey_of.
Definition flush := NCZ_flush_chunk_cache (M:=memstore).
Definition adjust := NCZ_adjust_var_cache (M:=memstore).

(** The cache after the reads of chunk [0], which the store lacks, and of
    chunk [1], which it has, when the store refuses to write chunk [0]. *)
Definition refusing_store : memstore :=
  mkStore [("/v.1"%string, [Init.Byte.x01; Init.Byte.x02])] [] ["/v.0"%string].

Definition two_entries : state memstore :=
  Eval vm_compute in
    match run_ops hash varkey_of [OpRead [0]; OpRead [1]]
            (start (the_var 1 2 false) 2 None refusing_store []) with
    | Done st => st
    | _ => start (the_var 1 2 false) 2 None refusing_store []
    end.

(** The cache after the reads of chunks [0] and [1], both absent from a
    store that refuses to write chunk [1]. *)
Definition two_modified : state memstore :=
  Eval vm_compute in
    match run_ops hash varkey_of [OpRead [0]; OpRead [1]]
            (start (the_var 4 2 false) 2 None (mkStore [] [] ["/v.1"%string]) []) with
    | Done st => st
    | _ => start (the_var 4 2 false) 2 None empty_store []
    end.

(** A cache of capacity one that holds two entries, and the same cache once
    [makeroom] has evicted the older one. *)
Definition full_cache : state memstore :=
  Eval vm_compute in
    match run_ops hash varkey_of [OpRead [0]; OpRead [1]]
            (start (the_var 2 2 false) 1 None empty_store []) with
    | Done st => st
    | _ => start (the_var 2 2 false) 1 None empty_store []
    end.

Definition full_cache_room : state memstore :=
  Eval vm_compute in
    match makeroom full_cache with
    | Done (_, st) => st
    | _ => full_cache
    end.

(** The read when the key of the variable cannot be had. *)
Definition read_unkeyed := NCZ_read_cache_chunk (M:=memstore) hash no_varkey.

End Scenario.

(** ** Construction and destruction of the cache *)

Module Lifecycle.
Import Codec Cache.

(** The loop [while(nclistlength(cache->mru) > 0)] of
    [NCZ_free_chunk_cache]: the entry at the head of the list is taken off,
    removed from the hash container under its hash key, and released.  The
    status of [ncxcacheremove] is not looked at; when the key is not found
    [ptr] is never assigned and [assert(ptr == entry)] reads an
    indeterminate value. *)
Fixpoint free_loop (l : list addr) (xc : NCxcache) (h : gmap addr NCZCacheEntry)
    : outcome (NCxcache * gmap addr NCZCacheEntry) :=
  match l with
  | [] => Done (xc, h)
  | entry :: l' =>
      match h !! entry with
      | None => Abort
      | Some e =>
          let '(_, ptr, xc') := ncxcacheremove xc (hashkey e) in
          if bool_decide (ptr = Some entry) then free_loop l' xc' (delete entry h)
          else Abort
      end
  end.

(** [NCZ_free_chunk_cache]: [None] is the NULL cache.  The function returns
    nothing; what is left is the heap of entry blocks (the container, the
    list, the fill chunk and the cache block itself are released at the
    end). *)
Definition NCZ_free_chunk_cache (cache : option NCZChunkCache)
    (h : gmap addr NCZCacheEntry) : outcome (gmap addr NCZCacheEntry) :=
  match cache with
  | None => Done h
  | Some c => '(_, h') ← free_loop (mru c) (xcache c) h; Done h'
  end.

(** [NCZ_cache_entrysize] *)
Definition NCZ_cache_entrysize (c : NCZChunkCache) : Z := chunksize c.

(** Modelled from the spec: ncxcache.c is not part of the sources at hand;
    [ncxcachenew] allocates an empty container and reports [NC_ENOMEM] when
    it cannot. *)
Definition ncxcachenew (al : list bool) : Z * NCxcache * list bool :=
  let '(ok, al) := next_alloc al in
  ((if ok then NC_NOERR else NC_ENOMEM), [], al).

(** Modelled from the spec: nclist.c is not part of the sources at hand;
    [nclistnew] allocates an empty list and returns NULL when it cannot. *)
Definition nclistnew (al : list bool) : option (list addr) * list bool :=
  let '(ok, al) := next_alloc al in
  ((if ok then Some [] else None), al).

(** Modelled from the spec: nclist.c is not part of the sources at hand;
    [nclistsetalloc] reserves room and changes no element; the source does
    not look at its result. *)
Definition nclistsetalloc (l : list addr) (al : list bool) : list addr * list bool :=
  (l, (next_alloc al).2).

(** [NCZ_create_chunk_cache].  [var_ndims] and [scalar] are [var->ndims] and
    [zvar->scalar]; [want] tells whether [cachep] is not NULL.  The result
    is the status, the cache stored through [cachep], the heap and the
    allocation outcomes left. *)
Definition NCZ_create_chunk_cache (v : NC_VAR_INFO_T) (var_ndims scalar : nat)
    (chunksize : Z) (dimsep : ascii) (want : bool)
    (h : gmap addr NCZCacheEntry) (al : list bool)
    : outcome (Z * option NCZChunkCache * gmap addr NCZCacheEntry * list bool) :=
  if chunksize =? 0 then Done (NC_EINVAL, None, h, al)
  else
    let '(ok, al) := next_alloc al in
    if negb ok then
      (* done: with cache == NULL *)
      h' ← NCZ_free_chunk_cache None h; Done (NC_ENOMEM, None, h', al)
    else
      let cachesize := chunk_cache_size v in
      let nelems := cachesize / chunksize in
      let nelems := if nelems =? 0 then 1 else nelems in
      let c := mkCache v (var_ndims + scalar) chunksize dimsep nelems None [] [] in
      let '(stat, xc, al) := ncxcachenew al in
      if negb (stat =? NC_NOERR) then
        h' ← NCZ_free_chunk_cache (Some c) h; Done (stat, None, h', al)
      else
        let c := set_xcache xc c in
        let '(l, al) := nclistnew al in
        match l with
        | None => h' ← NCZ_free_chunk_cache (Some c) h; Done (NC_ENOMEM, None, h', al)
        | Some l =>
            let '(l, al) := nclistsetalloc l al in
            let c := set_mru l c in
            if want then
              h' ← NCZ_free_chunk_cache None h; Done (NC_NOERR, Some c, h', al)
            else
              h' ← NCZ_free_chunk_cache (Some c) h; Done (NC_NOERR, None, h', al)
        end.

Section predicates.
Context {M : Type} `{!NCZMAP M}.
Variable ncxcachekey : list Z → Z.

(** Every entry on the recency list carries as many indices as the cache has
    dimensions, and is filed under the digest of its indices. *)
Definition keyed (st : state M) : Prop :=
  ∀ p e, p ∈ mru (cache st) → heap st !! p = Some e →
    length (indices e) = ndims (cache st) ∧
    hashkey e = ncxcachekey (indices e).

(** A store that hands back, on a read of [n] bytes at a path, the bytes its
    last successful write of [n] bytes put there. *)
Definition store_keeps (m : M) : Prop :=
  ∀ path n d m' buf,
    nczmap_write m path 0 n d = (NC_NOERR, m') →
    nczmap_read m' path 0 n buf = (NC_NOERR, d).

(** No entry on the recency list is modified. *)
Definition all_clean (st : state M) : Prop :=
  ∀ p e, p ∈ mru (cache st) → heap st !! p = Some e → modified e = false.

End predicates.

End Lifecycle.

(** ** More states of the example store *)

Module Runs.
Import Codec Cache Scenario Lifecycle.

(** The state of an outcome, or [d] when there is none. *)
Definition state_of {A : Type} (f : A → state memstore) (d : state memstore)
    (o : outcome A) : state memstore :=
  match o with
  | Done a => f a
  | _ => d
  end.

(** An empty cache of capacity two over the empty store. *)
Definition fresh_state : state memstore :=
  start (the_var 4 2 false) 2 None empty_store [].

Definition some_bytes : list byte := [Init.Byte.x11; Init.Byte.x22].

(** After the read of chunk [0], and after the caller has filled the buffer
    that read returned. *)
Definition after_read : state memstore :=
  Eval vm_compute in state_of (λ r, r.2) fresh_state (read fresh_state [0]).

Definition after_fill : state memstore :=
  Eval vm_compute in state_of id after_read (fill_buffer 1%positive some_bytes after_read).

(** After the write of chunk [0]. *)
Definition after_write : state memstore :=
  Eval vm_compute in state_of (λ r, r.2) fresh_state (write fresh_state [0]).

(** After the reads of chunks [0] and [1], both absent from the store; the
    same cache once flushed; and the cache once the entry of chunk [0] has
    been handed to the store. *)
Definition two_dirty : state memstore :=
  Eval vm_compute in
    state_of id fresh_state (run_ops hash varkey_of [OpRead [0]; OpRead [1]] fresh_state).

Definition two_dirty_flushed : state memstore :=
  Eval vm_compute in state_of (λ r, r.2) two_dirty (flush two_dirty).

Definition first_entry : NCZCacheEntry :=
  Eval vm_compute in
    default (mkEntry false [] (mkChunkKey None None) 0 None) (heap two_dirty !! 1%positive).

Definition two_dirty_put : state memstore :=
  Eval vm_compute in
    state_of (λ r, r.2) two_dirty (put_chunk (M:=memstore) two_dirty first_entry).

(** [two_entries] after one more read of chunk [0], [two_entries] after
    [NCZ_adjust_var_cache], and [full_cache] after the read of chunk [2]. *)
Definition two_entries_reread : state memstore :=
  Eval vm_compute in state_of (λ r, r.2) two_entries (read two_entries [0]).

Definition two_entries_adjusted : state memstore :=
  Eval vm_compute in state_of (λ r, r.2) two_entries (adjust two_entries).

Definition full_cache_read : state memstore :=
  Eval vm_compute in state_of (λ r, r.2) full_cache (read full_cache [2]).

(** An empty cache of rank two, and the same cache after the read of chunk
    [(0, 31)], whose digest is that of chunk [(1, 0)]. *)
Definition rank_two : state memstore :=
  mkState (mkCache (the_var 4 2 false) 2 2 "." 2 None [] []) ∅ empty_store [].

Definition rank_two_read : state memstore :=
  Eval vm_compute in state_of (λ r, r.2) rank_two (read rank_two [0; 31]).


End Runs.
(** * Facts about the chunk-key codec *)

Section codec_facts.
Import Codec.

(** The example of the Zarr specification quoted in the source. *)
Example key_2_4 :
  Codec.NCZ_buildchunkkey 2 [2; 4] "." = Done (NC_NOERR, "2.4"%string).
Proof. reflexivity. Qed.

Example key_single : NCZ_buildchunkkey 1 [0] "/" = Done (NC_NOERR, "0"%string).
Proof. reflexivity. Qed.

Example key_rank_zero : NCZ_buildchunkkey 0 [] "." = Done (NC_NOERR, ""%string).
Proof. reflexivity. Qed.

Example key_wide_index :
  NCZ_buildchunkkey 2 [18446744073709551615; 10] "." =
    Done (NC_NOERR, "18446744073709551615.10"%string).
Proof. reflexivity. Qed.

(** *** Facts about the digit loop *)

Lemma digit_char_code d :
  0 ≤ d ≤ 9 → nat_of_ascii (digit_char d) = (48 + Z.to_nat d)%nat.
Proof.
  intros Hd. unfold digit_char. apply nat_ascii_embedding. lia.
Qed.

Lemma digit_char_is_digit d : 0 ≤ d ≤ 9 → is_digit (digit_char d) = true.
Proof.
  intros Hd. unfold is_digit. rewrite digit_char_code by done.
  apply andb_true_intro. split; apply Nat.leb_le; lia.
Qed.

Lemma digit_char_value d : 0 ≤ d ≤ 9 → digit_value (digit_char d) = d.
Proof.
  intros Hd. unfold digit_value. rewrite digit_char_code by done. lia.
Qed.

Lemma decimal_value_snoc s c :
  decimal_value (s ++ [c]) = 10 * decimal_value s + digit_value c.
Proof. unfold decimal_value. by rewrite fold_left_app. Qed.

Lemma utoa_positive fuel : ∀ n acc,
  0 < n < 10 ^ Z.of_nat fuel →
  ∃ s, utoa fuel n acc = s ++ acc ∧ forallb is_digit s = true ∧ s ≠ [] ∧
       decimal_value s = n ∧ head s ≠ Some "0"%char.
Proof.
  induction fuel as [|fuel IH]; intros n acc Hn.
  { simpl in Hn. lia. }
  assert (Hr : 0 ≤ n `mod` 10 ≤ 9) by (pose proof (Z.mod_pos_bound n 10); lia).
  assert (Hq : n = 10 * (n / 10) + n `mod` 10) by (apply Z.div_mod; lia).
  cbn [utoa]. destruct (Z.eqb_spec (n / 10) 0) as [Hz | Hnz].
  - exists [digit_char (n `mod` 10)]. repeat split.
    + cbn. by rewrite digit_char_is_digit.
    + done.
    + unfold decimal_value. cbn. rewrite digit_char_value by done. lia.
    + cbn. intros [= Heq].
      assert (Hv : digit_value (digit_char (n `mod` 10)) = digit_value "0"%char)
        by (by rewrite Heq).
      rewrite digit_char_value in Hv by done.
      change (digit_value "0"%char) with 0 in Hv. lia.
  - assert (Hqpos : 0 < n / 10) by (pose proof (Z.div_pos n 10); lia).
    assert (Hqlt : n / 10 < 10 ^ Z.of_nat fuel).
    { apply Z.div_lt_upper_bound; [lia|].
      replace (Z.of_nat (S fuel)) with (Z.succ (Z.of_nat fuel)) in Hn by lia.
      rewrite Z.pow_succ_r in Hn by lia. lia. }
    destruct (IH (n / 10) (digit_char (n `mod` 10) :: acc)) as
      (s & Hs & Hdig & Hne & Hval & Hhd); [lia|].
    exists (s ++ [digit_char (n `mod` 10)]). repeat split.
    + by rewrite Hs, <- app_assoc.
    + rewrite forallb_app, Hdig. cbn. by rewrite digit_char_is_digit.
    + by destruct s.
    + rewrite decimal_value_snoc, Hval, digit_char_value by done. lia.
    + destruct s; [done|]. exact Hhd.
Qed.

Lemma snprintf_lu_numeral x : is_size64 x → decimal_numeral x (snprintf_lu x).
Proof.
  intros Hx. unfold is_size64 in Hx. unfold snprintf_lu, cast_ulong, ULONG_BITS.
  rewrite Z.mod_small by done.
  destruct (decide (x = 0)) as [-> | Hnz].
  { repeat split; done. }
  destruct (utoa_positive 20 x []) as (s & Hs & Hdig & Hne & Hval & Hhd).
  { change (10 ^ Z.of_nat 20) with 100000000000000000000.
    change (2 ^ 64) with 18446744073709551616 in Hx. lia. }
  rewrite Hs, app_nil_r. repeat split; try done.
Qed.

Lemma snprintf_lu_inj x y :
  is_size64 x → is_size64 y → snprintf_lu x = snprintf_lu y → x = y.
Proof.
  intros Hx Hy Heq.
  destruct (snprintf_lu_numeral x Hx) as (_ & _ & Hvx & _).
  destruct (snprintf_lu_numeral y Hy) as (_ & _ & Hvy & _).
  rewrite <- Hvx, <- Hvy. by rewrite Heq.
Qed.

Lemma buildchunkkey_loop_appended n : ∀ r idx sep key,
  (r + n ≤ length idx)%nat →
  buildchunkkey_loop n r idx sep key =
    Done (key ++ appended r (take n (drop r idx)) sep).
Proof.
  induction n as [|n IH]; intros r idx sep key Hlen.
  { cbn. by rewrite take_0, app_nil_r. }
  destruct (lookup_lt_is_Some_2 idx r) as [x Hx]; [lia|].
  cbn [buildchunkkey_loop]. rewrite Hx.
  rewrite IH by lia. rewrite (drop_S _ _ _ Hx). cbn [take appended].
  f_equal. destruct (0 <? r)%nat; by rewrite <- ?app_assoc.
Qed.

Lemma buildchunkkey_loop_in_bounds n : ∀ r idx sep key k,
  buildchunkkey_loop n r idx sep key = Done k →
  n = 0%nat ∨ (r + n ≤ length idx)%nat.
Proof.
  induction n as [|n IH]; intros r idx sep key k Hrun; [by left|].
  right. cbn in Hrun.
  destruct (idx !! r) as [x|] eqn:Hx; [|done].
  apply lookup_lt_Some in Hx.
  apply IH in Hrun as [-> | Hle]; lia.
Qed.

Lemma NCZ_buildchunkkey_in_bounds R idx sep r :
  NCZ_buildchunkkey R idx sep = Done r → (R ≤ length idx)%nat.
Proof.
  unfold NCZ_buildchunkkey. destruct (islegaldimsep sep); [|done].
  destruct (buildchunkkey_loop R 0 idx sep []) as [k| |] eqn:Hrun; [|done..].
  intros _. apply buildchunkkey_loop_in_bounds in Hrun as [-> | Hle]; lia.
Qed.

Lemma appended_succ r xs sep :
  appended (S r) xs sep = concat (map (λ x, sep :: snprintf_lu x) xs).
Proof.
  revert r. induction xs as [|x xs IH]; intros r; [done|].
  cbn. by rewrite IH.
Qed.

Lemma join_with_cons sep p rest :
  join_with sep (p :: rest) =
    p ++ concat (map (λ q, sep :: q) rest).
Proof.
  revert p. induction rest as [|q rest IH]; intros p.
  { cbn. by rewrite app_nil_r. }
  change (join_with sep (p :: q :: rest)) with (p ++ sep :: join_with sep (q :: rest)).
  rewrite IH. done.
Qed.

Lemma appended_join xs sep :
  appended 0 xs sep = join_with sep (map snprintf_lu xs).
Proof.
  destruct xs as [|x xs]; [done|].
  cbn [appended map]. rewrite join_with_cons, appended_succ.
  cbn. f_equal. by rewrite map_map.
Qed.

Lemma NCZ_buildchunkkey_join R idx sep :
  islegaldimsep sep = true → length idx = R →
  NCZ_buildchunkkey R idx sep =
    Done (NC_NOERR, string_of_list_ascii (join_with sep (map snprintf_lu idx))).
Proof.
  intros Hsep Hlen. unfold NCZ_buildchunkkey. rewrite Hsep.
  rewrite buildchunkkey_loop_appended by (cbn; lia).
  cbn. rewrite drop_0, <- Hlen, firstn_all, appended_join. done.
Qed.

(** *** Keys of distinct tuples differ *)

Lemma legal_sep_not_digit sep : islegaldimsep sep = true → is_digit sep = false.
Proof.
  unfold islegaldimsep. intros Hsep.
  apply orb_prop in Hsep as [Hs | Hs]; apply bool_decide_eq_true in Hs; by subst.
Qed.

(** Two digit strings, each followed by nothing or by something that starts
    with a character that is no digit, agree when the wholes agree. *)
Lemma digits_prefix_unique (p1 : list ascii) : ∀ p2 t1 t2,
  forallb is_digit p1 = true → forallb is_digit p2 = true →
  (∀ c, head t1 = Some c → is_digit c = false) →
  (∀ c, head t2 = Some c → is_digit c = false) →
  p1 ++ t1 = p2 ++ t2 → p1 = p2 ∧ t1 = t2.
Proof.
  induction p1 as [|c p1 IH]; intros p2 t1 t2 Hd1 Hd2 Ht1 Ht2 Heq.
  - destruct p2 as [|d p2]; [done|]. exfalso.
    cbn in Heq, Hd2. apply andb_prop in Hd2 as [Hd _].
    specialize (Ht1 d). rewrite Heq in Ht1. cbn in Ht1.
    rewrite Ht1 in Hd by done. done.
  - cbn in Hd1. apply andb_prop in Hd1 as [Hc Hd1].
    destruct p2 as [|d p2].
    + exfalso. cbn in Heq. specialize (Ht2 c). rewrite <- Heq in Ht2.
      cbn in Ht2. rewrite Ht2 in Hc by done. done.
    + cbn in Hd2. apply andb_prop in Hd2 as [_ Hd2].
      cbn in Heq. injection Heq as -> Heq.
      destruct (IH p2 t1 t2) as [-> ->]; done.
Qed.

Lemma join_with_inj sep : ∀ ps qs : list (list ascii),
  is_digit sep = false →
  Forall (λ p, forallb is_digit p = true) ps →
  Forall (λ q, forallb is_digit q = true) qs →
  length ps = length qs →
  join_with sep ps = join_with sep qs → ps = qs.
Proof.
  induction ps as [|p ps IH]; intros qs Hsep Hps Hqs Hlen Heq.
  { by destruct qs. }
  destruct qs as [|q qs]; [done|].
  apply Forall_cons in Hps as [Hp Hps]. apply Forall_cons in Hqs as [Hq Hqs].
  injection Hlen as Hlen.
  destruct ps as [|p' ps], qs as [|q' qs]; try done.
  { cbn in Heq. by subst. }
  change (p ++ sep :: join_with sep (p' :: ps) = q ++ sep :: join_with sep (q' :: qs)) in Heq.
  apply digits_prefix_unique in Heq as [-> Heq]; try done.
  - injection Heq as Heq. f_equal. by apply IH.
  - by intros c [= <-].
  - by intros c [= <-].
Qed.

(** C8: for a legal separator and a tuple of [R] indices, the key built by
    [NCZ_buildchunkkey] is the sequence of the base-ten numerals of the
    indices (digits only, no padding, no leading zero) joined by the
    separator, and it is the empty string when [R] is zero. *)
Theorem C8_buildchunkkey_format (R : nat) (idx : list Z) (sep : ascii) :
  islegaldimsep sep = true →
  length idx = R →
  Forall is_size64 idx →
  ∃ numerals : list (list ascii),
    Forall2 decimal_numeral idx numerals ∧
    NCZ_buildchunkkey R idx sep =
      Done (NC_NOERR, string_of_list_ascii (join_with sep numerals)) ∧
    (R = 0%nat → NCZ_buildchunkkey R idx sep = Done (NC_NOERR, ""%string)).
Proof.
  intros Hsep Hlen Hidx. exists (map snprintf_lu idx). split; [|split].
  - apply Forall2_fmap_r, Forall_Forall2_diag.
    eapply Forall_impl; [exact Hidx|]. apply snprintf_lu_numeral.
  - by apply NCZ_buildchunkkey_join.
  - intros ->. destruct idx; [|done].
    unfold NCZ_buildchunkkey. by rewrite Hsep.
Qed.

Lemma C8_buildchunkkey_format_witness :
  ∃ numerals : list (list ascii),
    Forall2 decimal_numeral [2; 4] numerals ∧
    NCZ_buildchunkkey 2 [2; 4] "." =
      Done (NC_NOERR, string_of_list_ascii (join_with "." numerals)) ∧
    (2%nat = 0%nat → NCZ_buildchunkkey 2 [2; 4] "." = Done (NC_NOERR, ""%string)).
Proof.
  apply (C8_buildchunkkey_format 2 [2; 4] ".").
  - reflexivity.
  - reflexivity.
  - repeat constructor; unfold is_size64; lia.
Defined.

(** C9: for a legal separator, two distinct tuples of the same rank get
    distinct keys. *)
Theorem C9_buildchunkkey_injective (R : nat) (sep : ascii) (a b : list Z) :
  islegaldimsep sep = true →
  length a = R → length b = R →
  Forall is_size64 a → Forall is_size64 b →
  a ≠ b →
  NCZ_buildchunkkey R a sep ≠ NCZ_buildchunkkey R b sep.
Proof.
  intros Hsep Hla Hlb Ha Hb Hne Heq. apply Hne. clear Hne.
  rewrite !NCZ_buildchunkkey_join in Heq by done.
  injection Heq as Heq.
  apply (f_equal list_ascii_of_string) in Heq.
  rewrite !list_ascii_of_string_of_list_ascii in Heq.
  apply join_with_inj in Heq.
  - clear Hsep. subst R. revert b Hlb Hb Heq.
    induction Ha as [|x a Hx Ha IH]; intros b Hlb Hb Heq.
    { by destruct b. }
    destruct b as [|y b]; [done|].
    apply Forall_cons in Hb as [Hy Hb].
    rewrite !map_cons in Heq. injection Heq as Hxy Heq. injection Hlb as Hlb.
    f_equal; [by apply snprintf_lu_inj | by apply IH].
  - by apply legal_sep_not_digit.
  - apply Forall_fmap. eapply Forall_impl; [exact Ha|].
    intros x Hx. by destruct (snprintf_lu_numeral x Hx).
  - apply Forall_fmap. eapply Forall_impl; [exact Hb|].
    intros x Hx. by destruct (snprintf_lu_numeral x Hx).
  - rewrite !length_map. congruence.
Qed.

Lemma C9_buildchunkkey_injective_witness :
  NCZ_buildchunkkey 2 [1; 23] "/" ≠ NCZ_buildchunkkey 2 [12; 3] "/".
Proof.
  apply (C9_buildchunkkey_injective 2 "/" [1; 23] [12; 3]).
  - reflexivity.
  - reflexivity.
  - reflexivity.
  - repeat constructor; unfold is_size64; lia.
  - repeat constructor; unfold is_size64; lia.
  - discriminate.
Defined.

(** *** When the key is built *)

Lemma buildchunkkey_loop_short n : ∀ r idx sep key,
  (length idx < r + n)%nat → (r ≤ length idx)%nat →
  buildchunkkey_loop n r idx sep key = Abort.
Proof.
  induction n as [|n IH]; intros r idx sep key Hshort Hr; [lia|].
  cbn. destruct (idx !! r) as [x|] eqn:Hx; [|done].
  apply lookup_lt_Some in Hx. apply IH; lia.
Qed.

Lemma buildchunkkey_loop_take n : ∀ r idx sep key,
  (r + n ≤ length idx)%nat →
  buildchunkkey_loop n r idx sep key = buildchunkkey_loop n r (take (r + n) idx) sep key.
Proof.
  induction n as [|n IH]; intros r idx sep key Hlen; [done|].
  cbn. rewrite lookup_take_lt by lia.
  destruct (idx !! r) as [x|]; [|done].
  rewrite IH by lia. by replace (S r + n)%nat with (r + S n)%nat by lia.
Qed.

(** X19: [NCZ_buildchunkkey] returns exactly when the separator is legal and
    the array holds at least [R] indices; it then returns [NC_NOERR], never
    an error status, and the key of the first [R] indices, whatever follows
    them.  With an illegal separator the assertion fails, and with fewer
    than [R] indices the array is read out of bounds. *)
Theorem X19_buildchunkkey_outcome (R : nat) (idx : list Z) (sep : ascii) :
  (islegaldimsep sep = true ∧ (R ≤ length idx)%nat →
   NCZ_buildchunkkey R idx sep =
     Done (NC_NOERR, string_of_list_ascii (join_with sep (map snprintf_lu (take R idx)))) ∧
   NCZ_buildchunkkey R idx sep = NCZ_buildchunkkey R (take R idx) sep) ∧
  (¬ (islegaldimsep sep = true ∧ (R ≤ length idx)%nat) →
   NCZ_buildchunkkey R idx sep = Abort).
Proof.
  split.
  - intros [Hsep Hlen].
    assert (Hkey : NCZ_buildchunkkey R idx sep = NCZ_buildchunkkey R (take R idx) sep).
    { unfold NCZ_buildchunkkey. rewrite Hsep.
      by rewrite (buildchunkkey_loop_take R 0 idx sep []) by (cbn; lia). }
    split; [|done]. rewrite Hkey. apply NCZ_buildchunkkey_join; [done|].
    rewrite length_take. lia.
  - intros Hno. unfold NCZ_buildchunkkey.
    destruct (islegaldimsep sep) eqn:Hsep; [|done].
    rewrite buildchunkkey_loop_short; [done| |lia].
    cbn. destruct (decide (R ≤ length idx)%nat); [|lia]. exfalso. by apply Hno.
Qed.

(** Equal keys come from equal tuples. *)
Lemma buildchunkkey_eq_inv (R : nat) (sep : ascii) (a b : list Z) :
  islegaldimsep sep = true →
  length a = R → length b = R →
  Forall is_size64 a → Forall is_size64 b →
  NCZ_buildchunkkey R a sep = NCZ_buildchunkkey R b sep → a = b.
Proof.
  intros Hsep Hla Hlb Ha Hb Heq.
  rewrite !NCZ_buildchunkkey_join in Heq by (done || lia).
  injection Heq as Heq.
  apply (f_equal list_ascii_of_string) in Heq.
  rewrite !list_ascii_of_string_of_list_ascii in Heq.
  apply join_with_inj in Heq.
  - apply (list_eq_same_length a b R); [done|done|].
    intros i x y Hi Hx Hy.
    apply snprintf_lu_inj.
    + by eapply (Forall_lookup_1 _ a).
    + by eapply (Forall_lookup_1 _ b).
    + apply (f_equal (λ l, l !! i)) in Heq.
      rewrite !list_lookup_fmap, Hx, Hy in Heq. by injection Heq.
  - by apply legal_sep_not_digit.
  - apply Forall_fmap. eapply Forall_impl; [exact Ha|].
    intros x Hx. by destruct (snprintf_lu_numeral x Hx).
  - apply Forall_fmap. eapply Forall_impl; [exact Hb|].
    intros x Hx. by destruct (snprintf_lu_numeral x Hx).
  - rewrite !length_map. congruence.
Qed.

End codec_facts.

(** * Facts about the chunk cache *)

Section cache_facts.
Import Codec Cache.
Context {M : Type} `{!NCZMAP M}.
Variable ncxcachekey : list Z → Z.
Variable NCZ_varkey : NC_VAR_INFO_T → Z * string.

Local Abbreviation read := (NCZ_read_cache_chunk ncxcachekey NCZ_varkey).
Local Abbreviation write := (NCZ_write_cache_chunk ncxcachekey NCZ_varkey).
Local Abbreviation new_entry := (new_entry NCZ_varkey).
Local Abbreviation run := (run_ops ncxcachekey NCZ_varkey).
Local Abbreviation miss_failure := (miss_failure NCZ_varkey).

Lemma eqb_status_ne (a b : Z) : a ≠ b → (a =? b) = false.
Proof. apply Z.eqb_neq. Qed.

(** *** The hash container *)

Lemma xfind_None_notin xc hkey : xfind xc hkey = None → hkey ∉ xc.*1.
Proof.
  induction xc as [|[k p] xc IH]; cbn; intros Hf.
  - apply not_elem_of_nil.
  - destruct (Z.eqb_spec k hkey) as [->|Hne]; [done|].
    apply not_elem_of_cons. split; [congruence | by apply IH].
Qed.

Lemma xfind_Some_in xc hkey p : xfind xc hkey = Some p → (hkey, p) ∈ xc.
Proof.
  induction xc as [|[k q] xc IH]; cbn; intros Hf; [done|].
  destruct (Z.eqb_spec k hkey) as [->|Hne].
  - injection Hf as ->. apply elem_of_cons. by left.
  - apply elem_of_cons. right. by apply IH.
Qed.

Lemma xdrop_notin xc hkey : hkey ∉ xc.*1 → xdrop xc hkey = xc.
Proof.
  induction xc as [|[k p] xc IH]; cbn; intros Hn; [done|].
  apply not_elem_of_cons in Hn as [Hne Hn].
  destruct (Z.eqb_spec k hkey) as [->|_]; [done|]. by rewrite IH.
Qed.

Lemma xfind_snoc xc k p : k ∉ xc.*1 → xfind (xc ++ [(k, p)]) k = Some p.
Proof.
  induction xc as [|[k' q] xc IH]; cbn; intros Hn.
  - by rewrite Z.eqb_refl.
  - apply not_elem_of_cons in Hn as [Hne Hn].
    destruct (Z.eqb_spec k' k) as [->|_]; [done|]. by apply IH.
Qed.

Lemma xdrop_snoc xc k p : k ∉ xc.*1 → xdrop (xc ++ [(k, p)]) k = xc.
Proof.
  induction xc as [|[k' q] xc IH]; cbn; intros Hn.
  - by rewrite Z.eqb_refl.
  - apply not_elem_of_cons in Hn as [Hne Hn].
    destruct (Z.eqb_spec k' k) as [->|_]; [done|]. by rewrite IH.
Qed.

Lemma xdrop_found xc hkey p :
  xfind xc hkey = Some p →
  ∃ xc1 xc2, xc = xc1 ++ (hkey, p) :: xc2 ∧ xdrop xc hkey = xc1 ++ xc2.
Proof.
  induction xc as [|[k q] xc IH]; cbn; intros Hf; [done|].
  destruct (Z.eqb_spec k hkey) as [->|Hne].
  - injection Hf as ->. by exists [], xc.
  - destruct (IH Hf) as (xc1 & xc2 & -> & Hd).
    exists ((k, q) :: xc1), xc2. by rewrite Hd.
Qed.

(** *** The recency list *)

Lemma mru_index_Some l p : p ∈ l → ∃ i, mru_index l p = Some i ∧ l !! i = Some p.
Proof.
  induction l as [|q l IH]; intros Hin; [by apply elem_of_nil in Hin|].
  cbn. destruct (decide (q = p)) as [->|Hne].
  - by exists 0%nat.
  - apply elem_of_cons in Hin as [->|Hin]; [done|].
    destruct (IH Hin) as (i & -> & Hi). by exists (S i).
Qed.

(** *** Entry construction *)

Lemma new_entry_ok (st : state M) idx hkey ck vk :
  Forall (λ b, b = true) (take 2 (allocs st)) →
  NCZ_buildchunkkey (ndims (cache st)) idx (dimension_separator (cache st))
    = Done (NC_NOERR, ck) →
  NCZ_varkey (var (cache st)) = (NC_NOERR, vk) →
  new_entry st idx hkey =
    Done (NC_NOERR, Some (fresh (dom (heap st))),
          mkState (cache st)
            (<[fresh (dom (heap st)) :=
                 mkEntry false (take (ndims (cache st)) idx)
                   (mkChunkKey (Some vk) (Some ck)) hkey
                   (Some (zeroes (chunksize (cache st))))]> (heap st))
            (zmap st) (drop 2 (allocs st))).
Proof.
  intros Hal Hck Hvk. destruct st as [c h m al]. cbn in *.
  unfold Cache.new_entry, calloc, NCZ_buildchunkpath. cbn.
  destruct al as [|b1 [|b2 al]]; cbn in *.
  - rewrite Hck. cbn. rewrite Hvk. cbn. unfold set_heap. cbn.
    by rewrite !insert_insert_eq.
  - apply Forall_cons in Hal as [-> _]. cbn.
    rewrite Hck. cbn. rewrite Hvk. cbn. unfold set_heap. cbn.
    by rewrite !insert_insert_eq.
  - apply Forall_cons in Hal as [-> Hal]. apply Forall_cons in Hal as [-> _]. cbn.
    rewrite Hck. cbn. rewrite Hvk. cbn. unfold set_heap. cbn.
    by rewrite !insert_insert_eq.
Qed.

Lemma fresh_heap_None (h : gmap addr NCZCacheEntry) : h !! fresh (dom h) = None.
Proof. apply not_elem_of_dom, is_fresh. Qed.

(** The three ways the construction fails; in each the release of the
    pending entry restores the heap. *)
Lemma new_entry_no_entry (st : state M) idx hkey rest :
  allocs st = false :: rest →
  new_entry st idx hkey =
    Done (NC_ENOMEM, None, mkState (cache st) (heap st) (zmap st) rest).
Proof.
  intros Hal. unfold Cache.new_entry, calloc. by rewrite Hal.
Qed.

Lemma new_entry_no_data (st : state M) idx hkey rest :
  allocs st = true :: false :: rest →
  ∃ st', new_entry st idx hkey = Done (NC_ENOMEM, Some (fresh (dom (heap st))), st') ∧
         cache st' = cache st ∧ zmap st' = zmap st ∧
         delete (fresh (dom (heap st))) (heap st') = heap st.
Proof.
  intros Hal. eexists. unfold Cache.new_entry, calloc. rewrite Hal. cbn.
  repeat split. cbn. apply delete_insert_id, fresh_heap_None.
Qed.

Lemma new_entry_no_key (st : state M) idx hkey ck stat vk :
  Forall (λ b, b = true) (take 2 (allocs st)) →
  NCZ_buildchunkkey (ndims (cache st)) idx (dimension_separator (cache st))
    = Done (NC_NOERR, ck) →
  NCZ_varkey (var (cache st)) = (stat, vk) →
  stat ≠ NC_NOERR →
  ∃ st', new_entry st idx hkey = Done (stat, Some (fresh (dom (heap st))), st') ∧
         cache st' = cache st ∧ zmap st' = zmap st ∧
         delete (fresh (dom (heap st))) (heap st') = heap st.
Proof.
  intros Hal Hck Hvk Hs. destruct st as [c h m al]. cbn in *.
  unfold Cache.new_entry, calloc, NCZ_buildchunkpath. cbn.
  destruct al as [|b1 [|b2 al]]; cbn in *;
    repeat match goal with
           | H : Forall _ (_ :: _) |- _ => apply Forall_cons in H as [-> H]
           end; cbn;
    rewrite Hck; cbn; rewrite Hvk; cbn;
    rewrite (eqb_status_ne _ _ Hs); cbn;
    rewrite ?(eqb_status_ne _ _ Hs); cbn;
    eexists; (split; [reflexivity|]); cbn; (repeat split);
    rewrite !insert_insert_eq; apply delete_insert_id, fresh_heap_None.
Qed.

(** The construction takes its allocations from the head of the coming
    outcomes. *)
Lemma new_entry_allocs (st : state M) idx hkey stat entry st' :
  new_entry st idx hkey = Done (stat, entry, st') →
  ∃ n, allocs st' = drop n (allocs st).
Proof.
  destruct st as [c h m al]. unfold Cache.new_entry, calloc. cbn.
  destruct al as [|[] [|[] al]]; cbn;
    try (intros [= <- <- <-]; cbn; first [by exists 0%nat | by exists 1%nat | by exists 2%nat]).
  all: destruct (NCZ_buildchunkpath NCZ_varkey c idx _) as [[s0 k]| |]; cbn; try done.
  all: destruct (Z.eqb_spec s0 NC_NOERR) as [->|Hs]; cbn; intros [= <- <- <-]; cbn.
  all: first [by exists 0%nat | by exists 1%nat | by exists 2%nat].
Qed.

(** *** What [makeroom] leaves alone *)

Lemma xdrop_keys xc hkey k : k ∈ (xdrop xc hkey).*1 → k ∈ xc.*1.
Proof.
  induction xc as [|[k' q] xc IH]; cbn; [done|].
  destruct (Z.eqb_spec k' hkey) as [->|Hne]; cbn.
  - intros Hin. apply elem_of_cons. by right.
  - intros Hin. apply elem_of_cons in Hin as [->|Hin]; apply elem_of_cons; auto.
Qed.

Lemma put_chunk_frame (st : state M) e stat st' :
  put_chunk st e = Done (stat, st') →
  cache st' = cache st ∧ heap st' = heap st ∧ allocs st' = allocs st.
Proof.
  unfold put_chunk. destruct (data e); [|done].
  destruct (nczmap_write _ _ _ _ _). by intros [= <- <-].
Qed.

Lemma makeroom_body_frame (st : state M) stat st' leave :
  makeroom_body st = Done (stat, st', leave) →
  settings (cache st') = settings (cache st) ∧ allocs st' = allocs st ∧
  (∀ k, k ∈ (xcache (cache st')).*1 → k ∈ (xcache (cache st)).*1).
Proof.
  unfold makeroom_body.
  destruct (ncxcachelast _) as [e|]; [|done].
  destruct (heap st !! e) as [ee|]; [|done].
  unfold ncxcacheremove.
  destruct (xfind _ _) as [q|] eqn:Hfind; cbn.
  2:{ by intros [= <- <- <-]. }
  case_bool_decide; [|done]. cbn.
  destruct (mru_index _ _) as [i|]; [|done].
  destruct (modified ee).
  - destruct (put_chunk _ _) as [[s st2]| |] eqn:Hput; [|done..].
    cbn. intros [= <- <- <-]. apply put_chunk_frame in Hput as (Hc & Hh & Ha).
    cbn. rewrite Hc, Ha. cbn. repeat split. apply xdrop_keys.
  - cbn. intros [= <- <- <-]. cbn. repeat split. apply xdrop_keys.
Qed.

Lemma makeroom_loop_frame fuel : ∀ stat (st : state M) stat' st',
  makeroom_loop fuel stat st = Done (stat', st') →
  settings (cache st') = settings (cache st) ∧ allocs st' = allocs st ∧
  (∀ k, k ∈ (xcache (cache st')).*1 → k ∈ (xcache (cache st)).*1).
Proof.
  induction fuel as [|fuel IH]; intros stat st stat' st'; cbn;
    destruct (_ >? _); try done; try (by intros [= <- <-]).
  destruct (makeroom_body st) as [[[s1 st1] leave]| |] eqn:Hbody; [|done..].
  cbn. apply makeroom_body_frame in Hbody as (Hs & Ha & Hk).
  destruct leave.
  - intros [= <- <-]. done.
  - intros Hloop. apply IH in Hloop as (Hs' & Ha' & Hk').
    rewrite Hs', Ha'. repeat split; auto.
Qed.

Lemma makeroom_frame (st : state M) stat' st' :
  makeroom st = Done (stat', st') →
  settings (cache st') = settings (cache st) ∧ allocs st' = allocs st ∧
  (∀ k, k ∈ (xcache (cache st')).*1 → k ∈ (xcache (cache st)).*1).
Proof. apply makeroom_loop_frame. Qed.

(** The loop stops only when the list is no longer than the capacity. *)
Lemma makeroom_loop_bound fuel : ∀ stat (st : state M) st',
  makeroom_loop fuel stat st = Done (NC_NOERR, st') →
  (∃ st0, makeroom_body st0 = Done (NC_NOERR, st', true)) ∨
  Z.of_nat (length (mru (cache st'))) ≤ maxentries (cache st').
Proof.
  induction fuel as [|fuel IH]; intros stat st st'; cbn;
    destruct (Z.gtb_spec (Z.of_nat (length (mru (cache st)))) (maxentries (cache st)));
    try done; try (intros [= <- <-]; right; lia).
  destruct (makeroom_body st) as [[[s1 st1] leave]| |] eqn:Hbody; [|done..].
  cbn. destruct leave.
  - intros [= -> ->]. left. by exists st.
  - apply IH.
Qed.

(** An iteration that leaves through [goto done] carries a status that is
    not [NC_NOERR]. *)
Lemma makeroom_body_leave (st : state M) stat st' :
  makeroom_body st = Done (stat, st', true) → stat ≠ NC_NOERR.
Proof.
  unfold makeroom_body.
  destruct (ncxcachelast _) as [e|]; [|done].
  destruct (heap st !! e) as [ee|]; [|done].
  unfold ncxcacheremove.
  destruct (xfind _ _) as [q|] eqn:Hfind; cbn.
  2:{ by intros [= <- <-]. }
  case_bool_decide; [|done]. cbn.
  destruct (mru_index _ _) as [i|]; [|done].
  destruct (modified ee).
  - by destruct (put_chunk _ _) as [[s st2]| |].
  - done.
Qed.

Lemma makeroom_success_bound (st st' : state M) :
  makeroom st = Done (NC_NOERR, st') →
  Z.of_nat (length (mru (cache st'))) ≤ maxentries (cache st').
Proof.
  intros Hroom. apply makeroom_loop_bound in Hroom as [[st0 Hbody] | Hle]; [|done].
  by apply makeroom_body_leave in Hbody.
Qed.

(** *** The fuel of [makeroom] suffices *)

Lemma mru_index_lt l p i : mru_index l p = Some i → (i < length l)%nat.
Proof.
  revert i. induction l as [|q l IH]; intros i; cbn; [done|].
  destruct (decide (q = p)) as [->|Hne].
  - intros [= <-]. lia.
  - destruct (mru_index l p) as [j|]; [|done]. cbn. intros [= <-].
    specialize (IH j eq_refl). lia.
Qed.

(** An iteration that stays in the loop takes one entry off the list. *)
Lemma makeroom_body_shrinks (st : state M) stat st' :
  makeroom_body st = Done (stat, st', false) →
  S (length (mru (cache st'))) = length (mru (cache st)) ∧
  maxentries (cache st') = maxentries (cache st).
Proof.
  unfold makeroom_body.
  destruct (ncxcachelast _) as [e|]; [|done].
  destruct (heap st !! e) as [ee|]; [|done].
  destruct (ncxcacheremove _ _) as [[s q] xc].
  destruct (negb (s =? NC_NOERR)); [done|].
  destruct (negb _); [done|].
  destruct (mru_index _ _) as [i|] eqn:Hi; [|done].
  apply mru_index_lt in Hi.
  assert (Hlen : S (length (nclistremove (mru (cache st)) i)) = length (mru (cache st))).
  { unfold nclistremove. rewrite length_delete; [lia|]. by apply lookup_lt_is_Some_2. }
  destruct (modified ee).
  - destruct (put_chunk _ _) as [[s2 st2]| |] eqn:Hput; [|done..].
    cbn. intros [= <- <-]. apply put_chunk_frame in Hput as (Hc & _ & _).
    cbn. rewrite Hc. done.
  - cbn. intros [= <- <-]. done.
Qed.

Lemma makeroom_body_fuel (st : state M) : makeroom_body st ≠ OutOfFuel.
Proof.
  unfold makeroom_body.
  destruct (ncxcachelast _) as [e|]; [|done].
  destruct (heap st !! e) as [ee|]; [|done].
  destruct (ncxcacheremove _ _) as [[s q] xc].
  destruct (negb (s =? NC_NOERR)); [done|].
  destruct (negb _); [done|].
  destruct (mru_index _ _) as [i|]; [|done].
  destruct (modified ee); [|done].
  unfold put_chunk. destruct (data ee); [|done].
  by destruct (nczmap_write _ _ _ _ _).
Qed.

Lemma makeroom_loop_fuel fuel : ∀ stat (st : state M),
  0 ≤ maxentries (cache st) →
  (length (mru (cache st)) ≤ fuel)%nat →
  makeroom_loop fuel stat st ≠ OutOfFuel.
Proof.
  induction fuel as [|fuel IH]; intros stat st Hmax Hfuel; cbn [makeroom_loop];
    destruct (Z.gtb_spec (Z.of_nat (length (mru (cache st)))) (maxentries (cache st)));
    try done; try lia.
  destruct (makeroom_body st) as [[[s1 st1] leave]| |] eqn:Hbody;
    [|done|by apply makeroom_body_fuel in Hbody].
  cbn. destruct leave; [done|].
  apply makeroom_body_shrinks in Hbody as [Hlen Hmax'].
  apply IH; [by rewrite Hmax' | lia].
Qed.

(** [makeroom] is given all the fuel its loop can use. *)
Lemma makeroom_fuel (st : state M) :
  0 ≤ maxentries (cache st) → makeroom st ≠ OutOfFuel.
Proof. intros Hmax. by apply makeroom_loop_fuel. Qed.

(** The eviction of an entry that is not modified leaves the store alone. *)
Lemma evict_unmodified_keeps_store (st : state M) p e stat st' leave :
  ncxcachelast (xcache (cache st)) = Some p →
  heap st !! p = Some e →
  modified e = false →
  makeroom_body st = Done (stat, st', leave) →
  zmap st' = zmap st.
Proof.
  intros Hlast Hp Hmod. unfold makeroom_body. rewrite Hlast, Hp, Hmod.
  destruct (ncxcacheremove _ _) as [[s q] xc].
  destruct (negb (s =? NC_NOERR)); [by intros [= <- <- <-]|].
  destruct (negb _); [done|].
  destruct (mru_index _ _); [|done]. cbn. by intros [= <- <- <-].
Qed.

(** *** The read that misses *)

(** When the key of the tuple can be built after [makeroom], the tuple has
    the elements the read takes from it. *)
Lemma key_built_in_bounds (st st1 : state M) idx stat r :
  makeroom st = Done (stat, st1) →
  NCZ_buildchunkkey (ndims (cache st1)) idx (dimension_separator (cache st1)) = Done r →
  (length idx <? ndims (cache st))%nat = false.
Proof.
  intros Hroom Hck. apply makeroom_frame in Hroom as (Hset & _ & _).
  apply NCZ_buildchunkkey_in_bounds in Hck.
  replace (ndims (cache st)) with (ndims (cache st1)) by (by injection Hset).
  apply Nat.ltb_ge. lia.
Qed.

Lemma read_miss_unfold (st : state M) idx :
  ncxcachelookup (xcache (cache st)) (ncxcachekey (take (ndims (cache st)) idx))
    = (NC_ENOTFOUND, None) →
  xfind (xcache (cache st)) (ncxcachekey (take (ndims (cache st)) idx)) = None.
Proof.
  unfold ncxcachelookup. by destruct (xfind _ _).
Qed.

(** Three allocations that succeed: the two of the entry, then the node of
    the container. *)
Lemma allocs_three (al : list bool) :
  Forall (λ b, b = true) (take 3 al) →
  Forall (λ b, b = true) (take 2 al) ∧ next_alloc (drop 2 al) = (true, drop 3 al).
Proof.
  destruct al as [|b1 [|b2 [|b3 al]]]; cbn; intros Hal;
    repeat match goal with
           | H : Forall _ (_ :: _) |- _ => apply Forall_cons in H as [-> H]
           end;
    split; try done; by repeat constructor.
Qed.

(** Once the two allocations of the entry have succeeded, the node of the
    container is allocated or it is not. *)
Lemma third_alloc (al : list bool) :
  Forall (λ b, b = true) (take 2 al) →
  Forall (λ b, b = true) (take 3 al) ∨ ∃ rest, al = true :: true :: false :: rest.
Proof.
  destruct al as [|b1 [|b2 [|[] al]]]; cbn; intros Hal;
    repeat match goal with
           | H : Forall _ (_ :: _) |- _ => apply Forall_cons in H as [-> H]
           end;
    first [left; by repeat constructor | right; by eexists].
Qed.

(** The read of a chunk that is neither in the cache nor in the store. *)
Lemma read_miss_absent (st st1 : state M) idx ck vk buf :
  let hkey := ncxcachekey (take (ndims (cache st)) idx) in
  let p := fresh (dom (heap st1)) in
  ncxcachelookup (xcache (cache st)) hkey = (NC_ENOTFOUND, None) →
  makeroom st = Done (NC_NOERR, st1) →
  Forall (λ b, b = true) (take 3 (allocs st1)) →
  NCZ_buildchunkkey (ndims (cache st1)) idx (dimension_separator (cache st1))
    = Done (NC_NOERR, ck) →
  NCZ_varkey (var (cache st1)) = (NC_NOERR, vk) →
  nczmap_read (zmap st1)
    (NCZ_chunkpath (mkChunkKey (Some vk) (Some ck)) (dimension_separator (cache st1)))
    0 (chunksize (cache st1)) (zeroes (chunksize (cache st1))) = (NC_EEMPTY, buf) →
  read st idx =
    Done (NC_EEMPTY, Some p,
          mkState
            (set_xcache ((hkey, p) :: xcache (cache st1))
               (set_mru (mru (cache st1) ++ [p]) (cache st1)))
            (<[p := mkEntry (negb (no_write (var (cache st1))))
                      (take (ndims (cache st1)) idx)
                      (mkChunkKey (Some vk) (Some ck)) hkey
                      (Some (zeroes (chunksize (cache st1))))]> (heap st1))
            (zmap st1) (drop 3 (allocs st1))).
Proof.
  intros hkey p Hmiss Hroom Hal Hck Hvk Hrd.
  apply allocs_three in Hal as [Hal Hnext].
  pose proof (read_miss_unfold _ _ Hmiss) as Hnone.
  destruct (makeroom_frame _ _ _ Hroom) as (_ & _ & Hkeys).
  assert (Hfresh : hkey ∉ (xcache (cache st1)).*1).
  { intros Hin. apply Hkeys in Hin. by apply xfind_None_notin in Hnone. }
  unfold NCZ_read_cache_chunk.
  rewrite (key_built_in_bounds _ _ _ _ _ Hroom Hck). fold hkey. rewrite Hmiss. cbn.
  rewrite Hroom. cbn.
  rewrite (new_entry_ok st1 idx hkey ck vk) by done. cbn. fold p.
  unfold get_chunk. cbn. rewrite lookup_insert_eq. cbn. rewrite Hrd. cbn.
  unfold fabricate. cbn. rewrite lookup_insert_eq. cbn.
  unfold ncxcacheinsert. cbn. rewrite Hnext. cbn.
  rewrite lookup_insert_eq. cbn. unfold finish. cbn.
  unfold nclistpush, set_heap, set_cache, set_xcache, set_mru, set_data, set_modified. cbn.
  rewrite !insert_insert_eq, xdrop_notin by done. done.
Qed.

(** The read of a chunk that is not in the cache, when the store has been
    asked and the node of the container cannot be allocated: the entry has
    been pushed on the recency list before, and is released after. *)
Lemma read_miss_unfiled (st st1 : state M) idx ck vk stat buf rest :
  let hkey := ncxcachekey (take (ndims (cache st)) idx) in
  let p := fresh (dom (heap st1)) in
  ncxcachelookup (xcache (cache st)) hkey = (NC_ENOTFOUND, None) →
  makeroom st = Done (NC_NOERR, st1) →
  allocs st1 = true :: true :: false :: rest →
  NCZ_buildchunkkey (ndims (cache st1)) idx (dimension_separator (cache st1))
    = Done (NC_NOERR, ck) →
  NCZ_varkey (var (cache st1)) = (NC_NOERR, vk) →
  nczmap_read (zmap st1)
    (NCZ_chunkpath (mkChunkKey (Some vk) (Some ck)) (dimension_separator (cache st1)))
    0 (chunksize (cache st1)) (zeroes (chunksize (cache st1))) = (stat, buf) →
  stat = NC_NOERR ∨ stat = NC_EEMPTY →
  read st idx =
    Done (NC_ENOMEM, None,
          mkState (set_mru (mru (cache st1) ++ [p]) (cache st1))
            (heap st1) (zmap st1) rest).
Proof.
  intros hkey p Hmiss Hroom Hal Hck Hvk Hrd Hstat.
  assert (Hal2 : Forall (λ b, b = true) (take 2 (allocs st1)))
    by (rewrite Hal; by repeat constructor).
  assert (Hnext : next_alloc (drop 2 (allocs st1)) = (false, rest)) by (by rewrite Hal).
  unfold NCZ_read_cache_chunk.
  rewrite (key_built_in_bounds _ _ _ _ _ Hroom Hck). fold hkey. rewrite Hmiss. cbn.
  rewrite Hroom. cbn.
  rewrite (new_entry_ok st1 idx hkey ck vk) by done. cbn. fold p.
  unfold get_chunk. cbn. rewrite lookup_insert_eq. cbn. rewrite Hrd. cbn.
  destruct Hstat as [-> | ->]; cbn.
  - unfold ncxcacheinsert. cbn. rewrite Hnext. cbn. unfold finish. cbn.
    unfold nclistpush, release, set_heap, set_cache, set_xcache, set_mru. cbn.
    rewrite !insert_insert_eq, delete_insert_id by apply fresh_heap_None. done.
  - unfold fabricate. cbn. rewrite lookup_insert_eq. cbn.
    unfold ncxcacheinsert. cbn. rewrite Hnext. cbn. unfold finish. cbn.
    unfold nclistpush, release, set_heap, set_cache, set_xcache, set_mru. cbn.
    rewrite !insert_insert_eq, delete_insert_id by apply fresh_heap_None. done.
Qed.

(** C5, as the source has it: a read that misses and is told by the store
    that the chunk is absent never returns the absence as an error.  When
    the node of the hash container can be allocated, it returns [NC_EEMPTY]
    (the signal that the chunk was created) together with the buffer of a
    new entry, which is put at the tail of the recency list and into the
    hash container, and whose modified flag is set exactly when the file is
    writable; the store is not touched, and the later eviction of the entry
    of a read-only file writes nothing.  When the node cannot be allocated,
    the read returns [NC_ENOMEM] and no buffer, and the entry is released
    and is not in the hash container. *)
Theorem C5_read_absent_chunk (st st1 : state M) idx ck vk buf :
  let hkey := ncxcachekey (take (ndims (cache st)) idx) in
  let p := fresh (dom (heap st1)) in
  ncxcachelookup (xcache (cache st)) hkey = (NC_ENOTFOUND, None) →
  makeroom st = Done (NC_NOERR, st1) →
  NCZ_buildchunkkey (ndims (cache st1)) idx (dimension_separator (cache st1))
    = Done (NC_NOERR, ck) →
  NCZ_varkey (var (cache st1)) = (NC_NOERR, vk) →
  nczmap_read (zmap st1)
    (NCZ_chunkpath (mkChunkKey (Some vk) (Some ck)) (dimension_separator (cache st1)))
    0 (chunksize (cache st1)) (zeroes (chunksize (cache st1))) = (NC_EEMPTY, buf) →
  (Forall (λ b, b = true) (take 3 (allocs st1)) →
   ∃ st' e,
     read st idx = Done (NC_EEMPTY, Some p, st') ∧
     heap st1 !! p = None ∧
     heap st' !! p = Some e ∧
     (modified e = true ↔ no_write (var (cache st)) = false) ∧
     hashkey e = hkey ∧
     mru (cache st') = mru (cache st1) ++ [p] ∧
     xcache (cache st') = (hkey, p) :: xcache (cache st1) ∧
     zmap st' = zmap st1 ∧
     (no_write (var (cache st)) = true →
      ∀ (st2 : state M) stat st3 leave,
        heap st2 !! p = Some e →
        ncxcachelast (xcache (cache st2)) = Some p →
        makeroom_body st2 = Done (stat, st3, leave) →
        zmap st3 = zmap st2)) ∧
  (∀ rest, allocs st1 = true :: true :: false :: rest →
   ∃ st',
     read st idx = Done (NC_ENOMEM, None, st') ∧
     NC_ENOMEM ≠ NC_EEMPTY ∧
     xcache (cache st') = xcache (cache st1) ∧
     heap st' = heap st1 ∧ heap st1 !! p = None ∧
     zmap st' = zmap st1).
Proof.
  intros hkey p Hmiss Hroom Hck Hvk Hrd.
  destruct (makeroom_frame _ _ _ Hroom) as (Hset & _ & _).
  assert (Hvar : var (cache st1) = var (cache st)) by (by injection Hset).
  split.
  - intros Hal.
    eexists _, _. split; [by eapply read_miss_absent|].
    cbn. rewrite lookup_insert_eq, Hvar. repeat split; try done.
    + apply fresh_heap_None.
    + cbn. by destruct (no_write _).
    + cbn. by destruct (no_write _).
    + intros Hro st2 stat st3 leave Hp Hlast Hbody.
      eapply evict_unmodified_keeps_store; [exact Hlast | exact Hp | | exact Hbody].
      cbn. by rewrite Hro.
  - intros rest Hal.
    eexists. split; [eapply read_miss_unfiled; try done; by right|].
    cbn. split_and!; try done. apply fresh_heap_None.
Qed.

(** C3, as the source has it: the buffer that a read hands out for a chunk
    that the store reports absent (the entry, its buffer and the node of the
    container being allocated) is [chunksize] zero bytes, whether or not the
    cache has a fill chunk. *)
Theorem C3_absent_chunk_is_zeroed (st st1 : state M) idx ck vk buf fill :
  let hkey := ncxcachekey (take (ndims (cache st)) idx) in
  let p := fresh (dom (heap st1)) in
  fillchunk (cache st) = fill →
  0 ≤ chunksize (cache st) →
  ncxcachelookup (xcache (cache st)) hkey = (NC_ENOTFOUND, None) →
  makeroom st = Done (NC_NOERR, st1) →
  Forall (λ b, b = true) (take 3 (allocs st1)) →
  NCZ_buildchunkkey (ndims (cache st1)) idx (dimension_separator (cache st1))
    = Done (NC_NOERR, ck) →
  NCZ_varkey (var (cache st1)) = (NC_NOERR, vk) →
  nczmap_read (zmap st1)
    (NCZ_chunkpath (mkChunkKey (Some vk) (Some ck)) (dimension_separator (cache st1)))
    0 (chunksize (cache st1)) (zeroes (chunksize (cache st1))) = (NC_EEMPTY, buf) →
  ∃ st' e d,
    read st idx = Done (NC_EEMPTY, Some p, st') ∧
    heap st' !! p = Some e ∧
    data e = Some d ∧
    Z.of_nat (length d) = chunksize (cache st) ∧
    Forall (λ b, b = Init.Byte.x00) d.
Proof.
  intros hkey p _ Hcs Hmiss Hroom Hal Hck Hvk Hrd.
  destruct (makeroom_frame _ _ _ Hroom) as (Hset & _ & _).
  assert (Hsz : chunksize (cache st1) = chunksize (cache st)) by (by injection Hset).
  eexists _, _, _. split; [by eapply read_miss_absent|].
  cbn. rewrite lookup_insert_eq. cbn. repeat split.
  - unfold zeroes. rewrite length_replicate, Hsz. lia.
  - unfold zeroes. apply Forall_replicate. done.
Qed.

(** A read that missed and then fails undoes all it did after [makeroom]. *)
Lemma read_miss_fails (st st1 : state M) idx stat :
  ncxcachelookup (xcache (cache st)) (ncxcachekey (take (ndims (cache st)) idx))
    = (NC_ENOTFOUND, None) →
  makeroom st = Done (NC_NOERR, st1) →
  (ndims (cache st) ≤ length idx)%nat →
  miss_failure st1 idx stat →
  ∃ st',
    read st idx = Done (stat, None, st') ∧
    stat ≠ NC_NOERR ∧
    cache st' = cache st1 ∧ heap st' = heap st1 ∧ zmap st' = zmap st1 ∧
    (∀ q, q ∈ mru (cache st) → q ∉ mru (cache st1) → q ∉ mru (cache st')) ∧
    ∃ n, allocs st' = drop n (allocs st1).
Proof.
  intros Hmiss Hroom Hlen Hf.
  unfold NCZ_read_cache_chunk. rewrite (proj2 (Nat.ltb_ge _ _) Hlen).
  rewrite Hmiss. cbn. rewrite Hroom. cbn.
  inversion Hf as [rest Hal | rest Hal | ck s vk Hal Hck Hvk Hs
                  | ck vk s buf Hal Hck Hvk Hrd Hs1 Hs2]; subst.
  - rewrite (new_entry_no_entry _ _ _ _ Hal). cbn. eexists.
    split_and!; try done. exists 1%nat. by rewrite Hal.
  - destruct (new_entry_no_data st1 idx
                (ncxcachekey (take (ndims (cache st)) idx)) _ Hal)
      as (st2 & Hne & Hc & Hm & Hh).
    destruct (new_entry_allocs _ _ _ _ _ _ Hne) as [n Hn]. rewrite Hne.
    cbn. eexists. split; [reflexivity|]. cbn. rewrite Hc, Hh, Hm.
    split_and!; try done. by exists n.
  - destruct (new_entry_no_key st1 idx
                (ncxcachekey (take (ndims (cache st)) idx)) _ _ _ Hal Hck Hvk Hs)
      as (st2 & Hne & Hc & Hm & Hh).
    destruct (new_entry_allocs _ _ _ _ _ _ Hne) as [n Hn]. rewrite Hne.
    cbn. rewrite (eqb_status_ne _ _ Hs). cbn.
    eexists. split; [reflexivity|]. cbn. rewrite Hc, Hh, Hm.
    split_and!; try done. by exists n.
  - rewrite (new_entry_ok st1 idx _ ck vk) by done. cbn.
    unfold get_chunk. cbn. rewrite lookup_insert_eq. cbn. rewrite Hrd. cbn.
    rewrite (eqb_status_ne _ _ Hs1), (eqb_status_ne _ _ Hs2). cbn.
    eexists. split; [reflexivity|]. cbn.
    rewrite insert_insert_eq, delete_insert_id by apply fresh_heap_None.
    split_and!; try done. by exists 2%nat.
Qed.

(** C10: when a read has missed and [makeroom] has returned, and then the
    entry or its buffer cannot be allocated, or the key of the variable
    cannot be had, or the store answers the fetch with an error, the read
    returns that error and no buffer, and leaves the cache, the heap and the
    store exactly as [makeroom] left them: the pending entry is released and
    is in neither container, and what [makeroom] evicted stays evicted. *)
Theorem C10_read_miss_failure (st st1 : state M) idx stat :
  ncxcachelookup (xcache (cache st)) (ncxcachekey (take (ndims (cache st)) idx))
    = (NC_ENOTFOUND, None) →
  makeroom st = Done (NC_NOERR, st1) →
  (ndims (cache st) ≤ length idx)%nat →
  miss_failure st1 idx stat →
  ∃ st',
    read st idx = Done (stat, None, st') ∧
    stat ≠ NC_NOERR ∧
    cache st' = cache st1 ∧ heap st' = heap st1 ∧ zmap st' = zmap st1 ∧
    (∀ q, q ∈ mru (cache st) → q ∉ mru (cache st1) → q ∉ mru (cache st')).
Proof.
  intros Hmiss Hroom Hlen Hf.
  destruct (read_miss_fails st st1 idx stat Hmiss Hroom Hlen Hf)
    as (st' & Hread & Hs & Hc & Hh & Hm & Hmru & _).
  exists st'. by split_and!.
Qed.

(** *** The flush *)

Lemma lookups_transfer (h h' : gmap addr NCZCacheEntry) (l : list addr) es :
  (∀ q, q ∈ l → h' !! q = h !! q) →
  Forall2 (λ p e, h' !! p = Some e) l es →
  Forall2 (λ p e, h !! p = Some e) l es.
Proof.
  intros Hsame Hall. induction Hall as [|q e l es Hq Hall IH]; constructor.
  - rewrite <- Hsame; [done|]. apply elem_of_cons. by left.
  - apply IH. intros q' Hq'. apply Hsame, elem_of_cons. by right.
Qed.

Lemma flush_loop_spec (l : list addr) : ∀ st : state M,
  NoDup l →
  (∀ p, p ∈ l → ∃ e, heap st !! p = Some e ∧ is_Some (data e)) →
  ∃ stat st' (k : nat) es m,
    flush_loop l st = Done (stat, st') ∧
    cache st' = cache st ∧ dom (heap st') = dom (heap st) ∧
    Forall2 (λ p e, heap st !! p = Some e) (take k l) es ∧
    (∀ p, p ∈ take k l → heap st' !! p = set_modified false <$> heap st !! p) ∧
    (∀ p, p ∉ take k l → heap st' !! p = heap st !! p) ∧
    writes_applied (cache st) es (zmap st) = Some m ∧
    ((stat = NC_NOERR ∧ k = length l ∧ zmap st' = m) ∨
     (stat ≠ NC_NOERR ∧
      ∃ p e d, l !! k = Some p ∧ heap st !! p = Some e ∧
               modified e = true ∧ data e = Some d ∧
               nczmap_write m (NCZ_chunkpath (key e) (dimension_separator (cache st)))
                 0 (chunksize (cache st)) d = (stat, zmap st'))).
Proof.
  induction l as [|p l IH]; intros st Hnd Hlive.
  { exists NC_NOERR, st, 0%nat, [], (zmap st). cbn.
    split_and!; try done.
    - intros p Hp. by apply elem_of_nil in Hp.
    - by left. }
  apply NoDup_cons in Hnd as [Hp Hnd].
  destruct (Hlive p) as (e & He & d & Hd); [apply elem_of_cons; by left|].
  (* the rest of the list is visited once the head is dealt with *)
  assert (Hcont : ∀ m1,
    writes_applied (cache st) [e] (zmap st) = Some m1 →
    ∃ stat st' (k : nat) es m,
      flush_loop l (set_heap (<[p := set_modified false e]> (heap st)) (set_zmap m1 st))
        = Done (stat, st') ∧
      cache st' = cache st ∧ dom (heap st') = dom (heap st) ∧
      Forall2 (λ p e, heap st !! p = Some e) (take k (p :: l)) es ∧
      (∀ q, q ∈ take k (p :: l) → heap st' !! q = set_modified false <$> heap st !! q) ∧
      (∀ q, q ∉ take k (p :: l) → heap st' !! q = heap st !! q) ∧
      writes_applied (cache st) es (zmap st) = Some m ∧
      ((stat = NC_NOERR ∧ k = length (p :: l) ∧ zmap st' = m) ∨
       (stat ≠ NC_NOERR ∧
        ∃ q e' d', (p :: l) !! k = Some q ∧ heap st !! q = Some e' ∧
                 modified e' = true ∧ data e' = Some d' ∧
                 nczmap_write m (NCZ_chunkpath (key e') (dimension_separator (cache st)))
                   0 (chunksize (cache st)) d' = (stat, zmap st')))).
  { intros m1 Hm1.
    destruct (IH (set_heap (<[p := set_modified false e]> (heap st)) (set_zmap m1 st)))
      as (stat & st' & k & es & m & Hrun & Hc & Hdom & Hes & Hin & Hout & Hw & Hres);
      [done | |].
    { intros q Hq. cbn. rewrite lookup_insert_ne by (by intros ->). apply Hlive.
      apply elem_of_cons. by right. }
    cbn in Hc, Hdom, Hes, Hin, Hout, Hw, Hres.
    assert (Hpk : p ∉ take k l) by (intros Hpk; by apply subseteq_take in Hpk).
    assert (Hother : ∀ q, q ∈ take k l →
              <[p := set_modified false e]> (heap st) !! q = heap st !! q).
    { intros q Hq. apply lookup_insert_ne. by intros ->. }
    exists stat, st', (S k), (e :: es), m. split; [exact Hrun|].
    split; [done|]. split.
    { rewrite Hdom. apply dom_insert_lookup_L. by rewrite He. }
    split.
    { cbn. constructor; [done|]. by eapply lookups_transfer. }
    split.
    { cbn. intros q Hq. apply elem_of_cons in Hq as [->|Hq].
      - rewrite Hout, lookup_insert_eq, He by done. done.
      - by rewrite Hin, Hother. }
    split.
    { cbn. intros q Hq. apply not_elem_of_cons in Hq as [Hne Hq].
      rewrite Hout by done. by apply lookup_insert_ne. }
    split.
    { cbn [writes_applied] in Hm1 |- *.
      destruct (modified e).
      - rewrite Hd in Hm1 |- *. destruct (nczmap_write _ _ _ _ _) as [s m2].
        destruct (s =? NC_NOERR); [|done]. by injection Hm1 as ->.
      - by injection Hm1 as <-. }
    destruct Hres as [(-> & -> & ->) | (Hs & q & e' & d' & Hq & He' & Hmod & Hd' & Hwr)].
    - left. done.
    - right. split; [done|]. exists q, e', d'. cbn. split; [done|].
      rewrite lookup_insert_ne in He'; [done|].
      intros ->. by apply list_elem_of_lookup_2 in Hq. }
  cbn [flush_loop]. rewrite He.
  destruct (modified e) eqn:Hmod.
  - unfold put_chunk. rewrite Hd.
    destruct (nczmap_write _ _ _ _ _) as [s m1] eqn:Hwr. cbn.
    destruct (Z.eqb_spec s NC_NOERR) as [->|Hs]; cbn.
    + apply Hcont. cbn. by rewrite Hmod, Hd, Hwr.
    + exists s, (set_zmap m1 st), 0%nat, [], (zmap st). cbn.
      split_and!; try done.
      * intros q Hq. by apply elem_of_nil in Hq.
      * right. split; [done|]. by exists p, e, d.
  - cbn. apply (Hcont (zmap st)). cbn. by rewrite Hmod.
Qed.

(** The flush is the loop over the recency list. *)
Lemma flush_spec (st : state M) :
  NoDup (mru (cache st)) →
  (∀ p, p ∈ mru (cache st) → ∃ e, heap st !! p = Some e ∧ is_Some (data e)) →
  ∃ stat st' (k : nat) es m,
    NCZ_flush_chunk_cache st = Done (stat, st') ∧
    cache st' = cache st ∧ dom (heap st') = dom (heap st) ∧
    Forall2 (λ p e, heap st !! p = Some e) (take k (mru (cache st))) es ∧
    (∀ p, p ∈ take k (mru (cache st)) →
       heap st' !! p = set_modified false <$> heap st !! p) ∧
    (∀ p, p ∉ take k (mru (cache st)) → heap st' !! p = heap st !! p) ∧
    writes_applied (cache st) es (zmap st) = Some m ∧
    ((stat = NC_NOERR ∧ k = length (mru (cache st)) ∧ zmap st' = m) ∨
     (stat ≠ NC_NOERR ∧
      ∃ p e d, mru (cache st) !! k = Some p ∧ heap st !! p = Some e ∧
               modified e = true ∧ data e = Some d ∧
               nczmap_write m (NCZ_chunkpath (key e) (dimension_separator (cache st)))
                 0 (chunksize (cache st)) d = (stat, zmap st'))).
Proof.
  intros Hnd Hlive. unfold NCZ_flush_chunk_cache, NCZ_cache_size.
  destruct (Z.eqb_spec (Z.of_nat (length (mru (cache st)))) 0) as [Hz|_].
  - assert (Hnil : mru (cache st) = []) by (apply length_zero_iff_nil; lia).
    rewrite Hnil. apply (flush_loop_spec [] st); [constructor|].
    intros p Hp. by apply elem_of_nil in Hp.
  - by apply flush_loop_spec.
Qed.

(** C6: the flush evicts nothing (the cache structure and the set of live
    entries are as before); it visits the recency list in order, writes each
    modified entry it visits and clears its flag once the write has succeeded:
    after the call the modified flag of each of the first [k] entries is
    [false], and nothing else of them has changed.  Either all entries are
    dealt with in this way, and the status is [NC_NOERR], or the write of the
    entry at position [k] is refused: that status is returned at once, and
    every entry outside the first [k], the refused one included, is as it
    was before the call, its modified flag too. *)
Theorem C6_flush_stops_at_first_error (st : state M) :
  NoDup (mru (cache st)) →
  (∀ p, p ∈ mru (cache st) → ∃ e, heap st !! p = Some e ∧ is_Some (data e)) →
  ∃ stat st' (k : nat) es m,
    NCZ_flush_chunk_cache st = Done (stat, st') ∧
    cache st' = cache st ∧ dom (heap st') = dom (heap st) ∧
    Forall2 (λ p e, heap st !! p = Some e) (take k (mru (cache st))) es ∧
    (∀ p e, p ∈ take k (mru (cache st)) → heap st !! p = Some e →
       ∃ e', heap st' !! p = Some e' ∧
             modified e' = false ∧
             indices e' = indices e ∧ key e' = key e ∧
             hashkey e' = hashkey e ∧ data e' = data e) ∧
    (∀ p, p ∉ take k (mru (cache st)) → heap st' !! p = heap st !! p) ∧
    writes_applied (cache st) es (zmap st) = Some m ∧
    ((stat = NC_NOERR ∧ k = length (mru (cache st)) ∧ zmap st' = m) ∨
     (stat ≠ NC_NOERR ∧
      ∃ p e d, mru (cache st) !! k = Some p ∧ heap st !! p = Some e ∧
               heap st' !! p = Some e ∧
               modified e = true ∧ data e = Some d ∧
               nczmap_write m (NCZ_chunkpath (key e) (dimension_separator (cache st)))
                 0 (chunksize (cache st)) d = (stat, zmap st'))).
Proof.
  intros Hnd Hlive.
  destruct (flush_spec st Hnd Hlive)
    as (stat & st' & k & es & m & Hrun & Hc & Hdom & Hes & Hin & Hout & Hw & Hcase).
  exists stat, st', k, es, m. split_and!; try done.
  - intros p e Hp He. exists (set_modified false e).
    rewrite (Hin p Hp), He. done.
  - destruct Hcase as [Hok | (Hs & p & e & d & Hk & He & Hm & Hd & Hwr)]; [by left|].
    right. split; [done|]. exists p, e, d. split_and!; try done.
    rewrite Hout; [done|]. intros Hp.
    apply list_elem_of_lookup in Hp as [i Hi].
    pose proof (lookup_lt_Some _ _ _ Hi) as Hlt. rewrite length_take in Hlt.
    rewrite lookup_take_lt in Hi by lia.
    assert (i = k) by (eapply NoDup_lookup; done). lia.
Qed.

(** *** [makeroom] on a consistent cache *)

Lemma consistent_snoc_key (xc : NCxcache) k p :
  NoDup (xc ++ [(k, p)]).*1 → k ∉ xc.*1.
Proof.
  rewrite fmap_app. intros Hnd Hin.
  apply NoDup_app in Hnd as (_ & Hdis & _).
  apply (Hdis k Hin). cbn. apply list_elem_of_singleton. done.
Qed.

Lemma makeroom_body_consistent (st : state M) :
  consistent st → xcache (cache st) ≠ [] →
  ∃ xc k p e stat m' i,
    xcache (cache st) = xc ++ [(k, p)] ∧
    heap st !! p = Some e ∧
    mru (cache st) !! i = Some p ∧
    (stat, m') = evictions (cache st) [e] (NC_NOERR, zmap st) ∧
    makeroom_body st =
      Done (stat,
            mkState (set_mru (delete i (mru (cache st))) (set_xcache xc (cache st)))
              (delete p (heap st)) m' (allocs st),
            false) ∧
    consistent
      (mkState (set_mru (delete i (mru (cache st))) (set_xcache xc (cache st)))
         (delete p (heap st)) m' (allocs st)).
Proof.
  intros (Hk & Hp & Hperm & Hlive & Hmax) Hne.
  destruct (last (xcache (cache st))) as [[k p]|] eqn:Hlast;
    [|by apply last_None in Hlast].
  apply last_Some in Hlast as [xc Hxc].
  destruct (Hlive k p) as (e & He & Hhk & d & Hd).
  { rewrite Hxc. apply elem_of_app. right. by apply list_elem_of_singleton. }
  assert (Hkfresh : k ∉ xc.*1) by (apply (consistent_snoc_key xc k p); by rewrite <- Hxc).
  assert (Hpin : p ∈ mru (cache st)).
  { rewrite Hperm, Hxc, fmap_app. apply elem_of_app. right.
    by apply list_elem_of_singleton. }
  destruct (mru_index_Some _ _ Hpin) as (i & Hidx & Hi).
  destruct (nczmap_write (zmap st) (NCZ_chunkpath (key e) (dimension_separator (cache st)))
              0 (chunksize (cache st)) d) as [s m1] eqn:Hwr.
  exists xc, k, p, e, (if modified e then s else NC_NOERR),
         (if modified e then m1 else zmap st), i.
  split; [done|]. split; [done|]. split; [done|]. split.
  { unfold evictions. cbn. rewrite Hd. cbn. rewrite Hwr. by destruct (modified e). }
  split.
  { unfold makeroom_body, ncxcachelast, ncxcacheremove.
    rewrite Hxc, last_snoc. cbn. rewrite He, Hhk.
    rewrite xfind_snoc, xdrop_snoc by done. cbn.
    rewrite bool_decide_eq_true_2 by done. cbn.
    rewrite Hidx. unfold put_chunk.
    destruct (modified e); cbn; [rewrite Hd; cbn; rewrite Hwr|]; done. }
  rewrite Hxc in Hk, Hp, Hperm.
  rewrite fmap_app in Hk. rewrite fmap_app in Hp. rewrite fmap_app in Hperm.
  cbn in Hk, Hp, Hperm.
  apply NoDup_app in Hk as (Hk & _ & _).
  apply NoDup_app in Hp as (Hp & Hpdis & _).
  split_and!; cbn; try done.
  - apply (Permutation_cons_inv (a:=p)).
    rewrite <- (delete_Permutation _ _ _ Hi), Hperm.
    by rewrite Permutation_app_comm.
  - intros k' q Hq.
    destruct (Hlive k' q) as (e' & He' & Hh' & Hd').
    { rewrite Hxc. apply elem_of_app. by left. }
    exists e'. split; [|done].
    rewrite lookup_delete_ne; [done|]. intros <-.
    apply (Hpdis p).
    + apply list_elem_of_fmap. by exists (k', p).
    + by apply list_elem_of_singleton.
Qed.

Lemma evictions_cons (c : NCZChunkCache) e es (stat : Z) (m : M) :
  evictions c (e :: es) (stat, m) = evictions c es (evictions c [e] (NC_NOERR, m)).
Proof. done. Qed.

(** On a consistent cache [makeroom] evicts the least recently used entries
    until the recency list fits the capacity. *)
Lemma makeroom_loop_consistent fuel : ∀ stat (st : state M),
  consistent st → (length (mru (cache st)) ≤ fuel)%nat →
  ∃ stat' st' evicted es,
    makeroom_loop fuel stat st = Done (stat', st') ∧
    consistent st' ∧
    settings (cache st') = settings (cache st) ∧ allocs st' = allocs st ∧
    xcache (cache st) = xcache (cache st') ++ evicted ∧
    Z.of_nat (length (mru (cache st'))) ≤ maxentries (cache st) ∧
    (Z.of_nat (length (mru (cache st))) ≤ maxentries (cache st) → evicted = []) ∧
    Forall2 (λ kp e, heap st !! kp.2 = Some e) (reverse evicted) es ∧
    (stat', zmap st') = evictions (cache st) es (stat, zmap st) ∧
    (∀ q, heap st' !! q =
            if bool_decide (q ∈ evicted.*2) then None else heap st !! q).
Proof.
  induction fuel as [|fuel IH]; intros stat st Hcons Hfuel.
  - exists stat, st, [], []. cbn [makeroom_loop].
    assert (Hmax : 0 ≤ maxentries (cache st)) by apply Hcons.
    destruct (Z.gtb_spec (Z.of_nat (length (mru (cache st)))) (maxentries (cache st)));
      [lia|].
    split_and!; try done; try (by rewrite app_nil_r); try (by constructor).
  - cbn [makeroom_loop].
    destruct (Z.gtb_spec (Z.of_nat (length (mru (cache st)))) (maxentries (cache st)))
      as [Hgt|Hle].
    2:{ exists stat, st, [], [].
        split_and!; try done; try (by rewrite app_nil_r); try (by constructor). }
    assert (Hmax : 0 ≤ maxentries (cache st)) by apply Hcons.
    assert (Hperm : mru (cache st) ≡ₚ (xcache (cache st)).*2) by apply Hcons.
    assert (Hne : xcache (cache st) ≠ []).
    { intros Hnil. rewrite Hnil in Hperm. apply Permutation_nil_r in Hperm.
      rewrite Hperm in Hgt. cbn in Hgt. lia. }
    destruct (makeroom_body_consistent st Hcons Hne)
      as (xc & k & p & e & s1 & m1 & i & Hxc & He & Hi & Hev & Hbody & Hcons1).
    rewrite Hbody. cbn.
    destruct (IH s1 _ Hcons1)
      as (stat' & st' & evicted & es & Hrun & Hcons' & Hset & Hal & Hxc' & Hlen
          & _ & Hes & Hev' & Hheap).
    { cbn. rewrite length_delete by (by rewrite Hi).
      pose proof (lookup_lt_Some _ _ _ Hi). lia. }
    cbn in Hset, Hal, Hxc', Hlen, Hes, Hev', Hheap.
    exists stat', st', (evicted ++ [(k, p)]), (e :: es).
    split; [exact Hrun|]. split; [exact Hcons'|]. split; [exact Hset|].
    split; [exact Hal|]. split.
    { by rewrite Hxc, Hxc', app_assoc. }
    split; [exact Hlen|]. split; [lia|]. split.
    { rewrite reverse_snoc. constructor; [done|].
      eapply Forall2_impl; [exact Hes|]. cbn. intros kp e' Hkp.
      by apply lookup_delete_Some in Hkp as [_ Hkp]. }
    split.
    { rewrite evictions_cons, <- Hev. exact Hev'. }
    intros q. rewrite Hheap, fmap_app. cbn.
    destruct (decide (q = p)) as [->|Hqp].
    + rewrite lookup_delete_eq.
      rewrite (bool_decide_eq_true_2 (p ∈ evicted.*2 ++ [p])).
      * by destruct (bool_decide _).
      * apply elem_of_app. right. by apply list_elem_of_singleton.
    + rewrite lookup_delete_ne by done.
      rewrite (bool_decide_ext (q ∈ evicted.*2 ++ [p]) (q ∈ evicted.*2)); [done|].
      rewrite elem_of_app, list_elem_of_singleton.
      split; [by intros [?|?] | by left].
Qed.

(** *** The operations keep the cache consistent *)

Lemma consistent_same (st st' : state M) :
  cache st' = cache st → heap st' = heap st → consistent st → consistent st'.
Proof. unfold consistent. by intros -> ->. Qed.

Lemma consistent_live (st : state M) p :
  consistent st → p ∈ mru (cache st) →
  ∃ e, heap st !! p = Some e ∧ is_Some (data e).
Proof.
  intros (_ & _ & Hperm & Hlive & _) Hp. rewrite Hperm in Hp.
  apply list_elem_of_fmap in Hp as ([k q] & -> & Hin).
  destruct (Hlive k q Hin) as (e & He & _ & Hd). by exists e.
Qed.

Lemma consistent_NoDup_mru (st : state M) : consistent st → NoDup (mru (cache st)).
Proof. intros (_ & Hp & Hperm & _). by rewrite Hperm. Qed.

Lemma consistent_length (st : state M) :
  consistent st → length (xcache (cache st)) = length (mru (cache st)).
Proof.
  intros (_ & _ & Hperm & _). rewrite Hperm. by rewrite length_fmap.
Qed.

(** A new entry filed under a key that is not in the container. *)
Lemma consistent_push (st : state M) hkey p e (m : M) al :
  consistent st →
  hkey ∉ (xcache (cache st)).*1 →
  heap st !! p = None →
  hashkey e = hkey → is_Some (data e) →
  consistent
    (mkState (set_xcache ((hkey, p) :: xcache (cache st))
                (set_mru (mru (cache st) ++ [p]) (cache st)))
       (<[p := e]> (heap st)) m al).
Proof.
  intros (Hk & Hp & Hperm & Hlive & Hmax) Hkey Hfresh Hh Hd.
  assert (Hpn : p ∉ (xcache (cache st)).*2).
  { intros Hin. apply list_elem_of_fmap in Hin as ([k q] & -> & Hin).
    destruct (Hlive k q Hin) as (e' & He' & _). cbn in *. congruence. }
  unfold consistent. cbn. split_and!; try done.
  - by apply NoDup_cons.
  - by apply NoDup_cons.
  - rewrite <- Hperm. by rewrite Permutation_app_comm.
  - intros k q Hin. apply elem_of_cons in Hin as [[= -> ->]|Hin].
    + exists e. by rewrite lookup_insert_eq.
    + destruct (Hlive k q Hin) as (e' & He' & Hrest). exists e'. split; [|done].
      rewrite lookup_insert_ne; [done|]. intros <-. congruence.
Qed.

(** The promotion of an entry that is in the container. *)
Lemma consistent_touch (st : state M) hkey p :
  consistent st →
  xfind (xcache (cache st)) hkey = Some p →
  consistent (set_cache (set_xcache ((hkey, p) :: xdrop (xcache (cache st)) hkey)
                           (cache st)) st) ∧
  length (xdrop (xcache (cache st)) hkey) = pred (length (xcache (cache st))).
Proof.
  intros (Hk & Hp & Hperm & Hlive & Hmax) Hfind.
  destruct (xdrop_found _ _ _ Hfind) as (xc1 & xc2 & Hxc & Hdrop).
  assert (Hmid : (hkey, p) :: xc1 ++ xc2 ≡ₚ xcache (cache st)).
  { rewrite Hxc. apply Permutation_middle. }
  split.
  - unfold consistent. cbn. rewrite Hdrop. split_and!; try done.
    + change (NoDup ((hkey, p) :: xc1 ++ xc2).*1). by rewrite Hmid.
    + change (NoDup ((hkey, p) :: xc1 ++ xc2).*2). by rewrite Hmid.
    + change (mru (cache st) ≡ₚ ((hkey, p) :: xc1 ++ xc2).*2). by rewrite Hmid.
    + intros k q Hin. apply Hlive. by rewrite <- Hmid.
  - rewrite Hdrop, Hxc, !length_app. cbn. lia.
Qed.

(** The read of a chunk that is not in the cache but in the store. *)
Lemma read_miss_present (st st1 : state M) idx ck vk buf :
  let hkey := ncxcachekey (take (ndims (cache st)) idx) in
  let p := fresh (dom (heap st1)) in
  ncxcachelookup (xcache (cache st)) hkey = (NC_ENOTFOUND, None) →
  makeroom st = Done (NC_NOERR, st1) →
  Forall (λ b, b = true) (take 3 (allocs st1)) →
  NCZ_buildchunkkey (ndims (cache st1)) idx (dimension_separator (cache st1))
    = Done (NC_NOERR, ck) →
  NCZ_varkey (var (cache st1)) = (NC_NOERR, vk) →
  nczmap_read (zmap st1)
    (NCZ_chunkpath (mkChunkKey (Some vk) (Some ck)) (dimension_separator (cache st1)))
    0 (chunksize (cache st1)) (zeroes (chunksize (cache st1))) = (NC_NOERR, buf) →
  read st idx =
    Done (NC_NOERR, Some p,
          mkState
            (set_xcache ((hkey, p) :: xcache (cache st1))
               (set_mru (mru (cache st1) ++ [p]) (cache st1)))
            (<[p := mkEntry false (take (ndims (cache st1)) idx)
                      (mkChunkKey (Some vk) (Some ck)) hkey (Some buf)]> (heap st1))
            (zmap st1) (drop 3 (allocs st1))).
Proof.
  intros hkey p Hmiss Hroom Hal Hck Hvk Hrd.
  apply allocs_three in Hal as [Hal Hnext].
  pose proof (read_miss_unfold _ _ Hmiss) as Hnone.
  destruct (makeroom_frame _ _ _ Hroom) as (_ & _ & Hkeys).
  assert (Hfresh : hkey ∉ (xcache (cache st1)).*1).
  { intros Hin. apply Hkeys in Hin. by apply xfind_None_notin in Hnone. }
  unfold NCZ_read_cache_chunk.
  rewrite (key_built_in_bounds _ _ _ _ _ Hroom Hck). fold hkey. rewrite Hmiss. cbn.
  rewrite Hroom. cbn.
  rewrite (new_entry_ok st1 idx hkey ck vk) by done. cbn. fold p.
  unfold get_chunk. cbn. rewrite lookup_insert_eq. cbn. rewrite Hrd. cbn.
  unfold ncxcacheinsert. cbn. rewrite Hnext. cbn.
  rewrite lookup_insert_eq. cbn. unfold finish. cbn.
  unfold nclistpush, set_heap, set_cache, set_xcache, set_mru, set_data. cbn.
  rewrite !insert_insert_eq, xdrop_notin by done. done.
Qed.

(** After [makeroom] a read that missed either fails in one of the four
    ways, or builds its entry and is told by the store that the chunk is
    there or that it is absent. *)
Lemma miss_cases (st1 : state M) idx :
  islegaldimsep (dimension_separator (cache st1)) = true →
  length idx = ndims (cache st1) →
  (∃ stat, miss_failure st1 idx stat) ∨
  (∃ ck vk buf stat,
     Forall (λ b, b = true) (take 2 (allocs st1)) ∧
     NCZ_buildchunkkey (ndims (cache st1)) idx (dimension_separator (cache st1))
       = Done (NC_NOERR, ck) ∧
     NCZ_varkey (var (cache st1)) = (NC_NOERR, vk) ∧
     nczmap_read (zmap st1)
       (NCZ_chunkpath (mkChunkKey (Some vk) (Some ck)) (dimension_separator (cache st1)))
       0 (chunksize (cache st1)) (zeroes (chunksize (cache st1))) = (stat, buf) ∧
     (stat = NC_NOERR ∨ stat = NC_EEMPTY)).
Proof.
  intros Hsep Hlen.
  pose proof (NCZ_buildchunkkey_join _ idx _ Hsep Hlen) as Hck.
  set (ck := string_of_list_ascii _) in Hck.
  destruct (allocs st1) as [|[] [|[] al]] eqn:Hal;
    try (left; exists NC_ENOMEM; by eapply fail_entry_alloc);
    try (left; exists NC_ENOMEM; by eapply fail_data_alloc).
  all: assert (Hall : Forall (λ b, b = true) (take 2 (allocs st1)))
         by (rewrite Hal; cbn; repeat constructor).
  all: assert (Hall' := Hall); rewrite Hal in Hall'.
  all: destruct (NCZ_varkey (var (cache st1))) as [s vk] eqn:Hvk.
  all: destruct (decide (s = NC_NOERR)) as [->|Hs];
         [|left; exists s; by eapply fail_key].
  all: destruct (nczmap_read (zmap st1)
         (NCZ_chunkpath (mkChunkKey (Some vk) (Some ck)) (dimension_separator (cache st1)))
         0 (chunksize (cache st1)) (zeroes (chunksize (cache st1)))) as [s buf] eqn:Hrd.
  all: destruct (decide (s = NC_NOERR)) as [->|Hs1];
         [right; exists ck, vk, buf, NC_NOERR; split_and!; try done; by left|].
  all: destruct (decide (s = NC_EEMPTY)) as [->|Hs2];
         [right; exists ck, vk, buf, NC_EEMPTY; split_and!; try done; by right|].
  all: left; exists s; by eapply fail_fetch.
Qed.

Lemma makeroom_consistent (st : state M) :
  consistent st →
  ∃ stat' st' evicted es,
    makeroom st = Done (stat', st') ∧
    consistent st' ∧
    settings (cache st') = settings (cache st) ∧ allocs st' = allocs st ∧
    xcache (cache st) = xcache (cache st') ++ evicted ∧
    Z.of_nat (length (mru (cache st'))) ≤ maxentries (cache st) ∧
    (Z.of_nat (length (mru (cache st))) ≤ maxentries (cache st) → evicted = []) ∧
    Forall2 (λ kp e, heap st !! kp.2 = Some e) (reverse evicted) es ∧
    (stat', zmap st') = evictions (cache st) es (NC_NOERR, zmap st) ∧
    (∀ q, heap st' !! q =
            if bool_decide (q ∈ evicted.*2) then None else heap st !! q).
Proof. intros Hcons. by apply makeroom_loop_consistent. Qed.

(** When the coming allocations succeed, a read on a consistent cache
    returns, keeps the cache consistent, and leaves at most one entry more
    than the capacity. *)
Lemma read_step (st : state M) idx :
  consistent st →
  islegaldimsep (dimension_separator (cache st)) = true →
  length idx = ndims (cache st) →
  Forall (λ b, b = true) (allocs st) →
  ∃ stat datap st',
    read st idx = Done (stat, datap, st') ∧
    consistent st' ∧
    settings (cache st') = settings (cache st) ∧
    Z.of_nat (length (mru (cache st')))
      ≤ Z.max (Z.of_nat (length (mru (cache st)))) (maxentries (cache st) + 1) ∧
    Forall (λ b, b = true) (allocs st').
Proof.
  intros Hcons Hsep Hlen Hsucc.
  assert (Hinb : (ndims (cache st) ≤ length idx)%nat) by lia.
  destruct (xfind (xcache (cache st)) (ncxcachekey (take (ndims (cache st)) idx)))
    as [p|] eqn:Hfind.
  - (* hit *)
    destruct (consistent_touch st _ p Hcons Hfind) as [Hcons' _].
    assert (Hlive : ∃ e, heap st !! p = Some e).
    { destruct Hcons as (_ & _ & _ & Hlive & _).
      destruct (Hlive _ p (xfind_Some_in _ _ _ Hfind)) as (e & He & _). by exists e. }
    destruct Hlive as [e He].
    unfold NCZ_read_cache_chunk, ncxcachelookup, ncxcachetouch.
    rewrite (proj2 (Nat.ltb_ge _ _) Hinb), Hfind. cbn.
    rewrite He. cbn. eexists _, _, _. split; [reflexivity|].
    split; [exact Hcons'|]. split; [done|]. cbn. split; [lia|done].
  - (* miss *)
    assert (Hmiss : ncxcachelookup (xcache (cache st))
                      (ncxcachekey (take (ndims (cache st)) idx)) = (NC_ENOTFOUND, None))
      by (unfold ncxcachelookup; by rewrite Hfind).
    destruct (makeroom_consistent st Hcons)
      as (s1 & st1 & evicted & es & Hroom & Hcons1 & Hset & Hal & Hxc & Hlen1 & _).
    assert (Hmax : maxentries (cache st1) = maxentries (cache st)) by (by injection Hset).
    assert (Hsucc1 : Forall (λ b, b = true) (allocs st1)) by (by rewrite Hal).
    destruct (decide (s1 = NC_NOERR)) as [->|Hs1].
    2:{ unfold NCZ_read_cache_chunk. rewrite (proj2 (Nat.ltb_ge _ _) Hinb).
        rewrite Hmiss. cbn. rewrite Hroom. cbn.
        rewrite (eqb_status_ne _ _ Hs1). cbn.
        eexists _, _, _. split; [reflexivity|]. cbn. split_and!; try done. lia. }
    assert (Hsep1 : islegaldimsep (dimension_separator (cache st1)) = true).
    { replace (dimension_separator (cache st1)) with (dimension_separator (cache st));
        [done|by injection Hset]. }
    assert (Hlen1' : length idx = ndims (cache st1)).
    { replace (ndims (cache st1)) with (ndims (cache st)); [done|by injection Hset]. }
    assert (Hkey : ncxcachekey (take (ndims (cache st)) idx) ∉ (xcache (cache st1)).*1).
    { intros Hin. apply xfind_None_notin in Hfind. apply Hfind.
      rewrite Hxc, fmap_app. apply elem_of_app. by left. }
    assert (Hthree : Forall (λ b, b = true) (take 3 (allocs st1))) by (by apply Forall_take).
    destruct (miss_cases st1 idx Hsep1 Hlen1')
      as [[s Hfail] | (ck & vk & buf & s & Hall & Hck & Hvk & Hrd & [-> | ->])].
    + destruct (read_miss_fails st st1 idx s Hmiss Hroom Hinb Hfail)
        as (st' & Hread & _ & Hc & Hh & _ & _ & n & Hn).
      exists s, None, st'. split; [exact Hread|].
      split; [by eapply consistent_same|]. rewrite Hc. split; [done|].
      split; [lia|]. rewrite Hn. by apply Forall_drop.
    + rewrite (read_miss_present st st1 idx ck vk buf) by done.
      eexists _, _, _. split; [reflexivity|]. split.
      { apply consistent_push; try done. apply fresh_heap_None. }
      split; [done|]. cbn. rewrite length_app. cbn. split; [lia|by apply Forall_drop].
    + rewrite (read_miss_absent st st1 idx ck vk buf) by done.
      eexists _, _, _. split; [reflexivity|]. split.
      { apply consistent_push; try done. apply fresh_heap_None. }
      split; [done|]. cbn. rewrite length_app. cbn. split; [lia|by apply Forall_drop].
Qed.

(** The flush allocates nothing. *)
Lemma flush_loop_allocs (l : list addr) : ∀ (st : state M) stat st',
  flush_loop l st = Done (stat, st') → allocs st' = allocs st.
Proof.
  induction l as [|p l IH]; intros st stat st'; cbn.
  { by intros [= _ <-]. }
  destruct (heap st !! p) as [e|]; [|done].
  destruct (modified e).
  - destruct (put_chunk st e) as [[s st1]| |] eqn:Hput; cbn; try done.
    apply put_chunk_frame in Hput as (_ & _ & Hal).
    destruct (s =? NC_NOERR); cbn.
    + intros Hl. apply IH in Hl. cbn in Hl. congruence.
    + intros [= _ <-]. done.
  - cbn. intros Hl. apply IH in Hl. cbn in Hl. done.
Qed.

Lemma flush_allocs (st : state M) stat st' :
  NCZ_flush_chunk_cache st = Done (stat, st') → allocs st' = allocs st.
Proof.
  unfold NCZ_flush_chunk_cache. destruct (_ =? 0).
  - by intros [= _ <-].
  - apply flush_loop_allocs.
Qed.

(** A flush on a consistent cache returns and changes neither the cache
    structure nor the consistency. *)
Lemma flush_step (st : state M) :
  consistent st →
  ∃ stat st',
    NCZ_flush_chunk_cache st = Done (stat, st') ∧
    consistent st' ∧ cache st' = cache st.
Proof.
  intros Hcons.
  destruct (flush_spec st (consistent_NoDup_mru st Hcons)
              (λ p Hp, consistent_live st p Hcons Hp))
    as (stat & st' & k & es & m & Hrun & Hc & _ & _ & Hin & Hout & _).
  exists stat, st'. split; [exact Hrun|]. split; [|exact Hc].
  destruct Hcons as (Hk & Hp & Hperm & Hlive & Hmax).
  unfold consistent. rewrite Hc. split_and!; try done.
  intros k' q Hq. destruct (Hlive k' q Hq) as (e & He & Hh & Hd).
  destruct (decide (q ∈ take k (mru (cache st)))) as [Hqin|Hqout].
  - exists (set_modified false e). by rewrite Hin, He.
  - exists e. by rewrite Hout.
Qed.

(** The invariant of the sequences of reads and flushes whose allocations
    succeed. *)
Lemma run_ops_invariant (ops : list op) : ∀ st : state M,
  consistent st →
  islegaldimsep (dimension_separator (cache st)) = true →
  Z.of_nat (length (mru (cache st))) ≤ maxentries (cache st) + 1 →
  Forall (λ b, b = true) (allocs st) →
  Forall (valid_op (cache st)) ops →
  ∃ st',
    run ops st = Done st' ∧
    consistent st' ∧
    settings (cache st') = settings (cache st) ∧
    Z.of_nat (length (mru (cache st'))) ≤ maxentries (cache st) + 1.
Proof.
  induction ops as [|o ops IH]; intros st Hcons Hsep Hlen Hsucc Hvalid.
  { exists st. done. }
  apply Forall_cons in Hvalid as [Ho Hvalid].
  destruct o as [idx|]; cbn [run_ops].
  - destruct (read_step st idx Hcons Hsep Ho Hsucc)
      as (s & d & st1 & -> & Hcons1 & Hset & Hlen1 & Hsucc1).
    cbn.
    assert (Hmax : maxentries (cache st1) = maxentries (cache st)) by (by injection Hset).
    destruct (IH st1) as (st' & Hrun & Hcons' & Hset' & Hlen'); try done.
    + replace (dimension_separator (cache st1)) with (dimension_separator (cache st));
        [done|by injection Hset].
    + lia.
    + eapply Forall_impl; [exact Hvalid|]. intros [idx'|]; [|done]. cbn.
      replace (ndims (cache st1)) with (ndims (cache st)); [done|by injection Hset].
    + exists st'. split; [exact Hrun|]. split; [done|].
      rewrite Hset', Hset. split; [done|]. lia.
  - destruct (flush_step st Hcons) as (s & st1 & Hflush & Hcons1 & Hc).
    pose proof (flush_allocs st s st1 Hflush) as Hal.
    rewrite Hflush.
    cbn. destruct (IH st1) as (st' & Hrun & Hcons' & Hset' & Hlen'); try done;
      rewrite ?Hc, ?Hal; try done.
    exists st'. rewrite Hc in Hset', Hlen'. done.
Qed.

(** X22: through any sequence of reads and flushes on a consistent cache of
    capacity [N], when the allocations succeed, every operation returns, the
    hash container and the recency list stay equally long, and they hold at
    most [N + 1] entries; and whenever [makeroom] returns [NC_NOERR] the
    recency list holds at most [maxentries] entries. *)
Theorem X22_entry_count_bound (ops : list op) (st : state M) :
  consistent st →
  islegaldimsep (dimension_separator (cache st)) = true →
  Z.of_nat (length (mru (cache st))) ≤ maxentries (cache st) + 1 →
  Forall (λ b, b = true) (allocs st) →
  Forall (valid_op (cache st)) ops →
  (∃ st',
     run ops st = Done st' ∧
     maxentries (cache st') = maxentries (cache st) ∧
     length (xcache (cache st')) = length (mru (cache st')) ∧
     Z.of_nat (length (xcache (cache st'))) ≤ maxentries (cache st) + 1) ∧
  (∀ st0 st1 : state M,
     makeroom st0 = Done (NC_NOERR, st1) →
     Z.of_nat (length (mru (cache st1))) ≤ maxentries (cache st1)).
Proof.
  intros Hcons Hsep Hlen Hsucc Hvalid. split.
  - destruct (run_ops_invariant ops st Hcons Hsep Hlen Hsucc Hvalid)
      as (st' & Hrun & Hcons' & Hset & Hlen').
    exists st'. split; [exact Hrun|]. split; [by injection Hset|].
    rewrite (consistent_length st' Hcons'). done.
  - apply makeroom_success_bound.
Qed.

(** *** The adjustment *)

(** C7: on a consistent cache whose variable has a chunk size that is not
    zero, [NCZ_adjust_var_cache] first runs [makeroom] with a capacity of
    zero, which evicts every entry, least recently used first, handing the
    modified ones to the store; it then sets the capacity to the greater of
    one and the quotient of the byte budget by the chunk size of the
    variable (so to one when the budget is below the chunk size), takes the
    chunk size over from the variable and drops the fill chunk. *)
Theorem C7_adjust_var_cache (st : state M) :
  let v := var (cache st) in
  consistent st →
  0 < zvar_chunksize v →
  0 ≤ chunk_cache_size v →
  ∃ st' stat st0 es,
    NCZ_adjust_var_cache st = Done (NC_NOERR, st') ∧
    makeroom (set_cache (set_maxentries 0 (cache st)) st) = Done (stat, st0) ∧
    mru (cache st0) = [] ∧ xcache (cache st0) = [] ∧
    Forall2 (λ kp e, heap st !! kp.2 = Some e) (reverse (xcache (cache st))) es ∧
    (stat, zmap st0) = evictions (cache st) es (NC_NOERR, zmap st) ∧
    (∀ q, q ∈ mru (cache st) → heap st0 !! q = None) ∧
    maxentries (cache st') = Z.max 1 (chunk_cache_size v / zvar_chunksize v) ∧
    (chunk_cache_size v < zvar_chunksize v → maxentries (cache st') = 1) ∧
    chunksize (cache st') = zvar_chunksize v ∧
    fillchunk (cache st') = None ∧
    mru (cache st') = [] ∧ xcache (cache st') = [] ∧
    heap st' = heap st0 ∧ zmap st' = zmap st0.
Proof.
  intros v Hcons Hcs Hbudget.
  assert (Hcons0 : consistent (set_cache (set_maxentries 0 (cache st)) st)).
  { destruct Hcons as (Hk & Hp & Hperm & Hlive & Hmax).
    unfold consistent. cbn. split_and!; done. }
  destruct (makeroom_consistent _ Hcons0)
    as (stat & st0 & evicted & es & Hroom & Hcons' & Hset & Hal & Hxc & Hlen & _
        & Hes & Hev & Hheap).
  cbn in Hxc, Hlen, Hes, Hev, Hheap.
  assert (Hmru : mru (cache st0) = []) by (apply length_zero_iff_nil; lia).
  assert (Hxc0 : xcache (cache st0) = []).
  { apply length_zero_iff_nil. rewrite (consistent_length st0 Hcons'), Hmru. done. }
  rewrite Hxc0 in Hxc. cbn in Hxc. subst evicted.
  assert (Hq : 0 ≤ chunk_cache_size v / zvar_chunksize v) by (apply Z.div_pos; lia).
  assert (Hnelems :
    (if chunk_cache_size v / zvar_chunksize v =? 0 then 1
     else chunk_cache_size v / zvar_chunksize v)
    = Z.max 1 (chunk_cache_size v / zvar_chunksize v)).
  { destruct (Z.eqb_spec (chunk_cache_size v / zvar_chunksize v) 0); lia. }
  exists (set_cache
            (mkCache (var (cache st0)) (ndims (cache st0)) (zvar_chunksize v)
               (dimension_separator (cache st0))
               (Z.max 1 (chunk_cache_size v / zvar_chunksize v)) None
               (mru (cache st0)) (xcache (cache st0))) st0), stat, st0, es.
  split.
  { unfold NCZ_adjust_var_cache, floordiv. fold v. rewrite Hroom. cbn.
    rewrite (eqb_status_ne (zvar_chunksize v) 0) by lia. by rewrite Hnelems. }
  split; [exact Hroom|]. split; [exact Hmru|]. split; [exact Hxc0|].
  split; [exact Hes|]. split; [exact Hev|]. split.
  { intros q Hqin. rewrite Hheap.
    destruct Hcons as (_ & _ & Hperm & _). rewrite Hperm in Hqin.
    by rewrite bool_decide_eq_true_2. }
  cbn. split_and!; try done.
  intros Hlt. rewrite Z.div_small by lia. done.
Qed.

(** * Further properties of the cache operations *)

Import Lifecycle.

(** *** What a read does, case by case *)

(** On a consistent cache a read ends in one of five ways: the chunk is in
    the container; [makeroom] fails; the entry cannot be built or fetched;
    the entry is built and filed; the entry is built and pushed on the
    recency list, and cannot be filed. *)
Lemma read_outcome (st : state M) idx :
  let hkey := ncxcachekey (take (ndims (cache st)) idx) in
  consistent st →
  islegaldimsep (dimension_separator (cache st)) = true →
  length idx = ndims (cache st) →
  (∃ p e,
     xfind (xcache (cache st)) hkey = Some p ∧ heap st !! p = Some e ∧
     read st idx =
       Done (NC_NOERR, Some p,
             set_cache (set_xcache ((hkey, p) :: xdrop (xcache (cache st)) hkey)
                          (cache st)) st)) ∨
  (∃ stat st1,
     xfind (xcache (cache st)) hkey = None ∧
     makeroom st = Done (stat, st1) ∧ stat ≠ NC_NOERR ∧
     read st idx = Done (stat, None, st1)) ∨
  (∃ stat st1 st',
     xfind (xcache (cache st)) hkey = None ∧
     makeroom st = Done (NC_NOERR, st1) ∧ miss_failure st1 idx stat ∧
     stat ≠ NC_NOERR ∧
     read st idx = Done (stat, None, st') ∧
     cache st' = cache st1 ∧ heap st' = heap st1 ∧ zmap st' = zmap st1) ∨
  (∃ stat st1 ck vk buf created,
     xfind (xcache (cache st)) hkey = None ∧
     makeroom st = Done (NC_NOERR, st1) ∧
     heap st1 !! fresh (dom (heap st1)) = None ∧
     (hkey ∉ (xcache (cache st1)).*1) ∧
     NCZ_buildchunkkey (ndims (cache st)) idx (dimension_separator (cache st))
       = Done (NC_NOERR, ck) ∧
     NCZ_varkey (var (cache st)) = (NC_NOERR, vk) ∧
     (created = false ∧ stat = NC_NOERR ∨
      created = true ∧ stat = NC_EEMPTY ∧ buf = zeroes (chunksize (cache st))) ∧
     read st idx =
       Done (stat, Some (fresh (dom (heap st1))),
             mkState
               (set_xcache ((hkey, fresh (dom (heap st1))) :: xcache (cache st1))
                  (set_mru (mru (cache st1) ++ [fresh (dom (heap st1))]) (cache st1)))
               (<[fresh (dom (heap st1)) :=
                    mkEntry (created && negb (no_write (var (cache st))))
                      (take (ndims (cache st)) idx)
                      (mkChunkKey (Some vk) (Some ck)) hkey (Some buf)]> (heap st1))
               (zmap st1) (drop 3 (allocs st1)))) ∨
  (∃ st1 rest,
     xfind (xcache (cache st)) hkey = None ∧
     makeroom st = Done (NC_NOERR, st1) ∧
     heap st1 !! fresh (dom (heap st1)) = None ∧
     allocs st1 = true :: true :: false :: rest ∧
     read st idx =
       Done (NC_ENOMEM, None,
             mkState (set_mru (mru (cache st1) ++ [fresh (dom (heap st1))]) (cache st1))
               (heap st1) (zmap st1) rest)).
Proof.
  intros hkey Hcons Hsep Hlen.
  assert (Hinb : (ndims (cache st) ≤ length idx)%nat) by lia.
  destruct (xfind (xcache (cache st)) hkey) as [p|] eqn:Hfind.
  - left.
    assert (Hlive : ∃ e, heap st !! p = Some e).
    { destruct Hcons as (_ & _ & _ & Hlive & _).
      destruct (Hlive _ p (xfind_Some_in _ _ _ Hfind)) as (e & He & _). by exists e. }
    destruct Hlive as [e He]. exists p, e. split; [done|]. split; [done|].
    assert (Hd : is_Some (data e)).
    { destruct Hcons as (_ & _ & _ & Hlive & _).
      destruct (Hlive _ p (xfind_Some_in _ _ _ Hfind)) as (e' & He' & _ & Hd).
      congruence. }
    destruct Hd as [d Hd].
    unfold NCZ_read_cache_chunk, ncxcachelookup, ncxcachetouch.
    rewrite (proj2 (Nat.ltb_ge _ _) Hinb). fold hkey. rewrite Hfind. cbn.
    rewrite He. cbn. by rewrite Hd.
  - right.
    assert (Hmiss : ncxcachelookup (xcache (cache st)) hkey = (NC_ENOTFOUND, None))
      by (unfold ncxcachelookup; by rewrite Hfind).
    destruct (makeroom_consistent st Hcons)
      as (s1 & st1 & evicted & es & Hroom & Hcons1 & Hset & Hal & Hxc & Hlen1 & _).
    destruct (decide (s1 = NC_NOERR)) as [->|Hs1].
    2:{ left. exists s1, st1. split; [done|]. split; [done|]. split; [done|].
        unfold NCZ_read_cache_chunk. rewrite (proj2 (Nat.ltb_ge _ _) Hinb).
        fold hkey. rewrite Hmiss. cbn. rewrite Hroom. cbn.
        by rewrite (eqb_status_ne _ _ Hs1). }
    right.
    assert (Hsep1 : islegaldimsep (dimension_separator (cache st1)) = true).
    { replace (dimension_separator (cache st1)) with (dimension_separator (cache st));
        [done|by injection Hset]. }
    assert (Hnd : ndims (cache st1) = ndims (cache st)) by (by injection Hset).
    assert (Hsp : dimension_separator (cache st1) = dimension_separator (cache st))
      by (by injection Hset).
    assert (Hvar : var (cache st1) = var (cache st)) by (by injection Hset).
    assert (Hcs : chunksize (cache st1) = chunksize (cache st)) by (by injection Hset).
    assert (Hlen1' : length idx = ndims (cache st1)) by congruence.
    assert (Hkey : hkey ∉ (xcache (cache st1)).*1).
    { intros Hin. apply xfind_None_notin in Hfind. apply Hfind.
      rewrite Hxc, fmap_app. apply elem_of_app. by left. }
    destruct (miss_cases st1 idx Hsep1 Hlen1')
      as [[s Hfail] | (ck & vk & buf & s & Hall & Hck & Hvk & Hrd & [-> | ->])].
    + left.
      destruct (read_miss_fails st st1 idx s Hmiss Hroom Hinb Hfail)
        as (st' & Hread & Hs & Hc & Hh & Hm & _).
      exists s, st1, st'. done.
    + right. destruct (third_alloc _ Hall) as [Hthree | [rest Hrest]].
      * left. exists NC_NOERR, st1, ck, vk, buf, false.
        split; [done|]. split; [done|]. split; [apply fresh_heap_None|].
        split; [done|]. split; [by rewrite <- Hnd, <- Hsp|].
        split; [by rewrite <- Hvar|]. split; [by left|].
        rewrite (read_miss_present st st1 idx ck vk buf) by done.
        by rewrite Hnd.
      * right. exists st1, rest.
        split; [done|]. split; [done|]. split; [apply fresh_heap_None|].
        split; [done|].
        apply (read_miss_unfiled st st1 idx ck vk NC_NOERR buf rest); try done. by left.
    + right. destruct (third_alloc _ Hall) as [Hthree | [rest Hrest]].
      * left. exists NC_EEMPTY, st1, ck, vk, (zeroes (chunksize (cache st))), true.
        split; [done|]. split; [done|]. split; [apply fresh_heap_None|].
        split; [done|]. split; [by rewrite <- Hnd, <- Hsp|].
        split; [by rewrite <- Hvar|]. split; [by right|].
        rewrite (read_miss_absent st st1 idx ck vk buf) by done.
        by rewrite Hnd, Hvar, Hcs.
      * right. exists st1, rest.
        split; [done|]. split; [done|]. split; [apply fresh_heap_None|].
        split; [done|].
        apply (read_miss_unfiled st st1 idx ck vk NC_EEMPTY buf rest); try done. by right.
Qed.

(** *** Hits *)

Lemma consistent_fill (st : state M) p e buf :
  consistent st → heap st !! p = Some e →
  consistent (set_heap (<[p := set_data (Some buf) e]> (heap st)) st).
Proof.
  intros (Hk & Hp & Hperm & Hlive & Hmax) He.
  unfold consistent. cbn. split_and!; try done.
  intros k q Hq. destruct (Hlive k q Hq) as (e' & He' & Hh & Hd).
  destruct (decide (q = p)) as [->|Hne].
  - exists (set_data (Some buf) e). rewrite lookup_insert_eq.
    split; [done|]. split; [|by eexists]. cbn. congruence.
  - exists e'. by rewrite lookup_insert_ne.
Qed.

(** The read that finds its chunk. *)
Lemma read_hit (st : state M) idx p :
  let hkey := ncxcachekey (take (ndims (cache st)) idx) in
  consistent st →
  (ndims (cache st) ≤ length idx)%nat →
  xfind (xcache (cache st)) hkey = Some p →
  ∃ st',
    read st idx = Done (NC_NOERR, Some p, st') ∧
    xcache (cache st') = (hkey, p) :: xdrop (xcache (cache st)) hkey ∧
    mru (cache st') = mru (cache st) ∧
    settings (cache st') = settings (cache st) ∧
    heap st' = heap st ∧ zmap st' = zmap st ∧ allocs st' = allocs st ∧
    consistent st'.
Proof.
  intros hkey Hcons Hinb Hfind.
  destruct (consistent_touch st _ p Hcons Hfind) as [Hcons' _].
  assert (Hlive : ∃ e, heap st !! p = Some e ∧ is_Some (data e)).
  { destruct Hcons as (_ & _ & _ & Hlive & _).
    destruct (Hlive _ p (xfind_Some_in _ _ _ Hfind)) as (e & He & _ & Hd). by exists e. }
  destruct Hlive as (e & He & d & Hd).
  eexists. split.
  - unfold NCZ_read_cache_chunk, ncxcachelookup, ncxcachetouch.
    rewrite (proj2 (Nat.ltb_ge _ _) Hinb). fold hkey. rewrite Hfind. cbn.
    rewrite He. cbn. by rewrite Hd.
  - cbn. by split_and!.
Qed.

(** X1: the read of a chunk whose digest is in the container of a consistent
    cache returns [NC_NOERR] and the buffer of the entry filed there, makes
    that entry the most recently used one, and touches neither the recency
    list, nor the heap, nor the store, nor the allocator. *)
Theorem X1_read_hit (st : state M) idx p :
  let hkey := ncxcachekey (take (ndims (cache st)) idx) in
  consistent st →
  (ndims (cache st) ≤ length idx)%nat →
  xfind (xcache (cache st)) hkey = Some p →
  ∃ st',
    read st idx = Done (NC_NOERR, Some p, st') ∧
    xcache (cache st') = (hkey, p) :: xdrop (xcache (cache st)) hkey ∧
    mru (cache st') = mru (cache st) ∧
    settings (cache st') = settings (cache st) ∧
    heap st' = heap st ∧ zmap st' = zmap st ∧ allocs st' = allocs st ∧
    consistent st'.
Proof. apply read_hit. Qed.

(** What the reads that hand out a buffer have in common. *)
Lemma read_buffer_filed (st : state M) idx stat p st' :
  let hkey := ncxcachekey (take (ndims (cache st)) idx) in
  consistent st →
  islegaldimsep (dimension_separator (cache st)) = true →
  length idx = ndims (cache st) →
  read st idx = Done (stat, Some p, st') →
  (stat = NC_NOERR ∨ stat = NC_EEMPTY) ∧
  consistent st' ∧
  settings (cache st') = settings (cache st) ∧
  ∃ rest, xcache (cache st') = (hkey, p) :: rest.
Proof.
  intros hkey Hcons Hsep Hlen Hread.
  destruct (read_outcome st idx Hcons Hsep Hlen)
    as [(q & e & Hfind & He & Hr) | [(s & st1 & _ & _ & _ & Hr)
       | [(s & st1 & st2 & _ & _ & _ & _ & Hr & _)
         | [(s & st1 & ck & vk & buf & created & Hfind & Hroom & Hfresh & Hkey
              & Hck & Hvk & Hcr & Hr)
           | (st1 & rest & _ & _ & _ & _ & Hr)]]]];
    rewrite Hr in Hread; try done.
  - injection Hread as <- <- <-. split; [by left|].
    destruct (consistent_touch st _ q Hcons Hfind) as [Hcons' _].
    split; [done|]. split; [done|]. by eexists.
  - injection Hread as <- <- <-.
    destruct (makeroom_consistent st Hcons) as (s1 & st1' & ev & es & Hroom' & Hcons1 & Hset & _).
    rewrite Hroom in Hroom'. injection Hroom' as <- <-.
    split; [destruct Hcr as [[_ ->]|(_ & -> & _)]; auto|].
    split.
    { by apply consistent_push. }
    split; [done|]. by eexists.
Qed.

(** X2: when a read on a consistent cache has handed out a buffer and the
    caller has put bytes into it, the next read of the same chunk returns
    [NC_NOERR] and the same buffer, holding those bytes, without going to
    the store. *)
Theorem X2_read_fill_read (st st1 st2 : state M) idx stat p buf :
  consistent st →
  islegaldimsep (dimension_separator (cache st)) = true →
  length idx = ndims (cache st) →
  read st idx = Done (stat, Some p, st1) →
  fill_buffer p buf st1 = Done st2 →
  ∃ st3 e,
    read st2 idx = Done (NC_NOERR, Some p, st3) ∧
    heap st3 !! p = Some e ∧ data e = Some buf ∧
    zmap st3 = zmap st1 ∧ mru (cache st3) = mru (cache st1).
Proof.
  intros Hcons Hsep Hlen Hread Hfill.
  destruct (read_buffer_filed st idx stat p st1 Hcons Hsep Hlen Hread)
    as (_ & Hcons1 & Hset & rest & Hxc).
  unfold fill_buffer in Hfill.
  destruct (heap st1 !! p) as [e|] eqn:He; [|done]. injection Hfill as <-.
  assert (Hnd : ndims (cache st1) = ndims (cache st)) by (by injection Hset).
  destruct (read_hit (set_heap (<[p := set_data (Some buf) e]> (heap st1)) st1) idx p)
    as (st3 & Hr & _ & Hmru & _ & Hh & Hm & _).
  - by apply consistent_fill.
  - cbn. lia.
  - cbn. rewrite Hxc, Hnd. cbn. by rewrite Z.eqb_refl.
  - exists st3, (set_data (Some buf) e). split; [exact Hr|].
    rewrite Hh. cbn. rewrite lookup_insert_eq. done.
Qed.

(** X3: a read on a consistent cache always returns; [NC_NOERR] never comes
    without a buffer, and a buffer comes with [NC_NOERR] or [NC_EEMPTY] only
    and is the buffer of a live entry that the container then finds under
    the digest of the indices. *)
Theorem X3_read_status_and_buffer (st : state M) idx :
  let hkey := ncxcachekey (take (ndims (cache st)) idx) in
  consistent st →
  islegaldimsep (dimension_separator (cache st)) = true →
  length idx = ndims (cache st) →
  ∃ stat datap st',
    read st idx = Done (stat, datap, st') ∧
    (stat = NC_NOERR → is_Some datap) ∧
    (∀ p, datap = Some p →
       (stat = NC_NOERR ∨ stat = NC_EEMPTY) ∧
       xfind (xcache (cache st')) hkey = Some p ∧
       ∃ e, heap st' !! p = Some e ∧ hashkey e = hkey ∧ is_Some (data e)).
Proof.
  intros hkey Hcons Hsep Hlen.
  assert (Hret : ∃ stat datap st', read st idx = Done (stat, datap, st')).
  { destruct (read_outcome st idx Hcons Hsep Hlen)
      as [(q & e & _ & _ & Hr) | [(s & st1 & _ & _ & Hs & Hr)
         | [(s & st1 & st2 & _ & _ & _ & Hs & Hr & _)
           | [(s & st1 & ck & vk & buf & created & _ & _ & _ & _ & _ & _ & _ & Hr)
             | (st1 & rest & _ & _ & _ & _ & Hr)]]]];
      rewrite Hr; by eexists _, _, _. }
  destruct Hret as (stat & datap & st' & Hread).
  exists stat, datap, st'. split; [exact Hread|]. split.
  - intros ->.
    destruct (read_outcome st idx Hcons Hsep Hlen)
      as [(q & e & _ & _ & Hr) | [(s & st1 & _ & _ & Hs & Hr)
         | [(s & st1 & st2 & _ & _ & _ & Hs & Hr & _)
           | [(s & st1 & ck & vk & buf & created & _ & _ & _ & _ & _ & _ & _ & Hr)
             | (st1 & rest & _ & _ & _ & _ & Hr)]]]];
      rewrite Hr in Hread; simplify_eq; try done; by eexists.
  - intros p ->.
    destruct (read_buffer_filed st idx stat p st' Hcons Hsep Hlen Hread)
      as (Hs & Hcons' & _ & rest & Hxc).
    split; [done|]. split.
    + rewrite Hxc. cbn. fold hkey. by rewrite Z.eqb_refl.
    + destruct Hcons' as (_ & _ & _ & Hlive & _).
      apply (Hlive hkey p). rewrite Hxc. apply elem_of_cons. by left.
Qed.

(** X5: the entry whose buffer a read has just handed out is not the one
    that [makeroom] evicts next, as soon as the cache holds a second entry. *)
Theorem X5_read_entry_not_next_victim (st : state M) idx stat p st' :
  consistent st →
  islegaldimsep (dimension_separator (cache st)) = true →
  length idx = ndims (cache st) →
  read st idx = Done (stat, Some p, st') →
  (2 ≤ length (xcache (cache st')))%nat →
  ∃ q, ncxcachelast (xcache (cache st')) = Some q ∧ q ≠ p.
Proof.
  intros Hcons Hsep Hlen Hread Htwo.
  destruct (read_buffer_filed st idx stat p st' Hcons Hsep Hlen Hread)
    as (_ & Hcons' & _ & rest & Hxc).
  destruct Hcons' as (_ & Hnd & _).
  rewrite Hxc in Hnd, Htwo |- *. cbn in Hnd, Htwo.
  apply NoDup_cons in Hnd as [Hnotin _].
  destruct (last rest) as [[k q]|] eqn:Hlast.
  - exists q. unfold ncxcachelast. rewrite last_cons, Hlast. cbn.
    split; [done|]. intros ->. apply Hnotin.
    apply last_Some in Hlast as [rest' ->].
    rewrite fmap_app. apply elem_of_app. right. cbn. by apply list_elem_of_singleton.
  - apply last_None in Hlast. subst rest. cbn in Htwo. lia.
Qed.

(** *** How many entries [makeroom] evicts *)

Lemma makeroom_loop_count fuel : ∀ stat (st : state M) stat' st',
  consistent st →
  makeroom_loop fuel stat st = Done (stat', st') →
  Z.of_nat (length (mru (cache st')))
    = Z.min (Z.of_nat (length (mru (cache st)))) (maxentries (cache st)).
Proof.
  induction fuel as [|fuel IH]; intros stat st stat' st' Hcons; cbn [makeroom_loop];
    destruct (Z.gtb_spec (Z.of_nat (length (mru (cache st)))) (maxentries (cache st)))
      as [Hgt|Hle]; try done; try (intros [= <- <-]; lia).
  assert (Hperm : mru (cache st) ≡ₚ (xcache (cache st)).*2) by apply Hcons.
  assert (Hmax : 0 ≤ maxentries (cache st)) by apply Hcons.
  assert (Hne : xcache (cache st) ≠ []).
  { intros Hnil. rewrite Hnil in Hperm. apply Permutation_nil_r in Hperm.
    rewrite Hperm in Hgt. cbn in Hgt. lia. }
  destruct (makeroom_body_consistent st Hcons Hne)
    as (xc & k & p & e & s1 & m1 & i & Hxc & He & Hi & Hev & Hbody & Hcons1).
  rewrite Hbody. cbn. intros Hrun.
  apply IH in Hrun; [|done]. cbn in Hrun. rewrite Hrun.
  rewrite length_delete by (by rewrite Hi).
  pose proof (lookup_lt_Some _ _ _ Hi). lia.
Qed.

(** [makeroom] evicts what exceeds the capacity. *)
Lemma makeroom_excess (st : state M) :
  consistent st →
  ∃ stat st' evicted es,
    makeroom st = Done (stat, st') ∧
    consistent st' ∧
    xcache (cache st) = xcache (cache st') ++ evicted ∧
    Z.of_nat (length evicted)
      = Z.max 0 (Z.of_nat (length (mru (cache st))) - maxentries (cache st)) ∧
    Forall2 (λ kp e, heap st !! kp.2 = Some e) (reverse evicted) es ∧
    (stat, zmap st') = evictions (cache st) es (NC_NOERR, zmap st) ∧
    (∀ q, heap st' !! q =
            if bool_decide (q ∈ evicted.*2) then None else heap st !! q) ∧
    settings (cache st') = settings (cache st) ∧ allocs st' = allocs st.
Proof.
  intros Hcons.
  destruct (makeroom_consistent st Hcons)
    as (stat & st' & evicted & es & Hroom & Hcons' & Hset & Hal & Hxc & Hlen & _
        & Hes & Hev & Hheap).
  exists stat, st', evicted, es. split_and!; try done.
  pose proof (makeroom_loop_count _ _ _ _ _ Hcons Hroom) as Hcount.
  pose proof (consistent_length st Hcons) as Hl.
  pose proof (consistent_length st' Hcons') as Hl'.
  assert (Hmax : 0 ≤ maxentries (cache st)) by apply Hcons.
  apply (f_equal length) in Hxc. rewrite length_app in Hxc. lia.
Qed.

(** X6: on a consistent cache [makeroom] returns; it evicts the least
    recently used entries, oldest first, and exactly as many as the recency
    list exceeds the capacity by (none when it fits); the entries it keeps
    stay as they are, the evicted ones are released, the modified ones among
    them are handed to the store, and the status is that of the eviction
    that came last ([NC_NOERR] when there was none). *)
Theorem X6_makeroom_evicts_excess (st : state M) :
  consistent st →
  ∃ stat st' evicted es,
    makeroom st = Done (stat, st') ∧
    consistent st' ∧
    xcache (cache st) = xcache (cache st') ++ evicted ∧
    Z.of_nat (length evicted)
      = Z.max 0 (Z.of_nat (length (mru (cache st))) - maxentries (cache st)) ∧
    Forall2 (λ kp e, heap st !! kp.2 = Some e) (reverse evicted) es ∧
    (stat, zmap st') = evictions (cache st) es (NC_NOERR, zmap st) ∧
    (∀ q, heap st' !! q =
            if bool_decide (q ∈ evicted.*2) then None else heap st !! q) ∧
    settings (cache st') = settings (cache st) ∧ allocs st' = allocs st.
Proof. apply makeroom_excess. Qed.

(** A single eviction that ends with [NC_NOERR] is a write that succeeded, or
    no write at all. *)
Lemma eviction_written (c : NCZChunkCache) e (m m' : M) :
  is_Some (data e) →
  (NC_NOERR, m') = evictions c [e] (NC_NOERR, m) →
  writes_applied c [e] m = Some m'.
Proof.
  intros [d Hd]. unfold evictions. cbn. rewrite Hd. cbn.
  destruct (modified e).
  - destruct (nczmap_write _ _ _ _ _) as [s m1]. intros [= <- <-]. done.
  - by intros [= <-].
Qed.

(** X4: a read that misses on a consistent cache and hands out a buffer has
    evicted the least recently used entries that exceeded the capacity, and
    no other (none when the cache held no more than [maxentries] entries,
    one when it held [maxentries + 1]); the new entry is the most recently
    used one.  The store is as the evictions left it, and when at most one
    entry was evicted, it was written successfully if it was modified. *)
Theorem X4_read_miss_evicts_lru (st : state M) idx stat p st' :
  let hkey := ncxcachekey (take (ndims (cache st)) idx) in
  consistent st →
  islegaldimsep (dimension_separator (cache st)) = true →
  length idx = ndims (cache st) →
  xfind (xcache (cache st)) hkey = None →
  read st idx = Done (stat, Some p, st') →
  ∃ kept evicted es,
    xcache (cache st) = kept ++ evicted ∧
    xcache (cache st') = (hkey, p) :: kept ∧
    Z.of_nat (length evicted)
      = Z.max 0 (Z.of_nat (length (mru (cache st))) - maxentries (cache st)) ∧
    Forall2 (λ kp e, heap st !! kp.2 = Some e) (reverse evicted) es ∧
    (NC_NOERR, zmap st') = evictions (cache st) es (NC_NOERR, zmap st) ∧
    (Z.of_nat (length (mru (cache st))) ≤ maxentries (cache st) + 1 →
     writes_applied (cache st) es (zmap st) = Some (zmap st')) ∧
    Z.of_nat (length (mru (cache st')))
      = Z.min (Z.of_nat (length (mru (cache st)))) (maxentries (cache st)) + 1.
Proof.
  intros hkey Hcons Hsep Hlen Hfind Hread.
  destruct (read_outcome st idx Hcons Hsep Hlen)
    as [(q & e & Hfind' & _) | [(s & st1 & _ & _ & _ & Hr)
       | [(s & st1 & st2 & _ & _ & _ & _ & Hr & _)
         | [(s & st1 & ck & vk & buf & created & _ & Hroom & _ & _ & _ & _ & _ & Hr)
           | (st1 & rest & _ & _ & _ & _ & Hr)]]]];
    try (fold hkey in Hfind'; congruence);
    rewrite Hr in Hread; try done.
  injection Hread as <- <- <-.
  destruct (makeroom_excess st Hcons)
    as (s1 & st1' & evicted & es & Hroom' & Hcons1 & Hxc & Hcount & Hes & Hev & _).
  rewrite Hroom in Hroom'. injection Hroom' as <- <-.
  pose proof (makeroom_loop_count _ _ _ _ _ Hcons Hroom) as Hkept.
  exists (xcache (cache st1)), evicted, es. split_and!; try done.
  - intros Hfull. cbn.
    assert (Hle : (length evicted ≤ 1)%nat) by lia.
    destruct evicted as [|[k q] [|? ?]]; [| |cbn in Hle; lia].
    + inversion Hes; subst. cbn in Hev. by injection Hev as <-.
    + cbn in Hes. inversion Hes as [|? e ? ? Hq Hrest]; subst.
      inversion Hrest; subst. apply eviction_written; [|done].
      destruct Hcons as (_ & _ & _ & Hlive & _).
      destruct (Hlive k q) as (e' & He' & _ & Hd).
      { rewrite Hxc. apply elem_of_app. right. by apply list_elem_of_singleton. }
      cbn in Hq. congruence.
  - cbn. rewrite length_app. cbn. lia.
Qed.

(** *** Clean caches *)

Lemma evictions_clean (c : NCZChunkCache) es (m : M) :
  Forall (λ e, modified e = false) es →
  evictions c es (NC_NOERR, m) = (NC_NOERR, m).
Proof.
  unfold evictions. induction 1 as [|e es He _ IH]; [done|].
  cbn. by rewrite He.
Qed.

(** The eviction of entries that are not modified leaves the store alone. *)
Lemma makeroom_clean (st : state M) :
  consistent st → all_clean st →
  ∃ st', makeroom st = Done (NC_NOERR, st') ∧ zmap st' = zmap st ∧
         consistent st' ∧ all_clean st'.
Proof.
  intros Hcons Hclean.
  destruct (makeroom_excess st Hcons)
    as (stat & st' & evicted & es & Hroom & Hcons' & Hxc & _ & Hes & Hev & Hheap & _).
  assert (Hall : Forall (λ e, modified e = false) es).
  { apply Forall_forall. intros e Hin.
    apply list_elem_of_lookup in Hin as [i Hi].
    destruct (Forall2_lookup_r _ _ _ _ _ Hes Hi) as ([k q] & Hq & He).
    apply (Hclean q e); [|done].
    destruct Hcons as (_ & _ & Hperm & _). rewrite Hperm, Hxc, fmap_app.
    apply elem_of_app. right. apply list_elem_of_lookup_2 in Hq.
    rewrite elem_of_reverse in Hq. apply list_elem_of_fmap.
    exists (k, q). split; [reflexivity|exact Hq]. }
  rewrite (evictions_clean _ _ _ Hall) in Hev. injection Hev as -> Hm.
  exists st'. split; [done|]. split; [done|]. split; [done|].
  intros q e Hq He. rewrite Hheap in He.
  destruct (bool_decide _); [done|]. apply (Hclean q e); [|done].
  destruct Hcons as (_ & _ & Hperm & _). destruct Hcons' as (_ & _ & Hperm' & _).
  rewrite Hperm, Hxc, fmap_app. rewrite Hperm' in Hq. apply elem_of_app. by left.
Qed.

(** A flush that succeeds leaves every entry unmodified. *)
Lemma flush_success_clean (st st1 : state M) :
  consistent st →
  NCZ_flush_chunk_cache st = Done (NC_NOERR, st1) →
  consistent st1 ∧ cache st1 = cache st ∧ all_clean st1.
Proof.
  intros Hcons Hflush.
  destruct (flush_step st Hcons) as (s & st1' & Hrun & Hcons1 & Hc).
  rewrite Hflush in Hrun. injection Hrun as <- <-.
  split; [done|]. split; [done|].
  destruct (flush_spec st (consistent_NoDup_mru st Hcons)
              (λ p Hp, consistent_live st p Hcons Hp))
    as (stat & st1' & k & es & m & Hrun & _ & _ & _ & Hin & _ & _ & Hres).
  rewrite Hflush in Hrun. injection Hrun as <- <-.
  destruct Hres as [(_ & -> & _) | (Hs & _)]; [|done].
  intros p e Hp He. rewrite Hc, firstn_all in *.
  rewrite (Hin p Hp) in He.
  destruct (heap st !! p) as [e0|]; [|done]. cbn in He. by injection He as <-.
Qed.

(** X7: after a flush that returned [NC_NOERR] on a consistent cache, no
    entry is modified, and whatever capacity [makeroom] is then run with, it
    returns [NC_NOERR] and the store is not written to. *)
Theorem X7_flush_then_evict_writes_nothing (st st1 : state M) n :
  consistent st →
  NCZ_flush_chunk_cache st = Done (NC_NOERR, st1) →
  0 ≤ n →
  all_clean st1 ∧
  ∃ st2,
    makeroom (set_cache (set_maxentries n (cache st1)) st1) = Done (NC_NOERR, st2) ∧
    zmap st2 = zmap st1.
Proof.
  intros Hcons Hflush Hn.
  destruct (flush_success_clean st st1 Hcons Hflush) as (Hcons1 & _ & Hclean).
  split; [done|].
  destruct (makeroom_clean (set_cache (set_maxentries n (cache st1)) st1))
    as (st2 & Hroom & Hm & _).
  - destruct Hcons1 as (Hk & Hp & Hperm & Hlive & _).
    unfold consistent. cbn. by split_and!.
  - exact Hclean.
  - by exists st2.
Qed.

(** The flush of a cache without modified entries changes nothing. *)
Lemma flush_loop_clean (l : list addr) (st : state M) :
  (∀ p, p ∈ l → ∃ e, heap st !! p = Some e ∧ modified e = false) →
  flush_loop l st = Done (NC_NOERR, st).
Proof.
  induction l as [|p l IH]; intros Hclean; [done|].
  destruct (Hclean p) as (e & He & Hmod); [apply elem_of_cons; by left|].
  cbn [flush_loop]. rewrite He, Hmod. cbn.
  replace (set_heap (<[p := set_modified false e]> (heap st)) st) with st.
  - apply IH. intros q Hq. apply Hclean, elem_of_cons. by right.
  - destruct st as [c h m al]. unfold set_heap. cbn in *. f_equal.
    symmetry. apply insert_id. rewrite He. f_equal.
    destruct e. cbn in *. by subst.
Qed.

(** X8: a flush that returned [NC_NOERR] on a consistent cache can be
    repeated: the second flush returns [NC_NOERR] and leaves the cache, the
    heap and the store exactly as the first one did. *)
Theorem X8_flush_idempotent (st st1 : state M) :
  consistent st →
  NCZ_flush_chunk_cache st = Done (NC_NOERR, st1) →
  NCZ_flush_chunk_cache st1 = Done (NC_NOERR, st1).
Proof.
  intros Hcons Hflush.
  destruct (flush_success_clean st st1 Hcons Hflush) as (Hcons1 & _ & Hclean).
  unfold NCZ_flush_chunk_cache. destruct (_ =? 0); [done|].
  apply flush_loop_clean. intros p Hp.
  destruct (consistent_live st1 p Hcons1 Hp) as (e & He & _).
  exists e. split; [done|]. by apply (Hclean p e).
Qed.

(** *** The write, as it is *)

Lemma makeroom_room (st : state M) :
  Z.of_nat (length (mru (cache st))) ≤ maxentries (cache st) →
  makeroom st = Done (NC_NOERR, st).
Proof.
  intros Hle.
  assert (Hany : ∀ fuel, makeroom_loop fuel NC_NOERR st = Done (NC_NOERR, st)).
  { intros fuel. destruct fuel; cbn [makeroom_loop];
      destruct (Z.gtb_spec (Z.of_nat (length (mru (cache st)))) (maxentries (cache st)));
      done || lia. }
  apply Hany.
Qed.

(** What the allocation sequence leaves: the cache and the store as they
    were; on success a new block with a zeroed buffer and the hash key. *)
Lemma new_entry_result (st : state M) idx hkey stat entry st' :
  new_entry st idx hkey = Done (stat, entry, st') →
  cache st' = cache st ∧ zmap st' = zmap st ∧
  heap (from_option (λ p, release p st') st' entry) = heap st ∧
  (stat = NC_NOERR →
   ∃ k, entry = Some (fresh (dom (heap st))) ∧
        heap st' = <[fresh (dom (heap st)) :=
                       mkEntry false (take (ndims (cache st)) idx) k hkey
                         (Some (zeroes (chunksize (cache st))))]> (heap st)).
Proof.
  destruct st as [c h m al]. unfold Cache.new_entry, calloc. cbn.
  destruct al as [|[] [|[] al]]; cbn;
    try (intros [= <- <- <-]; cbn; split_and!; try done;
         apply delete_insert_id, fresh_heap_None).
  all: destruct (NCZ_buildchunkpath NCZ_varkey c idx _) as [[s0 k]| |]; cbn; try done.
  all: destruct (Z.eqb_spec s0 NC_NOERR) as [->|Hs]; cbn; intros [= <- <- <-]; cbn.
  all: rewrite ?insert_insert_eq.
  all: split_and!; try done; try (apply delete_insert_id, fresh_heap_None).
  all: intros _; by exists k.
Qed.

(** The write on any cache. *)
Lemma write_result (st : state M) idx stat datap st' :
  let hkey := ncxcachekey (take (ndims (cache st)) idx) in
  write st idx = Done (stat, datap, st') →
  datap = None ∧
  ∃ s1 st1,
    makeroom st = Done (s1, st1) ∧
    xcache (cache st') = xcache (cache st1) ∧
    zmap st' = zmap st1 ∧
    (stat ≠ NC_NOERR → cache st' = cache st1 ∧ heap st' = heap st1) ∧
    (stat = NC_NOERR →
     ∃ k, mru (cache st') = mru (cache st1) ++ [fresh (dom (heap st1))] ∧
          heap st' = <[fresh (dom (heap st1)) :=
                         mkEntry true (take (ndims (cache st1)) idx) k hkey
                           (Some (zeroes (chunksize (cache st1))))]> (heap st1)).
Proof.
  intros hkey. unfold NCZ_write_cache_chunk.
  destruct (length idx <? ndims (cache st))%nat; [done|]. fold hkey.
  destruct (makeroom st) as [[s1 st1]| |] eqn:Hroom; [|done..]. cbn.
  destruct (Z.eqb_spec s1 NC_NOERR) as [->|Hs1]; cbn.
  2:{ intros [= <- <- <-]. split; [done|]. exists s1, st1. by split_and!. }
  destruct (new_entry st1 idx hkey) as [[[s2 entry] st2]| |] eqn:Hnew; [|done..]. cbn.
  apply new_entry_result in Hnew as (Hc & Hm & Hrel & Hok).
  destruct (Z.eqb_spec s2 NC_NOERR) as [->|Hs2]; cbn.
  2:{ intros [= <- <- <-]. split; [done|]. exists NC_NOERR, st1.
      split; [done|]. destruct entry; cbn in *; rewrite ?Hc, ?Hm; by split_and!. }
  destruct (Hok eq_refl) as (k & -> & Hh). rewrite Hh, lookup_insert_eq. cbn.
  intros [= <- <- <-]. split; [done|]. exists NC_NOERR, st1. cbn.
  rewrite Hc, Hm, insert_insert_eq. split_and!; try done.
  intros _. by exists k.
Qed.

(** X9: whenever the write returns, it has stored no buffer pointer and has
    put nothing into the hash container.  When it returns [NC_NOERR] it has
    appended to the recency list a new entry, marked modified, with a zeroed
    buffer, and has not gone to the store for it; a chunk the container did
    not find before is still not found, and on a consistent cache the
    recency list is then longer than the container. *)
Theorem X9_write_bypasses_container (st : state M) idx stat datap st' :
  let hkey := ncxcachekey (take (ndims (cache st)) idx) in
  write st idx = Done (stat, datap, st') →
  datap = None ∧
  (xfind (xcache (cache st)) hkey = None → xfind (xcache (cache st')) hkey = None) ∧
  ∃ s1 st1,
    makeroom st = Done (s1, st1) ∧
    xcache (cache st') = xcache (cache st1) ∧
    zmap st' = zmap st1 ∧
    (stat = NC_NOERR →
     ∃ e, mru (cache st') = mru (cache st1) ++ [fresh (dom (heap st1))] ∧
          heap st1 !! fresh (dom (heap st1)) = None ∧
          heap st' !! fresh (dom (heap st1)) = Some e ∧
          modified e = true ∧ hashkey e = hkey ∧
          data e = Some (zeroes (chunksize (cache st))) ∧
          (consistent st →
           (length (xcache (cache st')) < length (mru (cache st')))%nat)).
Proof.
  intros hkey Hwrite.
  destruct (write_result st idx stat datap st' Hwrite)
    as (Hd & s1 & st1 & Hroom & Hxc & Hm & _ & Hok).
  destruct (makeroom_frame _ _ _ Hroom) as (Hset & _ & Hkeys).
  split; [done|]. split.
  { intros Hnone. rewrite Hxc.
    destruct (xfind (xcache (cache st1)) hkey) as [q|] eqn:Hq; [|done].
    apply xfind_Some_in in Hq. apply xfind_None_notin in Hnone.
    exfalso. apply Hnone, Hkeys. apply list_elem_of_fmap. by exists (hkey, q). }
  exists s1, st1. split_and!; try done.
  intros Hs. destruct (Hok Hs) as (k & Hmru & Hh).
  eexists. split; [exact Hmru|]. split; [apply fresh_heap_None|].
  split; [by rewrite Hh, lookup_insert_eq|]. cbn.
  split; [done|]. split; [done|].
  split; [f_equal; f_equal; by injection Hset|].
  intros Hcons.
  destruct (makeroom_consistent st Hcons) as (s1' & st1' & ? & ? & Hroom' & Hcons1 & _).
  rewrite Hroom in Hroom'. injection Hroom' as <- <-.
  rewrite Hxc, Hmru, length_app, (consistent_length st1 Hcons1). cbn. lia.
Qed.

(** *** Destruction *)

Lemma xfind_unique xc k p : NoDup xc.*1 → (k, p) ∈ xc → xfind xc k = Some p.
Proof.
  induction xc as [|[k' q] xc IH]; cbn; intros Hnd Hin; [by apply elem_of_nil in Hin|].
  apply NoDup_cons in Hnd as [Hk Hnd].
  apply elem_of_cons in Hin as [[= -> ->]|Hin].
  - by rewrite Z.eqb_refl.
  - destruct (Z.eqb_spec k' k) as [->|Hne]; [|by apply IH].
    exfalso. apply Hk. apply list_elem_of_fmap. by exists (k, p).
Qed.

(** The loop of the destruction on lists that hold the same entries. *)
Lemma free_loop_spec (l : list addr) : ∀ (xc : NCxcache) (h : gmap addr NCZCacheEntry),
  NoDup xc.*1 → NoDup l → l ≡ₚ xc.*2 →
  (∀ k p, (k, p) ∈ xc → ∃ e, h !! p = Some e ∧ hashkey e = k) →
  ∃ h', free_loop l xc h = Done ([], h') ∧
        ∀ q, h' !! q = if bool_decide (q ∈ l) then None else h !! q.
Proof.
  induction l as [|p l IH]; intros xc h Hk Hl Hperm Hlive.
  { apply Permutation_nil_l in Hperm. symmetry in Hperm.
    apply fmap_nil_inv in Hperm as ->.
    exists h. split; [done|]. intros q. rewrite bool_decide_eq_false_2; [done|].
    apply not_elem_of_nil. }
  apply NoDup_cons in Hl as [Hp Hl].
  assert (Hpin : p ∈ xc.*2) by (rewrite <- Hperm; apply elem_of_cons; by left).
  apply list_elem_of_fmap in Hpin as ([k p'] & Heq & Hin). cbn in Heq. subst p'.
  destruct (Hlive k p Hin) as (e & He & Hh).
  pose proof (xfind_unique xc k p Hk Hin) as Hfind.
  destruct (xdrop_found xc k p Hfind) as (xc1 & xc2 & Hxc & Hdrop).
  assert (Hperm' : l ≡ₚ (xc1 ++ xc2).*2).
  { apply (Permutation_cons_inv (a:=p)). rewrite Hperm, Hxc, !fmap_app. cbn.
    by rewrite <- Permutation_middle. }
  assert (Hk' : NoDup (xc1 ++ xc2).*1).
  { rewrite Hxc, fmap_app in Hk. cbn in Hk. rewrite fmap_app.
    apply NoDup_app in Hk as (Hk1 & Hdis & Hk2). apply NoDup_cons in Hk2 as [Hkn Hk2].
    apply NoDup_app. split; [done|]. split; [|done].
    intros x Hx1 Hx2. apply (Hdis x Hx1). apply elem_of_cons. by right. }
  destruct (IH (xc1 ++ xc2) (delete p h) Hk' Hl Hperm') as (h' & Hrun & Hh').
  { intros k' q Hq.
    destruct (Hlive k' q) as (e' & He' & Hh2).
    { rewrite Hxc. apply elem_of_app in Hq as [Hq|Hq]; apply elem_of_app;
        [by left | right; apply elem_of_cons; by right]. }
    exists e'. split; [|done]. rewrite lookup_delete_ne; [done|]. intros <-.
    apply Hp. rewrite Hperm'. apply list_elem_of_fmap. by exists (k', p). }
  exists h'. split.
  - cbn [free_loop]. rewrite He. unfold ncxcacheremove. rewrite Hh, Hfind, Hdrop.
    by rewrite bool_decide_eq_true_2.
  - intros q. rewrite Hh'. destruct (decide (q = p)) as [->|Hne].
    + rewrite lookup_delete_eq.
      rewrite (bool_decide_eq_true_2 (p ∈ p :: l)) by (apply elem_of_cons; by left).
      by destruct (bool_decide _).
    + rewrite lookup_delete_ne by done.
      rewrite (bool_decide_ext (q ∈ p :: l) (q ∈ l)); [done|].
      rewrite elem_of_cons. split; [by intros [?|?] | by right].
Qed.

Lemma free_loop_app (l1 l2 : list addr) : ∀ (xc : NCxcache) (h : gmap addr NCZCacheEntry),
  free_loop (l1 ++ l2) xc h =
    ('(xc', h') ← free_loop l1 xc h; free_loop l2 xc' h').
Proof.
  induction l1 as [|p l1 IH]; intros xc h; [done|].
  cbn [app free_loop]. destruct (h !! p) as [e|]; [|done].
  destruct (ncxcacheremove xc (hashkey e)) as [[s ptr] xc'].
  destruct (bool_decide _); [apply IH|done].
Qed.

(** X10: the destruction of a consistent cache returns and releases every
    entry of the cache, modified or not, without handing any to the store;
    the blocks that are not entries of the cache are left alone.  On the
    NULL cache it does nothing. *)
Theorem X10_free_releases_all (st : state M) :
  consistent st →
  (∃ h', NCZ_free_chunk_cache (Some (cache st)) (heap st) = Done h' ∧
         (∀ p, p ∈ mru (cache st) → h' !! p = None) ∧
         (∀ p, p ∉ mru (cache st) → h' !! p = heap st !! p)) ∧
  NCZ_free_chunk_cache None (heap st) = Done (heap st).
Proof.
  intros Hcons. split; [|done].
  destruct (free_loop_spec (mru (cache st)) (xcache (cache st)) (heap st))
    as (h' & Hrun & Hh').
  - apply Hcons.
  - by apply consistent_NoDup_mru.
  - apply Hcons.
  - intros k p Hin. destruct Hcons as (_ & _ & _ & Hlive & _).
    destruct (Hlive k p Hin) as (e & He & Hk & _). by exists e.
  - exists h'. unfold NCZ_free_chunk_cache. rewrite Hrun. cbn. split; [done|].
    split; intros p Hp; rewrite Hh'.
    + by rewrite bool_decide_eq_true_2.
    + by rewrite bool_decide_eq_false_2.
Qed.

(** X11: once a write has succeeded on a consistent cache that had room,
    the destruction of the cache does not return: the entry of the write is
    on the recency list but not in the hash container, [ncxcacheremove] finds
    nothing, and [assert(ptr == entry)] is reached with [ptr] never
    assigned. *)
Theorem X11_free_after_write_aborts (st : state M) idx datap st' :
  consistent st →
  Z.of_nat (length (mru (cache st))) ≤ maxentries (cache st) →
  write st idx = Done (NC_NOERR, datap, st') →
  NCZ_free_chunk_cache (Some (cache st')) (heap st') = Abort.
Proof.
  intros Hcons Hroom Hwrite.
  destruct (write_result st idx NC_NOERR datap st' Hwrite)
    as (_ & s1 & st1 & Hroom' & Hxc & _ & _ & Hok).
  rewrite (makeroom_room st Hroom) in Hroom'. injection Hroom' as <- <-.
  destruct (Hok eq_refl) as (k & Hmru & Hh).
  set (p := fresh (dom (heap st))) in *.
  assert (Hfresh : heap st !! p = None) by apply fresh_heap_None.
  assert (Hpn : p ∉ mru (cache st)).
  { intros Hp. destruct (consistent_live st p Hcons Hp) as (e & He & _). congruence. }
  destruct (free_loop_spec (mru (cache st)) (xcache (cache st)) (heap st'))
    as (h' & Hrun & Hh').
  - apply Hcons.
  - by apply consistent_NoDup_mru.
  - apply Hcons.
  - intros k' q Hin. destruct Hcons as (_ & _ & Hperm & Hlive & _).
    destruct (Hlive k' q Hin) as (e & He & Hk & _). exists e. split; [|done].
    rewrite Hh, lookup_insert_ne; [done|]. intros <-. congruence.
  - unfold NCZ_free_chunk_cache. rewrite Hmru, Hxc, free_loop_app, Hrun. cbn.
    rewrite Hh', bool_decide_eq_false_2 by done.
    rewrite Hh, lookup_insert_eq. cbn. done.
Qed.

(** *** Construction *)

(** The construction never touches the heap of entries. *)
Lemma free_empty_cache (c : NCZChunkCache) (h : gmap addr NCZCacheEntry) :
  mru c = [] → NCZ_free_chunk_cache (Some c) h = Done h.
Proof. intros Hmru. unfold NCZ_free_chunk_cache. by rewrite Hmru. Qed.

(** X12: the construction refuses a chunk size of zero with [NC_EINVAL]
    before it allocates anything, and answers a failed allocation (of the
    cache block, the hash container or the list) with [NC_ENOMEM]; in both
    cases it yields no cache and leaves the heap of entries as it was.  It
    yields a cache only together with [NC_NOERR]. *)
Theorem X12_create_failures (v : NC_VAR_INFO_T) (nd sc : nat) (chunksize : Z)
    (dimsep : ascii) (want : bool) (h : gmap addr NCZCacheEntry) (al : list bool) :
  ∃ stat co al',
    NCZ_create_chunk_cache v nd sc chunksize dimsep want h al = Done (stat, co, h, al') ∧
    (chunksize = 0 → stat = NC_EINVAL ∧ co = None ∧ al' = al) ∧
    (chunksize ≠ 0 → ¬ Forall (λ b, b = true) (take 3 al) →
       stat = NC_ENOMEM ∧ co = None) ∧
    (is_Some co → stat = NC_NOERR ∧ want = true) ∧
    (chunksize ≠ 0 → Forall (λ b, b = true) (take 3 al) → stat = NC_NOERR).
Proof.
  unfold NCZ_create_chunk_cache, ncxcachenew, nclistnew, nclistsetalloc, next_alloc.
  destruct (Z.eqb_spec chunksize 0) as [->|Hcs].
  { eexists _, _, _. split; [reflexivity|]. split_and!; try done; by intros [? ?]. }
  destruct al as [|[] [|[] [|[] al]]]; cbn; destruct want; cbn;
    eexists _, _, _; (split; [reflexivity|]);
    split_and!; try done; try (by intros [? ?]);
    try (intros _ Hno; exfalso; apply Hno; by repeat constructor);
    try (intros _ Hall; repeat (apply Forall_cons in Hall as [? Hall]); done).
Qed.

(** X13: with a chunk size above zero, a byte budget that is not negative
    and allocations that succeed, the construction yields an empty cache of
    the rank [var->ndims + zvar->scalar] with the given chunk size and
    separator, no fill chunk, and a capacity of the greater of one and the
    quotient of the budget by the chunk size; such a cache is consistent and
    within its capacity, whatever the heap, the store and the allocator. *)
Theorem X13_create_yields_empty_cache (v : NC_VAR_INFO_T) (nd sc : nat)
    (chunksize : Z) (dimsep : ascii) (h : gmap addr NCZCacheEntry) (al : list bool) :
  0 < chunksize →
  0 ≤ chunk_cache_size v →
  Forall (λ b, b = true) (take 3 al) →
  ∃ c al',
    NCZ_create_chunk_cache v nd sc chunksize dimsep true h al
      = Done (NC_NOERR, Some c, h, al') ∧
    c = mkCache v (nd + sc) chunksize dimsep
          (Z.max 1 (chunk_cache_size v / chunksize)) None [] [] ∧
    1 ≤ maxentries c ∧
    (chunk_cache_size v < chunksize → maxentries c = 1) ∧
    NCZ_cache_size c = 0 ∧
    NCZ_cache_entrysize c = chunksize ∧
    ∀ (m : M) al'', consistent (mkState c h m al'').
Proof.
  intros Hcs Hbudget Hall.
  assert (Hq : 0 ≤ chunk_cache_size v / chunksize) by (apply Z.div_pos; lia).
  assert (Hnelems :
    (if chunk_cache_size v / chunksize =? 0 then 1 else chunk_cache_size v / chunksize)
    = Z.max 1 (chunk_cache_size v / chunksize)).
  { destruct (Z.eqb_spec (chunk_cache_size v / chunksize) 0); lia. }
  exists (mkCache v (nd + sc) chunksize dimsep
            (Z.max 1 (chunk_cache_size v / chunksize)) None [] []), (drop 4 al).
  split.
  - unfold NCZ_create_chunk_cache, ncxcachenew, nclistnew, nclistsetalloc, next_alloc.
    rewrite (eqb_status_ne chunksize 0) by lia. cbv zeta. rewrite Hnelems.
    destruct al as [|[] [|[] [|[] [|? al]]]]; cbn; try reflexivity;
      exfalso; repeat (apply Forall_cons in Hall as [? Hall]); done.
  - split; [reflexivity|]. cbn. split; [lia|]. split.
    { intros Hlt. rewrite Z.div_small by lia. done. }
    split; [done|]. split; [done|].
    intros m al''. unfold consistent. cbn. split_and!; try constructor; try lia.
    intros k p Hin. by apply elem_of_nil in Hin.
Qed.

(** *** The adjustment, once more *)

(** The state the adjustment ends in. *)
Lemma adjust_result (st : state M) :
  let v := var (cache st) in
  consistent st →
  zvar_chunksize v ≠ 0 →
  ∃ stat st0,
    makeroom (set_cache (set_maxentries 0 (cache st)) st) = Done (stat, st0) ∧
    mru (cache st0) = [] ∧ xcache (cache st0) = [] ∧
    var (cache st0) = v ∧ ndims (cache st0) = ndims (cache st) ∧
    dimension_separator (cache st0) = dimension_separator (cache st) ∧
    NCZ_adjust_var_cache st =
      Done (NC_NOERR,
            set_cache
              (mkCache v (ndims (cache st)) (zvar_chunksize v)
                 (dimension_separator (cache st))
                 (if chunk_cache_size v / zvar_chunksize v =? 0 then 1
                  else chunk_cache_size v / zvar_chunksize v)
                 None [] []) st0).
Proof.
  intros v Hcons Hcs.
  assert (Hcons0 : consistent (set_cache (set_maxentries 0 (cache st)) st)).
  { destruct Hcons as (Hk & Hp & Hperm & Hlive & Hmax).
    unfold consistent. cbn. split_and!; done. }
  destruct (makeroom_consistent _ Hcons0)
    as (stat & st0 & evicted & es & Hroom & Hcons' & Hset & _ & _ & Hlen & _).
  cbn in Hlen, Hset.
  assert (Hmru : mru (cache st0) = []) by (apply length_zero_iff_nil; lia).
  assert (Hxc0 : xcache (cache st0) = []).
  { apply length_zero_iff_nil. rewrite (consistent_length st0 Hcons'), Hmru. done. }
  assert (Hv : var (cache st0) = v) by (by injection Hset).
  assert (Hnd : ndims (cache st0) = ndims (cache st)) by (by injection Hset).
  assert (Hsp : dimension_separator (cache st0) = dimension_separator (cache st))
    by (by injection Hset).
  exists stat, st0. split_and!; try done.
  unfold NCZ_adjust_var_cache, floordiv. fold v. rewrite Hroom. cbn.
  by rewrite (eqb_status_ne _ _ Hcs), Hmru, Hxc0, Hv, Hnd, Hsp.
Qed.

(** X14: the adjustment can be repeated: run on the cache that an adjustment
    left (with the variable unchanged), it returns [NC_NOERR] and leaves the
    state as it is. *)
Theorem X14_adjust_idempotent (st st' : state M) :
  consistent st →
  0 ≤ chunk_cache_size (var (cache st)) →
  0 < zvar_chunksize (var (cache st)) →
  NCZ_adjust_var_cache st = Done (NC_NOERR, st') →
  NCZ_adjust_var_cache st' = Done (NC_NOERR, st').
Proof.
  intros Hcons Hbudget Hpos Hadj.
  assert (Hcs : zvar_chunksize (var (cache st)) ≠ 0) by lia.
  destruct (adjust_result st Hcons Hcs)
    as (stat & st0 & _ & _ & _ & _ & _ & _ & Hres).
  rewrite Hadj in Hres. injection Hres as ->.
  set (v := var (cache st)) in *.
  assert (Hq : 0 ≤ chunk_cache_size v / zvar_chunksize v) by (apply Z.div_pos; lia).
  unfold NCZ_adjust_var_cache, floordiv.
  rewrite makeroom_room by (cbn; lia). cbn.
  by rewrite (eqb_status_ne _ _ Hcs).
Qed.

(** X15: the adjustment gives a cache the capacity, the chunk size, the rank
    and the separator that the construction gives a new cache for the same
    variable and the variable's chunk size, and like it no entry and no fill
    chunk. *)
Theorem X15_adjust_agrees_with_create (st st' : state M) c
    (h : gmap addr NCZCacheEntry) al al' :
  let v := var (cache st) in
  consistent st →
  NCZ_create_chunk_cache v (ndims (cache st)) 0 (zvar_chunksize v)
    (dimension_separator (cache st)) true h al = Done (NC_NOERR, Some c, h, al') →
  NCZ_adjust_var_cache st = Done (NC_NOERR, st') →
  cache st' = c.
Proof.
  intros v Hcons Hcreate Hadj.
  assert (Hcs : zvar_chunksize v ≠ 0).
  { intros Hz. unfold NCZ_create_chunk_cache in Hcreate. rewrite Hz in Hcreate.
    cbn in Hcreate. done. }
  destruct (adjust_result st Hcons Hcs) as (stat & st0 & _ & _ & _ & _ & _ & _ & Hres).
  rewrite Hadj in Hres. injection Hres as ->. cbn. fold v.
  unfold NCZ_create_chunk_cache, ncxcachenew, nclistnew, nclistsetalloc, next_alloc
    in Hcreate.
  rewrite (eqb_status_ne _ _ Hcs) in Hcreate. rewrite Nat.add_0_r in Hcreate.
  destruct al as [|[] [|[] [|[] al]]]; cbn in Hcreate; by simplify_eq.
Qed.

(** *** Through the store and back *)

(** X16: over a store that keeps what is written to it, a chunk that
    [put_chunk] has written with success is what [get_chunk] reads into any
    entry that carries the same key: the two adapters use the same path, the
    offset zero and the chunk size of the cache.  After the two calls the
    buffer of that entry holds the bytes written, nothing else of the entry
    has changed, and the other entries and the cache are as they were. *)
Theorem X16_put_then_get (st st1 : state M) e p e' d :
  store_keeps (zmap st) →
  data e = Some d →
  heap st !! p = Some e' → is_Some (data e') → key e' = key e →
  put_chunk st e = Done (NC_NOERR, st1) →
  cache st1 = cache st ∧ heap st1 = heap st ∧
  ∃ st2 e2,
    get_chunk st1 p = Done (NC_NOERR, st2) ∧
    heap st2 !! p = Some e2 ∧
    data e2 = Some d ∧
    modified e2 = modified e' ∧ indices e2 = indices e' ∧
    key e2 = key e' ∧ hashkey e2 = hashkey e' ∧
    (∀ q, q ≠ p → heap st2 !! q = heap st !! q) ∧
    cache st2 = cache st ∧ zmap st2 = zmap st1.
Proof.
  intros Hkeeps Hd He' [d' Hd'] Hkey Hput.
  unfold put_chunk in Hput. rewrite Hd in Hput.
  destruct (nczmap_write _ _ _ _ _) as [s m'] eqn:Hwr.
  injection Hput as -> <-. split; [done|]. split; [done|].
  eexists _, (mkEntry (modified e') (indices e') (key e') (hashkey e') (Some d)).
  split.
  - unfold get_chunk. cbn. rewrite He', Hd', Hkey.
    by rewrite (Hkeeps _ _ _ _ d' Hwr).
  - cbn. rewrite lookup_insert_eq. split_and!; try done.
    intros q Hq. by rewrite lookup_insert_ne.
Qed.

(** *** Entries and digests *)

Lemma makeroom_keyed (st : state M) stat st1 :
  consistent st → keyed ncxcachekey st →
  makeroom st = Done (stat, st1) →
  keyed ncxcachekey st1.
Proof.
  intros Hcons Hkeyed Hroom.
  destruct (makeroom_excess st Hcons)
    as (s & st1' & evicted & es & Hroom' & Hcons1 & Hxc & _ & _ & _ & Hheap & Hset & _).
  rewrite Hroom in Hroom'. injection Hroom' as <- <-.
  intros q e Hq He. rewrite Hheap in He.
  destruct (bool_decide _); [done|].
  replace (ndims (cache st1)) with (ndims (cache st)) by (by injection Hset).
  apply (Hkeyed q e); [|done].
  destruct Hcons as (_ & _ & Hperm & _). destruct Hcons1 as (_ & _ & Hperm1 & _).
  rewrite Hperm, Hxc, fmap_app. rewrite Hperm1 in Hq. apply elem_of_app. by left.
Qed.

Lemma read_keyed (st : state M) idx stat datap st' :
  consistent st → keyed ncxcachekey st →
  islegaldimsep (dimension_separator (cache st)) = true →
  length idx = ndims (cache st) →
  read st idx = Done (stat, datap, st') →
  keyed ncxcachekey st'.
Proof.
  intros Hcons Hkeyed Hsep Hlen Hread.
  destruct (read_outcome st idx Hcons Hsep Hlen)
    as [(q & e & _ & _ & Hr) | [(s & st1 & _ & Hroom & _ & Hr)
       | [(s & st1 & st2 & _ & Hroom & _ & _ & Hr & Hc & Hh & _)
         | [(s & st1 & ck & vk & buf & created & _ & Hroom & Hfresh & _ & _ & _ & _ & Hr)
           | (st1 & rest & _ & Hroom & Hfresh & _ & Hr)]]]];
    rewrite Hr in Hread; injection Hread as _ _ <-.
  - intros q' e' Hq He. by apply (Hkeyed q' e').
  - by eapply makeroom_keyed.
  - pose proof (makeroom_keyed st _ st1 Hcons Hkeyed Hroom) as Hk1.
    intros q e Hq He. rewrite Hc in Hq |- *. rewrite Hh in He.
    by apply (Hk1 q e).
  - pose proof (makeroom_keyed st _ st1 Hcons Hkeyed Hroom) as Hk1.
    destruct (makeroom_frame _ _ _ Hroom) as (Hset & _ & _).
    assert (Hnd : ndims (cache st1) = ndims (cache st)) by (by injection Hset).
    intros q e Hq He. cbn in Hq, He |- *.
    destruct (decide (q = fresh (dom (heap st1)))) as [->|Hne].
    + rewrite lookup_insert_eq in He. injection He as <-. cbn.
      rewrite length_take, Hnd. split; [lia|done].
    + rewrite lookup_insert_ne in He by done.
      apply elem_of_app in Hq as [Hq|Hq]; [by apply (Hk1 q e)|].
      apply list_elem_of_singleton in Hq. done.
  - pose proof (makeroom_keyed st _ st1 Hcons Hkeyed Hroom) as Hk1.
    intros q e Hq He. cbn in Hq, He |- *.
    apply elem_of_app in Hq as [Hq|Hq]; [by apply (Hk1 q e)|].
    apply list_elem_of_singleton in Hq. subst q. congruence.
Qed.

Lemma flush_keyed (st : state M) stat st' :
  consistent st → keyed ncxcachekey st →
  NCZ_flush_chunk_cache st = Done (stat, st') →
  keyed ncxcachekey st'.
Proof.
  intros Hcons Hkeyed Hflush.
  destruct (flush_spec st (consistent_NoDup_mru st Hcons)
              (λ p Hp, consistent_live st p Hcons Hp))
    as (s & st1 & k & es & m & Hrun & Hc & _ & _ & Hin & Hout & _).
  rewrite Hflush in Hrun. injection Hrun as <- <-.
  intros q e Hq He. rewrite Hc in Hq |- *.
  destruct (decide (q ∈ take k (mru (cache st)))) as [Hqin|Hqout].
  - rewrite (Hin q Hqin) in He.
    destruct (heap st !! q) as [e0|] eqn:He0; [|done]. cbn in He. injection He as <-.
    by apply (Hkeyed q e0).
  - rewrite (Hout q Hqout) in He. by apply (Hkeyed q e).
Qed.

(** Reads and flushes keep the entries filed under their digests. *)
Lemma run_ops_keyed (ops : list op) : ∀ st : state M,
  consistent st → keyed ncxcachekey st →
  islegaldimsep (dimension_separator (cache st)) = true →
  Forall (λ b, b = true) (allocs st) →
  Forall (valid_op (cache st)) ops →
  ∃ st', run ops st = Done st' ∧ keyed ncxcachekey st' ∧ consistent st'.
Proof.
  induction ops as [|o ops IH]; intros st Hcons Hkeyed Hsep Hsucc Hvalid.
  { by exists st. }
  apply Forall_cons in Hvalid as [Ho Hvalid].
  destruct o as [idx|]; cbn [run_ops].
  - destruct (read_step st idx Hcons Hsep Ho Hsucc)
      as (s & d & st1 & Hread & Hcons1 & Hset & _ & Hsucc1).
    rewrite Hread. cbn.
    apply (IH st1); try done.
    + exact (read_keyed st idx s d st1 Hcons Hkeyed Hsep Ho Hread).
    + replace (dimension_separator (cache st1)) with (dimension_separator (cache st));
        [done|by injection Hset].
    + eapply Forall_impl; [exact Hvalid|]. intros [idx'|]; [|done]. cbn.
      replace (ndims (cache st1)) with (ndims (cache st)); [done|by injection Hset].
  - destruct (flush_step st Hcons) as (s & st1 & Hflush & Hcons1 & Hc).
    pose proof (flush_allocs st s st1 Hflush) as Hal.
    rewrite Hflush. cbn.
    apply (IH st1); try done; rewrite ?Hc, ?Hal; try done.
    exact (flush_keyed st s st1 Hcons Hkeyed Hflush).
Qed.

(** X17: through any sequence of reads and flushes whose allocations
    succeed, started on a consistent cache whose entries are filed under the
    digests of their indices (an empty cache for one), every operation
    returns, and every entry of the cache carries as many indices as the
    cache has dimensions and is filed under the digest of those indices. *)
Theorem X17_entries_filed_under_digest (ops : list op) (st : state M) :
  consistent st → keyed ncxcachekey st →
  islegaldimsep (dimension_separator (cache st)) = true →
  Forall (λ b, b = true) (allocs st) →
  Forall (valid_op (cache st)) ops →
  ∃ st', run ops st = Done st' ∧ keyed ncxcachekey st' ∧ consistent st'.
Proof. apply run_ops_keyed. Qed.

(** X18: the cache tells chunks apart by the digest alone.  Once a read has
    handed out the buffer of a chunk, the read of any chunk whose indices
    have the same digest returns [NC_NOERR] and that same buffer: it does not
    go to the store and builds no entry.  When the first read had missed, the
    entry behind the buffer carries the indices of the first chunk. *)
Theorem X18_same_digest_same_buffer (st st1 : state M) idx idx' stat p :
  consistent st →
  islegaldimsep (dimension_separator (cache st)) = true →
  length idx = ndims (cache st) → length idx' = ndims (cache st) →
  ncxcachekey idx = ncxcachekey idx' →
  read st idx = Done (stat, Some p, st1) →
  ∃ st2,
    read st1 idx' = Done (NC_NOERR, Some p, st2) ∧
    heap st2 = heap st1 ∧ zmap st2 = zmap st1 ∧
    mru (cache st2) = mru (cache st1) ∧ allocs st2 = allocs st1 ∧
    (xfind (xcache (cache st)) (ncxcachekey idx) = None →
     ∃ e, heap st2 !! p = Some e ∧ indices e = idx).
Proof.
  intros Hcons Hsep Hlen Hlen' Hdig Hread.
  assert (Htake : take (ndims (cache st)) idx = idx) by (rewrite <- Hlen; apply firstn_all).
  destruct (read_buffer_filed st idx stat p st1 Hcons Hsep Hlen Hread)
    as (_ & Hcons1 & Hset & rest & Hxc).
  assert (Hnd : ndims (cache st1) = ndims (cache st)) by (by injection Hset).
  destruct (read_hit st1 idx' p) as (st2 & Hr & _ & Hmru & _ & Hh & Hm & Hal & _).
  - done.
  - lia.
  - rewrite Hxc, Hnd, Htake, Hdig. cbn.
    replace (take (ndims (cache st)) idx') with idx'
      by (rewrite <- Hlen'; symmetry; apply firstn_all).
    by rewrite Z.eqb_refl.
  - exists st2. split_and!; try done.
    intros Hnone. rewrite Hh.
    destruct (read_outcome st idx Hcons Hsep Hlen)
      as [(q & e & Hfind & _) | [(s & st0 & _ & _ & _ & Hr0)
         | [(s & st0 & st0' & _ & _ & _ & _ & Hr0 & _)
           | [(s & st0 & ck & vk & buf & created & _ & _ & _ & _ & _ & _ & _ & Hr0)
             | (st0 & rest0 & _ & _ & _ & _ & Hr0)]]]].
    + rewrite Htake in Hfind. congruence.
    + rewrite Hr0 in Hread. done.
    + rewrite Hr0 in Hread. done.
    + rewrite Hr0 in Hread. injection Hread as _ <- <-.
      eexists. cbn. rewrite lookup_insert_eq. split; [done|]. cbn. done.
    + rewrite Hr0 in Hread. done.
Qed.

(** *** The path of a chunk *)

(** X20: when [NCZ_buildchunkpath] returns [NC_NOERR] it has filled the key
    structure with the key of the variable and the key of the chunk.  Two
    tuples of the rank of the cache whose paths in the store are equal are
    the same tuple: no two chunks of a variable share an object. *)
Theorem X20_chunk_paths_distinct (c : NCZChunkCache) (a b : list Z) (k ka kb : ChunkKey) :
  length a = ndims c → length b = ndims c →
  Forall is_size64 a → Forall is_size64 b →
  NCZ_buildchunkpath NCZ_varkey c a k = Done (NC_NOERR, ka) →
  NCZ_buildchunkpath NCZ_varkey c b k = Done (NC_NOERR, kb) →
  (∃ vk ck, NCZ_varkey (var c) = (NC_NOERR, vk) ∧
            NCZ_buildchunkkey (ndims c) a (dimension_separator c) = Done (NC_NOERR, ck) ∧
            ka = mkChunkKey (Some vk) (Some ck)) ∧
  varkey ka = varkey kb ∧
  (NCZ_chunkpath ka (dimension_separator c) = NCZ_chunkpath kb (dimension_separator c) →
   a = b).
Proof.
  intros Hla Hlb Ha Hb Hpa Hpb.
  assert (Hsep : islegaldimsep (dimension_separator c) = true).
  { unfold NCZ_buildchunkpath, NCZ_buildchunkkey in Hpa.
    by destruct (islegaldimsep (dimension_separator c)). }
  unfold NCZ_buildchunkpath in *.
  pose proof (NCZ_buildchunkkey_join (ndims c) a (dimension_separator c) Hsep) as Hka.
  pose proof (NCZ_buildchunkkey_join (ndims c) b (dimension_separator c) Hsep) as Hkb.
  rewrite Hka in Hpa |- * by lia. rewrite Hkb in Hpb by lia.
  cbn in Hpa, Hpb |- *.
  destruct (NCZ_varkey (var c)) as [s vk] eqn:Hvk.
  destruct (s =? NC_NOERR) eqn:Hs; cbn in Hpa, Hpb |- *; [|simplify_eq; by rewrite Z.eqb_refl in Hs].
  apply Z.eqb_eq in Hs. subst s.
  injection Hpa as <-. injection Hpb as <-.
  split_and!.
  - eexists _, _. split; [done|]. split; done.
  - done.
  - unfold NCZ_chunkpath. cbn. intros Hpath.
    apply (inj (String.app vk)) in Hpath. injection Hpath as Hpath.
    apply (buildchunkkey_eq_inv (ndims c) (dimension_separator c)); try done.
    rewrite Hka, Hkb by lia. by rewrite Hpath.
Qed.

(** *** A file opened for reading *)

Lemma read_clean (st : state M) idx stat datap st' :
  consistent st → all_clean st →
  no_write (var (cache st)) = true →
  islegaldimsep (dimension_separator (cache st)) = true →
  length idx = ndims (cache st) →
  read st idx = Done (stat, datap, st') →
  all_clean st' ∧ zmap st' = zmap st.
Proof.
  intros Hcons Hclean Hro Hsep Hlen Hread.
  destruct (makeroom_clean st Hcons Hclean) as (st0 & Hroom0 & Hmap0 & _ & Hclean0).
  destruct (read_outcome st idx Hcons Hsep Hlen)
    as [(q & e & _ & _ & Hr) | [(s & st1 & _ & Hroom & Hs & Hr)
       | [(s & st1 & st2 & _ & Hroom & _ & _ & Hr & Hc & Hh & Hm)
         | [(s & st1 & ck & vk & buf & created & _ & Hroom & Hfresh & _ & _ & _ & _ & Hr)
           | (st1 & rest & _ & Hroom & Hfresh & _ & Hr)]]]].
  - rewrite Hr in Hread. injection Hread as _ _ <-.
    split; [|done]. intros q' e' Hq He. by apply (Hclean q' e').
  - rewrite Hroom0 in Hroom. injection Hroom as Hs' _. by rewrite <- Hs' in Hs.
  - rewrite Hroom0 in Hroom. injection Hroom as <-.
    rewrite Hr in Hread. injection Hread as _ _ <-.
    split; [|by rewrite Hm]. intros q e Hq He. rewrite Hc in Hq. rewrite Hh in He.
    by apply (Hclean0 q e).
  - rewrite Hroom0 in Hroom. injection Hroom as <-.
    rewrite Hr in Hread. injection Hread as _ _ <-.
    split; [|done]. intros q e Hq He. cbn in Hq, He.
    destruct (decide (q = fresh (dom (heap st0)))) as [->|Hne].
    + rewrite lookup_insert_eq in He. injection He as <-. cbn.
      rewrite Hro. by destruct created.
    + rewrite lookup_insert_ne in He by done.
      apply elem_of_app in Hq as [Hq|Hq]; [by apply (Hclean0 q e)|].
      apply list_elem_of_singleton in Hq. done.
  - rewrite Hroom0 in Hroom. injection Hroom as <-.
    rewrite Hr in Hread. injection Hread as _ _ <-.
    split; [|done]. intros q e Hq He. cbn in Hq, He.
    apply elem_of_app in Hq as [Hq|Hq]; [by apply (Hclean0 q e)|].
    apply list_elem_of_singleton in Hq. subst q. congruence.
Qed.

Lemma flush_clean (st : state M) :
  consistent st → all_clean st →
  NCZ_flush_chunk_cache st = Done (NC_NOERR, st).
Proof.
  intros Hcons Hclean.
  unfold NCZ_flush_chunk_cache. destruct (_ =? 0); [done|].
  apply flush_loop_clean. intros p Hp.
  destruct (consistent_live st p Hcons Hp) as (e & He & _).
  exists e. split; [done|]. by apply (Hclean p e).
Qed.

Lemma run_ops_read_only (ops : list op) : ∀ st : state M,
  consistent st → all_clean st →
  no_write (var (cache st)) = true →
  islegaldimsep (dimension_separator (cache st)) = true →
  Forall (λ b, b = true) (allocs st) →
  Forall (valid_op (cache st)) ops →
  ∃ st', run ops st = Done st' ∧ zmap st' = zmap st ∧ all_clean st'.
Proof.
  induction ops as [|o ops IH]; intros st Hcons Hclean Hro Hsep Hsucc Hvalid.
  { by exists st. }
  apply Forall_cons in Hvalid as [Ho Hvalid].
  destruct o as [idx|]; cbn [run_ops].
  - destruct (read_step st idx Hcons Hsep Ho Hsucc)
      as (s & d & st1 & Hread & Hcons1 & Hset & _ & Hsucc1).
    destruct (read_clean st idx s d st1 Hcons Hclean Hro Hsep Ho Hread) as [Hclean1 Hmap1].
    rewrite Hread. cbn.
    destruct (IH st1) as (st' & Hrun & Hmap & Hclean'); try done.
    + replace (var (cache st1)) with (var (cache st)); [done|by injection Hset].
    + replace (dimension_separator (cache st1)) with (dimension_separator (cache st));
        [done|by injection Hset].
    + eapply Forall_impl; [exact Hvalid|]. intros [idx'|]; [|done]. cbn.
      replace (ndims (cache st1)) with (ndims (cache st)); [done|by injection Hset].
    + exists st'. split; [done|]. split; [congruence|done].
  - rewrite (flush_clean st Hcons Hclean). cbn. by apply IH.
Qed.

(** X21: on a file opened for reading ([no_write]), no sequence of reads and
    flushes whose allocations succeed writes to the store: starting from a
    consistent cache without a modified entry (an empty one for instance),
    the sequence runs to its end, the store is as it was, and no entry is
    modified. *)
Theorem X21_read_only_never_writes (ops : list op) (st : state M) :
  consistent st → all_clean st →
  no_write (var (cache st)) = true →
  islegaldimsep (dimension_separator (cache st)) = true →
  Forall (λ b, b = true) (allocs st) →
  Forall (valid_op (cache st)) ops →
  ∃ st', run ops st = Done st' ∧ zmap st' = zmap st ∧ all_clean st'.
Proof. apply run_ops_read_only. Qed.

(** *** When the entry cannot be filed *)



End cache_facts.

(** * The operations on the example store *)

Section scenarios.
Import Codec Cache Scenario.

(** C1, at a cache of capacity two over an empty store: the write of chunk
    [0] returns [NC_NOERR] but stores no buffer pointer, and puts its entry
    on the recency list only.  Even when the caller fills the buffer of
    that entry, the read of the same chunk misses, builds a second entry
    from the store and returns its zeroed buffer, not the bytes written. *)
Theorem C1_write_then_read_diverges :
  let st0 := start (the_var 4 2 false) 2 None empty_store [] in
  let buf := [Init.Byte.x11; Init.Byte.x22] in
  ∃ st1 st2 st3 e1 e2,
    write st0 [0] = Done (NC_NOERR, None, st1) ∧
    mru (cache st1) = [1%positive] ∧ xcache (cache st1) = [] ∧
    fill_buffer 1%positive buf st1 = Done st2 ∧
    read st2 [0] = Done (NC_EEMPTY, Some 2%positive, st3) ∧
    heap st3 !! 1%positive = Some e1 ∧ data e1 = Some buf ∧
    heap st3 !! 2%positive = Some e2 ∧ data e2 = Some [Init.Byte.x00; Init.Byte.x00] ∧
    mru (cache st3) = [1%positive; 2%positive].
Proof.
  cbv zeta. eexists _, _, _, _, _.
  split; [vm_compute; reflexivity|].
  split; [reflexivity|]. split; [reflexivity|].
  split; [vm_compute; reflexivity|].
  split; [vm_compute; reflexivity|].
  split; [vm_compute; reflexivity|]. split; [reflexivity|].
  split; [vm_compute; reflexivity|]. split; reflexivity.
Qed.


(** C2, at a cache of capacity one over an empty store.  After the read of
    chunk [0] the cache is at capacity; [makeroom], whose loop runs only
    while the recency list is longer than [maxentries], returns [NC_NOERR]
    and evicts nothing, so that the entry count is not below [maxentries];
    the read of chunk [1] then leaves two entries in the hash container of a
    cache of capacity one.  A write, moreover, puts an entry on the recency
    list that the hash container does not get. *)
Theorem C2_makeroom_keeps_full_cache :
  let st0 := start (the_var 2 2 false) 1 None empty_store [] in
  (∃ st1,
     run_ops hash varkey_of [OpRead [0]] st0 = Done st1 ∧
     maxentries (cache st1) = 1 ∧
     length (xcache (cache st1)) = 1%nat ∧ length (mru (cache st1)) = 1%nat ∧
     makeroom st1 = Done (NC_NOERR, st1) ∧
     ¬ (Z.of_nat (length (xcache (cache st1))) < maxentries (cache st1))) ∧
  (∃ st',
     run_ops hash varkey_of [OpRead [0]; OpRead [1]] st0 = Done st' ∧
     maxentries (cache st') = 1 ∧
     length (xcache (cache st')) = 2%nat ∧
     ¬ (Z.of_nat (length (xcache (cache st'))) ≤ maxentries (cache st'))) ∧
  (∃ st1,
     write st0 [0] = Done (NC_NOERR, None, st1) ∧
     length (xcache (cache st1)) ≠ length (mru (cache st1))).
Proof.
  cbv zeta. split; [|split].
  - eexists. split; [vm_compute; reflexivity|]. split; [reflexivity|].
    split; [reflexivity|]. split; [reflexivity|].
    split; [vm_compute; reflexivity|]. vm_compute. discriminate.
  - eexists. split; [vm_compute; reflexivity|]. split; [reflexivity|].
    split; [reflexivity|]. vm_compute. intros H. apply H. reflexivity.
  - eexists. split; [vm_compute; reflexivity|]. vm_compute. discriminate.
Qed.

Lemma start_consistent v capacity fill m plan :
  0 ≤ capacity → consistent (start v capacity fill m plan).
Proof.
  intros Hcap. unfold consistent. cbn. split_and!; try done; try constructor.
  intros k p Hin. by apply elem_of_nil in Hin.
Qed.

(** C3 fails as stated: the cache has a fill chunk of two bytes [0xAA], the
    store has no chunk [0], and the buffer the read returns holds zeroes. *)
Lemma C3_counterexample :
  let fill := [Init.Byte.xaa; Init.Byte.xaa] in
  let st0 := start (the_var 4 2 false) 2 (Some fill) empty_store [] in
  ∃ st' e,
    read st0 [0] = Done (NC_EEMPTY, Some 1%positive, st') ∧
    fillchunk (cache st0) = Some fill ∧
    heap st' !! 1%positive = Some e ∧
    data e = Some [Init.Byte.x00; Init.Byte.x00] ∧
    data e ≠ Some fill.
Proof.
  cbv zeta. eexists _, _.
  split; [vm_compute; reflexivity|]. split; [reflexivity|].
  split; [vm_compute; reflexivity|]. split; [reflexivity|]. discriminate.
Qed.

Lemma C3_absent_chunk_is_zeroed_witness :
  let fill := Some [Init.Byte.xaa; Init.Byte.xaa] in
  let st0 := start (the_var 4 2 false) 2 fill empty_store [] in
  ∃ st' e d,
    read st0 [0] = Done (NC_EEMPTY, Some (fresh (dom (heap st0))), st') ∧
    heap st' !! fresh (dom (heap st0)) = Some e ∧
    data e = Some d ∧
    Z.of_nat (length d) = chunksize (cache st0) ∧
    Forall (λ b, b = Init.Byte.x00) d.
Proof.
  cbv zeta.
  apply (C3_absent_chunk_is_zeroed hash varkey_of
           (start (the_var 4 2 false) 2 (Some [Init.Byte.xaa; Init.Byte.xaa]) empty_store [])
           (start (the_var 4 2 false) 2 (Some [Init.Byte.xaa; Init.Byte.xaa]) empty_store [])
           [0] "0"%string "/v"%string [Init.Byte.x00; Init.Byte.x00]
           (Some [Init.Byte.xaa; Init.Byte.xaa])).
  - reflexivity.
  - vm_compute. discriminate.
  - reflexivity.
  - reflexivity.
  - constructor.
  - reflexivity.
  - reflexivity.
  - reflexivity.
Defined.

(** C4, at the call that [NCZ_adjust_var_cache] makes: the cache holds a
    modified entry for chunk [0], least recently used, and an unmodified one
    for chunk [1]; the capacity is set to zero.  The store refuses the write
    of chunk [0], the entry is released all the same, the entry of chunk [1]
    is evicted next, and [makeroom] returns [NC_NOERR]: the refusal is not
    reported.  With a capacity of one, where the eviction of chunk [0] is
    the last of the call, the refusal is returned. *)
Theorem C4_makeroom_loses_write_error :
  ∃ e0 e1 st1 st' st'',
    ncxcachelast (xcache (cache two_entries)) = Some 1%positive ∧
    heap two_entries !! 1%positive = Some e0 ∧ modified e0 = true ∧
    heap two_entries !! 2%positive = Some e1 ∧ modified e1 = false ∧
    put_chunk two_entries e0 = Done (NC_EIO, st1) ∧
    makeroom (set_cache (set_maxentries 0 (cache two_entries)) two_entries)
      = Done (NC_NOERR, st') ∧
    heap st' = ∅ ∧ mru (cache st') = [] ∧
    find_object (objects (zmap st')) "/v.0" = None ∧
    makeroom (set_cache (set_maxentries 1 (cache two_entries)) two_entries)
      = Done (NC_EIO, st'') ∧
    heap st'' !! 1%positive = None ∧ mru (cache st'') = [2%positive] ∧
    adjust two_entries
      = Done (NC_NOERR, set_cache (mkCache (the_var 1 2 false) 1 2 "." 1 None [] []) st').
Proof.
  eexists _, _, _, _, _.
  split; [reflexivity|].
  split; [vm_compute; reflexivity|]. split; [reflexivity|].
  split; [vm_compute; reflexivity|]. split; [reflexivity|].
  split; [vm_compute; reflexivity|].
  split; [vm_compute; reflexivity|].
  split; [vm_compute; reflexivity|]. split; [reflexivity|].
  split; [reflexivity|].
  split; [vm_compute; reflexivity|].
  split; [vm_compute; reflexivity|]. split; [reflexivity|].
  vm_compute. reflexivity.
Qed.


Lemma two_entries_consistent : consistent two_entries.
Proof.
  destruct (run_ops_invariant hash varkey_of [OpRead [0]; OpRead [1]]
              (start (the_var 1 2 false) 2 None refusing_store []))
    as (st' & Hrun & Hcons & _).
  - apply start_consistent. lia.
  - reflexivity.
  - vm_compute. discriminate.
  - constructor.
  - repeat constructor.
  - assert (Heq : run_ops hash varkey_of [OpRead [0]; OpRead [1]]
                    (start (the_var 1 2 false) 2 None refusing_store [])
                  = Done two_entries) by (vm_compute; reflexivity).
    rewrite Heq in Hrun. by injection Hrun as <-.
Qed.

(** C5 fails as stated: the store has no chunk [0], and the node of the hash
    container cannot be allocated.  The read returns [NC_ENOMEM] and no
    buffer, and the entry it had built is in no container. *)
Lemma C5_counterexample :
  let st0 := start (the_var 4 2 false) 2 None empty_store [true; true; false] in
  ∃ st',
    nczmap_read (zmap st0) "/v.0" 0 2 (zeroes 2) = (NC_EEMPTY, zeroes 2) ∧
    read st0 [0] = Done (NC_ENOMEM, None, st') ∧
    xfind (xcache (cache st')) (hash [0]) = None ∧
    heap st' = ∅.
Proof.
  cbv zeta. eexists.
  split; [reflexivity|]. split; [vm_compute; reflexivity|].
  split; [reflexivity|]. vm_compute. reflexivity.
Qed.

Lemma C5_read_absent_chunk_witness :
  let st0 := start (the_var 4 2 true) 2 None empty_store [] in
  let hkey := hash (take (ndims (cache st0)) [0]) in
  let p := fresh (dom (heap st0)) in
  ∃ st' e,
    read st0 [0] = Done (NC_EEMPTY, Some p, st') ∧
    heap st0 !! p = None ∧
    heap st' !! p = Some e ∧
    (modified e = true ↔ no_write (var (cache st0)) = false) ∧
    hashkey e = hkey ∧
    mru (cache st') = mru (cache st0) ++ [p] ∧
    xcache (cache st') = (hkey, p) :: xcache (cache st0) ∧
    zmap st' = zmap st0 ∧
    (no_write (var (cache st0)) = true →
     ∀ (st2 : state memstore) stat st3 leave,
       heap st2 !! p = Some e →
       ncxcachelast (xcache (cache st2)) = Some p →
       makeroom_body st2 = Done (stat, st3, leave) →
       zmap st3 = zmap st2).
Proof.
  cbv zeta.
  refine (proj1 (C5_read_absent_chunk hash varkey_of
           (start (the_var 4 2 true) 2 None empty_store [])
           (start (the_var 4 2 true) 2 None empty_store [])
           [0] "0"%string "/v"%string [Init.Byte.x00; Init.Byte.x00] _ _ _ _ _) _).
  - reflexivity.
  - reflexivity.
  - reflexivity.
  - reflexivity.
  - reflexivity.
  - constructor.
Defined.

Lemma C6_flush_stops_at_first_error_witness :
  ∃ stat st' (k : nat) es m,
    flush two_modified = Done (stat, st') ∧
    cache st' = cache two_modified ∧ dom (heap st') = dom (heap two_modified) ∧
    Forall2 (λ p e, heap two_modified !! p = Some e)
      (take k (mru (cache two_modified))) es ∧
    (∀ p e, p ∈ take k (mru (cache two_modified)) → heap two_modified !! p = Some e →
       ∃ e', heap st' !! p = Some e' ∧
             modified e' = false ∧
             indices e' = indices e ∧ key e' = key e ∧
             hashkey e' = hashkey e ∧ data e' = data e) ∧
    (∀ p, p ∉ take k (mru (cache two_modified)) →
       heap st' !! p = heap two_modified !! p) ∧
    writes_applied (cache two_modified) es (zmap two_modified) = Some m ∧
    ((stat = NC_NOERR ∧ k = length (mru (cache two_modified)) ∧ zmap st' = m) ∨
     (stat ≠ NC_NOERR ∧
      ∃ p e d, mru (cache two_modified) !! k = Some p ∧
               heap two_modified !! p = Some e ∧
               heap st' !! p = Some e ∧
               modified e = true ∧ data e = Some d ∧
               nczmap_write m
                 (NCZ_chunkpath (key e) (dimension_separator (cache two_modified)))
                 0 (chunksize (cache two_modified)) d = (stat, zmap st'))).
Proof.
  apply (C6_flush_stops_at_first_error two_modified).
  - apply (bool_decide_unpack _). vm_compute. exact I.
  - intros p Hp. cbn in Hp.
    apply elem_of_cons in Hp as [->|Hp];
      [|apply elem_of_cons in Hp as [->|Hp]; [|by apply elem_of_nil in Hp]].
    + eexists. split; [vm_compute; reflexivity|]. by eexists.
    + eexists. split; [vm_compute; reflexivity|]. by eexists.
Defined.

Example two_modified_flush :
  ∃ st', flush two_modified = Done (NC_EIO, st') ∧
         (modified <$> heap st' !! 1%positive) = Some false ∧
         (modified <$> heap st' !! 2%positive) = Some true ∧
         find_object (objects (zmap st')) "/v.0"
           = Some [Init.Byte.x00; Init.Byte.x00] ∧
         find_object (objects (zmap st')) "/v.1" = None.
Proof.
  eexists. split; [vm_compute; reflexivity|].
  repeat split; vm_compute; reflexivity.
Qed.

Lemma C7_adjust_var_cache_witness :
  let v := var (cache two_entries) in
  ∃ st' stat st0 es,
    adjust two_entries = Done (NC_NOERR, st') ∧
    makeroom (set_cache (set_maxentries 0 (cache two_entries)) two_entries)
      = Done (stat, st0) ∧
    mru (cache st0) = [] ∧ xcache (cache st0) = [] ∧
    Forall2 (λ kp e, heap two_entries !! kp.2 = Some e)
      (reverse (xcache (cache two_entries))) es ∧
    (stat, zmap st0) = evictions (cache two_entries) es (NC_NOERR, zmap two_entries) ∧
    (∀ q, q ∈ mru (cache two_entries) → heap st0 !! q = None) ∧
    maxentries (cache st') = Z.max 1 (chunk_cache_size v / zvar_chunksize v) ∧
    (chunk_cache_size v < zvar_chunksize v → maxentries (cache st') = 1) ∧
    chunksize (cache st') = zvar_chunksize v ∧
    fillchunk (cache st') = None ∧
    mru (cache st') = [] ∧ xcache (cache st') = [] ∧
    heap st' = heap st0 ∧ zmap st' = zmap st0.
Proof.
  apply (C7_adjust_var_cache two_entries).
  - exact two_entries_consistent.
  - vm_compute. reflexivity.
  - vm_compute. discriminate.
Defined.

Lemma C10_read_miss_failure_witness :
  ∃ st',
    read_unkeyed full_cache [2] = Done (NC_ENOMEM, None, st') ∧
    NC_ENOMEM ≠ NC_NOERR ∧
    cache st' = cache full_cache_room ∧ heap st' = heap full_cache_room ∧
    zmap st' = zmap full_cache_room ∧
    (∀ q, q ∈ mru (cache full_cache) → q ∉ mru (cache full_cache_room) →
          q ∉ mru (cache st')).
Proof.
  apply (C10_read_miss_failure hash no_varkey full_cache full_cache_room [2] NC_ENOMEM).
  - reflexivity.
  - vm_compute. reflexivity.
  - vm_compute. lia.
  - apply (fail_key no_varkey full_cache_room [2] "2"%string NC_ENOMEM ""%string).
    + constructor.
    + reflexivity.
    + reflexivity.
    + discriminate.
Defined.

Example full_cache_eviction_stays :
  mru (cache full_cache) = [1%positive; 2%positive] ∧
  mru (cache full_cache_room) = [2%positive] ∧
  heap full_cache_room !! 1%positive = None ∧
  find_object (objects (zmap full_cache_room)) "/v.0"
    = Some [Init.Byte.x00; Init.Byte.x00].
Proof. repeat split; vm_compute; reflexivity. Qed.

End scenarios.

(** * The further properties on the example store *)

Section more_scenarios.
Import Codec Cache Scenario Lifecycle Runs.

(** The state a sequence of reads and flushes reaches from an empty cache
    when the allocations succeed. *)
Lemma ran_consistent ops v capacity fill m plan st :
  0 ≤ capacity →
  Forall (λ b, b = true) plan →
  Forall (valid_op (empty_cache v capacity fill)) ops →
  run_ops hash varkey_of ops (start v capacity fill m plan) = Done st →
  consistent st ∧ keyed hash st.
Proof.
  intros Hcap Hplan Hops Hrun.
  destruct (run_ops_keyed hash varkey_of ops (start v capacity fill m plan))
    as (st' & Hrun' & Hk & Hc); try done.
  - by apply start_consistent.
  - rewrite Hrun in Hrun'. by injection Hrun' as <-.
Qed.

Lemma fresh_state_consistent : consistent fresh_state.
Proof. apply start_consistent. lia. Qed.

Lemma full_cache_consistent : consistent full_cache.
Proof.
  apply (ran_consistent [OpRead [0]; OpRead [1]] (the_var 2 2 false) 1 None empty_store []).
  - lia.
  - constructor.
  - repeat constructor.
  - vm_compute. reflexivity.
Qed.

Lemma two_dirty_consistent : consistent two_dirty ∧ keyed hash two_dirty.
Proof.
  apply (ran_consistent [OpRead [0]; OpRead [1]] (the_var 4 2 false) 2 None empty_store []).
  - lia.
  - constructor.
  - repeat constructor.
  - vm_compute. reflexivity.
Qed.

Lemma two_entries_keyed : keyed hash two_entries.
Proof.
  apply (ran_consistent [OpRead [0]; OpRead [1]] (the_var 1 2 false) 2 None refusing_store []).
  - lia.
  - constructor.
  - repeat constructor.
  - vm_compute. reflexivity.
Qed.

(** A store that refuses no read hands back what was written to it. *)
Lemma memstore_keeps (m : memstore) : read_refused m = [] → store_keeps m.
Proof.
  intros Hr path n d m' buf. cbn. case_bool_decide; [discriminate|].
  intros [= <-]. cbn. rewrite Hr. rewrite bool_decide_eq_false_2 by apply not_elem_of_nil.
  by rewrite String.eqb_refl.
Qed.

Lemma X1_read_hit_witness :
  ∃ st', read two_entries [0] = Done (NC_NOERR, Some 1%positive, st') ∧
         heap st' = heap two_entries ∧ zmap st' = zmap two_entries.
Proof.
  destruct (X1_read_hit hash varkey_of two_entries [0] 1%positive)
    as (st' & Hread & _ & _ & _ & Hheap & Hmap & _).
  - exact two_entries_consistent.
  - cbn. lia.
  - vm_compute. reflexivity.
  - exists st'. by split_and!.
Defined.

Lemma X2_read_fill_read_witness :
  ∃ st3 e,
    read after_fill [0] = Done (NC_NOERR, Some 1%positive, st3) ∧
    heap st3 !! 1%positive = Some e ∧ data e = Some some_bytes ∧
    zmap st3 = zmap after_read ∧ mru (cache st3) = mru (cache after_read).
Proof.
  apply (X2_read_fill_read hash varkey_of fresh_state after_read after_fill
           [0] NC_EEMPTY 1%positive some_bytes).
  - exact fresh_state_consistent.
  - reflexivity.
  - reflexivity.
  - vm_compute. reflexivity.
  - vm_compute. reflexivity.
Defined.

Lemma X3_read_status_and_buffer_witness :
  ∃ stat datap st',
    read fresh_state [0] = Done (stat, datap, st') ∧
    (stat = NC_NOERR → is_Some datap) ∧
    (∀ p, datap = Some p →
       (stat = NC_NOERR ∨ stat = NC_EEMPTY) ∧
       xfind (xcache (cache st')) (hash [0]) = Some p ∧
       ∃ e, heap st' !! p = Some e ∧ hashkey e = hash [0] ∧ is_Some (data e)).
Proof.
  apply (X3_read_status_and_buffer hash varkey_of fresh_state [0]).
  - exact fresh_state_consistent.
  - reflexivity.
  - reflexivity.
Defined.

Lemma X4_read_miss_evicts_lru_witness :
  ∃ kept evicted,
    xcache (cache full_cache) = kept ++ evicted ∧
    xcache (cache full_cache_read) = (hash [2], 3%positive) :: kept ∧
    Z.of_nat (length evicted) = 1 ∧
    Z.of_nat (length (mru (cache full_cache_read))) = 2.
Proof.
  destruct (X4_read_miss_evicts_lru hash varkey_of full_cache [2] NC_EEMPTY
              3%positive full_cache_read)
    as (kept & evicted & es & Hsplit & Hnew & Hlen & _ & _ & _ & Hmru).
  - exact full_cache_consistent.
  - reflexivity.
  - reflexivity.
  - vm_compute. reflexivity.
  - vm_compute. reflexivity.
  - exists kept, evicted. split_and!; [exact Hsplit|exact Hnew|exact Hlen|exact Hmru].
Defined.

Lemma X5_read_entry_not_next_victim_witness :
  ∃ q, ncxcachelast (xcache (cache two_entries_reread)) = Some q ∧ q ≠ 1%positive.
Proof.
  apply (X5_read_entry_not_next_victim hash varkey_of two_entries [0] NC_NOERR
           1%positive two_entries_reread).
  - exact two_entries_consistent.
  - reflexivity.
  - reflexivity.
  - vm_compute. reflexivity.
  - cbn. lia.
Defined.

Lemma X6_makeroom_evicts_excess_witness :
  ∃ stat st' evicted,
    makeroom full_cache = Done (stat, st') ∧
    consistent st' ∧
    xcache (cache full_cache) = xcache (cache st') ++ evicted ∧
    Z.of_nat (length evicted) = 1.
Proof.
  destruct (X6_makeroom_evicts_excess full_cache)
    as (stat & st' & evicted & es & Hroom & Hcons & Hsplit & Hlen & _).
  - exact full_cache_consistent.
  - exists stat, st', evicted. split_and!; [exact Hroom|exact Hcons|exact Hsplit|exact Hlen].
Defined.

Lemma X7_flush_then_evict_writes_nothing_witness :
  all_clean two_dirty_flushed ∧
  ∃ st2,
    makeroom (set_cache (set_maxentries 0 (cache two_dirty_flushed)) two_dirty_flushed)
      = Done (NC_NOERR, st2) ∧
    zmap st2 = zmap two_dirty_flushed.
Proof.
  apply (X7_flush_then_evict_writes_nothing two_dirty two_dirty_flushed 0).
  - exact (proj1 two_dirty_consistent).
  - vm_compute. reflexivity.
  - lia.
Defined.

Lemma X8_flush_idempotent_witness :
  flush two_dirty_flushed = Done (NC_NOERR, two_dirty_flushed).
Proof.
  apply (X8_flush_idempotent two_dirty two_dirty_flushed).
  - exact (proj1 two_dirty_consistent).
  - vm_compute. reflexivity.
Defined.

Lemma X9_write_bypasses_container_witness :
  xfind (xcache (cache after_write)) (hash [0]) = None ∧
  ∃ e, mru (cache after_write) = [1%positive] ∧
       heap after_write !! 1%positive = Some e ∧
       modified e = true ∧ data e = Some (zeroes 2).
Proof.
  destruct (X9_write_bypasses_container hash varkey_of fresh_state [0] NC_NOERR None
              after_write)
    as (_ & Hfind & s1 & st1 & Hroom & _ & _ & Hentry).
  - vm_compute. reflexivity.
  - split; [apply Hfind; reflexivity|].
    assert (Hst1 : st1 = fresh_state)
      by (assert (Heq : makeroom fresh_state = Done (NC_NOERR, fresh_state))
            by (vm_compute; reflexivity);
          rewrite Heq in Hroom; by injection Hroom as _ <-).
    subst st1. destruct (Hentry eq_refl) as (e & Hmru & _ & Hheap & Hmod & _ & Hdata & _).
    exists e. split_and!; [exact Hmru|exact Hheap|exact Hmod|exact Hdata].
Defined.

Lemma X10_free_releases_all_witness :
  (∃ h', NCZ_free_chunk_cache (Some (cache two_entries)) (heap two_entries) = Done h' ∧
         (∀ p, p ∈ mru (cache two_entries) → h' !! p = None) ∧
         (∀ p, p ∉ mru (cache two_entries) → h' !! p = heap two_entries !! p)) ∧
  NCZ_free_chunk_cache None (heap two_entries) = Done (heap two_entries).
Proof.
  apply (X10_free_releases_all two_entries). exact two_entries_consistent.
Defined.

Lemma X11_free_after_write_aborts_witness :
  NCZ_free_chunk_cache (Some (cache after_write)) (heap after_write) = Abort.
Proof.
  apply (X11_free_after_write_aborts hash varkey_of fresh_state [0] None after_write).
  - exact fresh_state_consistent.
  - cbn. lia.
  - vm_compute. reflexivity.
Defined.

Lemma X13_create_yields_empty_cache_witness :
  ∃ c al',
    NCZ_create_chunk_cache (the_var 5 2 false) 1 0 2 "." true ∅ [true; true; true]
      = Done (NC_NOERR, Some c, ∅, al') ∧
    c = mkCache (the_var 5 2 false) 1 2 "." 2 None [] [] ∧
    NCZ_cache_size c = 0 ∧
    consistent (mkState c ∅ empty_store []).
Proof.
  destruct (X13_create_yields_empty_cache (M:=memstore) (the_var 5 2 false) 1 0 2 "."
              ∅ [true; true; true])
    as (c & al' & Hcreate & Hc & _ & _ & Hsize & _ & Hcons).
  - lia.
  - cbn. lia.
  - repeat constructor.
  - exists c, al'. split_and!; [exact Hcreate|exact Hc|exact Hsize|apply Hcons].
Defined.

Lemma X14_adjust_idempotent_witness :
  adjust two_entries_adjusted = Done (NC_NOERR, two_entries_adjusted).
Proof.
  apply (X14_adjust_idempotent two_entries two_entries_adjusted).
  - exact two_entries_consistent.
  - cbn. lia.
  - cbn. lia.
  - vm_compute. reflexivity.
Defined.

Lemma X15_adjust_agrees_with_create_witness :
  cache two_entries_adjusted = mkCache (the_var 1 2 false) 1 2 "." 1 None [] [].
Proof.
  apply (X15_adjust_agrees_with_create two_entries two_entries_adjusted
           (mkCache (the_var 1 2 false) 1 2 "." 1 None [] []) ∅ [] []).
  - exact two_entries_consistent.
  - vm_compute. reflexivity.
  - vm_compute. reflexivity.
Defined.

Lemma X16_put_then_get_witness :
  cache two_dirty_put = cache two_dirty ∧ heap two_dirty_put = heap two_dirty ∧
  ∃ st2 e2,
    get_chunk two_dirty_put 1%positive = Done (NC_NOERR, st2) ∧
    heap st2 !! 1%positive = Some e2 ∧
    data e2 = Some [Init.Byte.x00; Init.Byte.x00] ∧
    modified e2 = modified first_entry ∧ indices e2 = indices first_entry ∧
    key e2 = key first_entry ∧ hashkey e2 = hashkey first_entry ∧
    (∀ q, q ≠ 1%positive → heap st2 !! q = heap two_dirty !! q) ∧
    cache st2 = cache two_dirty ∧ zmap st2 = zmap two_dirty_put.
Proof.
  apply (X16_put_then_get two_dirty two_dirty_put first_entry 1%positive first_entry
           [Init.Byte.x00; Init.Byte.x00]).
  - apply memstore_keeps. reflexivity.
  - reflexivity.
  - vm_compute. reflexivity.
  - by eexists.
  - reflexivity.
  - vm_compute. reflexivity.
Defined.

Lemma X17_entries_filed_under_digest_witness :
  ∃ st', run_ops hash varkey_of [OpRead [0]; OpFlush; OpRead [1]; OpRead [0]] fresh_state
           = Done st' ∧
         keyed hash st' ∧ consistent st'.
Proof.
  apply (X17_entries_filed_under_digest hash varkey_of
           [OpRead [0]; OpFlush; OpRead [1]; OpRead [0]] fresh_state).
  - exact fresh_state_consistent.
  - intros p e Hp. by apply elem_of_nil in Hp.
  - reflexivity.
  - constructor.
  - repeat constructor.
Defined.

Lemma rank_two_consistent : consistent rank_two.
Proof.
  unfold consistent. cbn. split_and!; try done; try constructor.
  intros k p Hin. by apply elem_of_nil in Hin.
Qed.

Lemma X18_same_digest_same_buffer_witness :
  [0; 31] ≠ [1; 0] ∧
  ∃ st2,
    read rank_two_read [1; 0] = Done (NC_NOERR, Some 1%positive, st2) ∧
    heap st2 = heap rank_two_read ∧ zmap st2 = zmap rank_two_read ∧
    ∃ e, heap st2 !! 1%positive = Some e ∧ indices e = [0; 31].
Proof.
  split; [discriminate|].
  destruct (X18_same_digest_same_buffer hash varkey_of rank_two rank_two_read
              [0; 31] [1; 0] NC_EEMPTY 1%positive)
    as (st2 & Hread & Hheap & Hmap & _ & _ & Hentry).
  - exact rank_two_consistent.
  - reflexivity.
  - reflexivity.
  - reflexivity.
  - vm_compute. reflexivity.
  - vm_compute. reflexivity.
  - exists st2. split_and!; [exact Hread|exact Hheap|exact Hmap|].
    apply Hentry. reflexivity.
Defined.

Lemma X20_chunk_paths_distinct_witness :
  let c := cache fresh_state in
  let ka := mkChunkKey (Some "/v"%string) (Some "0"%string) in
  let kb := mkChunkKey (Some "/v"%string) (Some "1"%string) in
  varkey ka = varkey kb ∧
  (NCZ_chunkpath ka (dimension_separator c) = NCZ_chunkpath kb (dimension_separator c) →
   [0] = [1]).
Proof.
  cbv zeta.
  destruct (X20_chunk_paths_distinct varkey_of (cache fresh_state) [0] [1]
              (mkChunkKey None None)
              (mkChunkKey (Some "/v"%string) (Some "0"%string))
              (mkChunkKey (Some "/v"%string) (Some "1"%string)))
    as (_ & Hvar & Hpath).
  - reflexivity.
  - reflexivity.
  - repeat constructor; unfold is_size64; lia.
  - repeat constructor; unfold is_size64; lia.
  - vm_compute. reflexivity.
  - vm_compute. reflexivity.
  - split; [exact Hvar|exact Hpath].
Defined.

Lemma X21_read_only_never_writes_witness :
  let st0 := start (the_var 4 2 true) 1 None refusing_store [] in
  ∃ st',
    run_ops hash varkey_of [OpRead [0]; OpRead [1]; OpFlush; OpRead [2]] st0 = Done st' ∧
    zmap st' = zmap st0 ∧ all_clean st'.
Proof.
  cbv zeta.
  apply (X21_read_only_never_writes hash varkey_of
           [OpRead [0]; OpRead [1]; OpFlush; OpRead [2]]
           (start (the_var 4 2 true) 1 None refusing_store [])).
  - apply start_consistent. lia.
  - intros p e Hp. by apply elem_of_nil in Hp.
  - reflexivity.
  - reflexivity.
  - constructor.
  - repeat constructor.
Defined.

Lemma X22_entry_count_bound_witness :
  let st0 := start (the_var 2 2 false) 1 None empty_store [] in
  let ops := [OpRead [0]; OpFlush; OpRead [1]; OpRead [0]; OpRead [7]] in
  (∃ st',
     run_ops hash varkey_of ops st0 = Done st' ∧
     maxentries (cache st') = maxentries (cache st0) ∧
     length (xcache (cache st')) = length (mru (cache st')) ∧
     Z.of_nat (length (xcache (cache st'))) ≤ maxentries (cache st0) + 1) ∧
  (∀ st1 st2 : state memstore,
     makeroom st1 = Done (NC_NOERR, st2) →
     Z.of_nat (length (mru (cache st2))) ≤ maxentries (cache st2)).
Proof.
  cbv zeta.
  apply (X22_entry_count_bound hash varkey_of
           [OpRead [0]; OpFlush; OpRead [1]; OpRead [0]; OpRead [7]]
           (start (the_var 2 2 false) 1 None empty_store [])).
  - apply start_consistent. lia.
  - reflexivity.
  - vm_compute. discriminate.
  - constructor.
  - repeat constructor.
Defined.


End more_scenarios.
